(** * Snooze: the gameplay simulation core

    A shallow embedding of the simulation core of the Snooze game
    (entities Bear, NoiseMeter, Television; systems NoiseSourceManager,
    PowerUpManager and LevelManager; the event bus; the round controller
    GameScene), the properties the design document states about it and
    further properties of the code itself.

    Conventions.
    - A JavaScript [number] is a rational [Q]: arithmetic is exact, so the
      rounding of IEEE doubles is abstracted away.  [Math.min]/[Math.max]
      are [Qmin]/[Qmax]; [a !== b] on numbers is [negb (Qeq_bool a b)].
    - Every method of a class is a function from the object's state to its
      new state, together with the list of events it emits on the global
      event bus, in emission order.
    - Rendering, tweens' visual effect, sound and text are left out; only
      the fields that the simulation reads are kept.
    - The engine's clock, timers and tweens are actions of a transition
      system: a pending timer or tween may fire at any time.  One round is
      modelled, with every subscriber subscribed once. *)

From Stdlib Require Import QArith Qminmax Qround Lqa Lia ZArith.
From Stdlib Require Import List Bool String.
Import ListNotations.

Open Scope Q_scope.

(** ** src/types/GameTypes.ts *)

Inductive GameState : Set :=
  LOADING | MENU | PLAYING | PAUSED | VICTORY | GAME_OVER.

Inductive BearState : Set := SLEEPING | DROWSY | AWAKE.

Inductive TVState : Set := OFF | TURNING_ON | ON | TURNING_OFF.

(** systems/LevelManager *)
Inductive PowerUpType : Set :=
  | ESPRESSO_SHOT
  | NOISE_HEADPHONES
  | WHITE_NOISE_MACHINE
  | MEDITATION_STATE
  | SOUND_SHIELD
  | WINDOW_CONTROL.

Inductive NoiseType : Set :=
  neighbors | construction | traffic | weather | wildlife.

Inductive Pattern : Set := random | scheduled | reactive | continuous.

Scheme Equality for GameState.
Scheme Equality for BearState.
Scheme Equality for TVState.
Scheme Equality for PowerUpType.

(** The payloads of the events of [GAME_EVENTS] that the simulation emits. *)
Inductive Event : Type :=
  | BEAR_STATE_CHANGE (oldState newState : BearState) (noiseLevel noisePercentage : Q)
  | BEAR_WAKE_UP (noiseLevel : Q)
  | METER_UPDATE (level percentage : Q) (isIncreasing : bool)
  | TV_TURN_ON (noiseLevel : Q)
  | TV_TURN_OFF
  | TV_NOISE_START (noiseLevel : Q)
  | NOISE_SOURCE_START (sourceId : string) (intensity : Q) (type : NoiseType)
  | NOISE_SOURCE_STOP (sourceId : string) (type : NoiseType)
  | POWERUP_SPAWNED (type : PowerUpType)
  | POWERUP_COLLECTED (type : PowerUpType)
  | POWERUP_ACTIVATED (type : PowerUpType) (duration : Q)
  | POWERUP_EXPIRED (type : PowerUpType)
  | NOISE_CANCEL_START
  | NOISE_CANCEL_STOP.

Definition isWakeUp (e : Event) : bool :=
  match e with BEAR_WAKE_UP _ => true | _ => false end.

Definition isStateChange (e : Event) : bool :=
  match e with BEAR_STATE_CHANGE _ _ _ _ => true | _ => false end.

(** ** src/utils/Constants.ts *)

Module GAMEPLAY.
Definition GAME_DURATION : Q := 60000.
Definition TIMER_UPDATE_INTERVAL : Q := 100.
Definition TV_INITIAL_DELAY_MIN : Q := 8000.
Definition TV_INITIAL_DELAY_MAX : Q := 15000.
Definition TV_SUBSEQUENT_DELAY_MIN : Q := 10000.
Definition TV_SUBSEQUENT_DELAY_MAX : Q := 20000.
Definition TV_ACTIVE_DURATION_MIN : Q := 10000.
Definition TV_ACTIVE_DURATION_MAX : Q := 18000.
Definition TV_WARNING_TIME : Q := 3000.
Definition NOISE_INCREASE_RATE : Q := 15.
Definition NOISE_DECREASE_RATE : Q := 8.
Definition WAKE_METER_MAX : Q := 100.
Definition WAKE_METER_MIN : Q := 0.
End GAMEPLAY.

(** ** entities/Bear *)

Module Bear.

Record IBearState : Type := mk {
  active : bool;
  currentState : BearState;
  wakeThreshold : Q;
  currentNoise : Q
}.

(** constructor *)
Definition new : IBearState :=
  {| active := true;
     currentState := SLEEPING;
     wakeThreshold := GAMEPLAY.WAKE_METER_MAX;
     currentNoise := 0 |}.

Definition getCurrentState (b : IBearState) : BearState := currentState b.
Definition getCurrentNoise (b : IBearState) : Q := currentNoise b.

Definition getNoisePercentage (b : IBearState) : Q :=
  (currentNoise b / wakeThreshold b) * 100.

(** The if-chain of [updateStateBasedOnNoise] that computes [newState]. *)
Definition newStateOf (noisePercentage : Q) : BearState :=
  if Qle_bool 100 noisePercentage then AWAKE
  else if Qle_bool 50 noisePercentage then DROWSY
  else SLEEPING.

Definition updateStateBasedOnNoise (b : IBearState) : IBearState * list Event :=
  let noisePercentage := getNoisePercentage b in
  let newState := newStateOf noisePercentage in
  if negb (BearState_beq newState (currentState b)) then
    let oldState := currentState b in
    let b' := {| active := active b;
                 currentState := newState;
                 wakeThreshold := wakeThreshold b;
                 currentNoise := currentNoise b |} in
    (b',
     BEAR_STATE_CHANGE oldState newState (currentNoise b') noisePercentage
     :: (if BearState_beq newState AWAKE
         then [BEAR_WAKE_UP (currentNoise b')]
         else []))
  else (b, []).

Definition update (b : IBearState) : IBearState * list Event :=
  if negb (active b) then (b, []) else updateStateBasedOnNoise b.

Definition setNoise (b : IBearState) (n : Q) : IBearState :=
  {| active := active b;
     currentState := currentState b;
     wakeThreshold := wakeThreshold b;
     currentNoise := n |}.

Definition addNoise (amount : Q) (b : IBearState) : IBearState * list Event :=
  updateStateBasedOnNoise
    (setNoise b (Qmin (currentNoise b + amount) (wakeThreshold b))).

Definition reduceNoise (amount : Q) (b : IBearState) : IBearState * list Event :=
  updateStateBasedOnNoise
    (setNoise b (Qmax (currentNoise b - amount) 0)).

(** A call of the public interface, as the scene makes them. *)
Inductive Call : Type :=
  | CallUpdate
  | CallAddNoise (amount : Q)
  | CallReduceNoise (amount : Q).

Definition call (c : Call) (b : IBearState) : IBearState * list Event :=
  match c with
  | CallUpdate => update b
  | CallAddNoise a => addNoise a b
  | CallReduceNoise a => reduceNoise a b
  end.

(** The bear after each call of a sequence, with the events of the call. *)
Fixpoint trace (cs : list Call) (b : IBearState) : list (IBearState * list Event) :=
  match cs with
  | [] => []
  | c :: cs' => call c b :: trace cs' (fst (call c b))
  end.

(** The bear after a sequence of calls. *)
Fixpoint run (cs : list Call) (b : IBearState) : IBearState :=
  match cs with
  | [] => b
  | c :: cs' => run cs' (fst (call c b))
  end.

Definition wakeUps (evs : list Event) : nat :=
  List.length (filter isWakeUp evs).

End Bear.

(** ** entities/NoiseMeter *)

Module NoiseMeter.

Record INoiseMeterState : Type := mk {
  active : bool;
  currentLevel : Q;
  maxLevel : Q;
  decayRate : Q;
  isActive : bool
}.

(** constructor *)
Definition new : INoiseMeterState :=
  {| active := true;
     currentLevel := 0;
     maxLevel := GAMEPLAY.WAKE_METER_MAX;
     decayRate := GAMEPLAY.NOISE_DECREASE_RATE;
     isActive := false |}.

Definition setLevel (m : INoiseMeterState) (l : Q) : INoiseMeterState :=
  {| active := active m;
     currentLevel := l;
     maxLevel := maxLevel m;
     decayRate := decayRate m;
     isActive := isActive m |}.

Definition setIsActive (m : INoiseMeterState) (a : bool) : INoiseMeterState :=
  {| active := active m;
     currentLevel := currentLevel m;
     maxLevel := maxLevel m;
     decayRate := decayRate m;
     isActive := a |}.

Definition getCurrentLevel (m : INoiseMeterState) : Q := currentLevel m.

Definition getPercentage (m : INoiseMeterState) : Q :=
  (currentLevel m / maxLevel m) * 100.

Definition isAtMaximum (m : INoiseMeterState) : bool :=
  Qle_bool (maxLevel m) (currentLevel m).

Definition addNoise (amount : Q) (m : INoiseMeterState)
  : INoiseMeterState * list Event :=
  let oldLevel := currentLevel m in
  let m' := setLevel m (Qmin (currentLevel m + amount) (maxLevel m)) in
  (m',
   if negb (Qeq_bool (currentLevel m') oldLevel)
   then [METER_UPDATE (currentLevel m') (getPercentage m') true]
   else []).

Definition reduceNoise (amount : Q) (m : INoiseMeterState)
  : INoiseMeterState * list Event :=
  let oldLevel := currentLevel m in
  let m' := setLevel m (Qmax (currentLevel m - amount) 0) in
  (m',
   if negb (Qeq_bool (currentLevel m') oldLevel)
   then [METER_UPDATE (currentLevel m') (getPercentage m') false]
   else []).

Definition activateNoiseCanceling (m : INoiseMeterState) : INoiseMeterState :=
  setIsActive m true.

Definition deactivateNoiseCanceling (m : INoiseMeterState) : INoiseMeterState :=
  setIsActive m false.

(** A call of the public interface that changes the level. *)
Inductive Call : Type :=
  | CallAddNoise (amount : Q)
  | CallReduceNoise (amount : Q).

Definition amountOf (c : Call) : Q :=
  match c with CallAddNoise a => a | CallReduceNoise a => a end.

Definition call (c : Call) (m : INoiseMeterState) : INoiseMeterState * list Event :=
  match c with
  | CallAddNoise a => addNoise a m
  | CallReduceNoise a => reduceNoise a m
  end.

Fixpoint run (cs : list Call) (m : INoiseMeterState) : INoiseMeterState :=
  match cs with
  | [] => m
  | c :: cs' => run cs' (fst (call c m))
  end.

(** The level at the start and after each call of a sequence. *)
Fixpoint levels (cs : list Call) (m : INoiseMeterState) : list Q :=
  currentLevel m ::
  match cs with
  | [] => []
  | c :: cs' => levels cs' (fst (call c m))
  end.

End NoiseMeter.

(** ** Math.random and Phaser.Math.Between

    [Math.random()] is a global source of numbers in [0, 1): a stream of
    draws and the index of the next one. *)

Record Rng : Type := mkRng {
  draws : nat -> Q;
  next : nat
}.

Definition Math_random (g : Rng) : Q * Rng :=
  (draws g (next g), {| draws := draws g; next := S (next g) |}).

(** Every draw is in [0, 1). *)
Definition fair (g : Rng) : Prop :=
  forall n : nat, 0 <= draws g n /\ draws g n < 1.

(** [Phaser.Math.Between(min, max)] of the engine:
    [Math.floor(Math.random() * (max - min + 1) + min)]. *)
Definition Between (min max : Q) (g : Rng) : Q * Rng :=
  let (u, g') := Math_random g in
  (inject_Z (Qfloor (u * (max - min + 1) + min)), g').

(** [x || d] on numbers: [d] when [x] is falsy (zero). *)
Definition orElse (x d : Q) : Q := if Qeq_bool x 0 then d else x.

(** ** entities/Television *)

Module Television.

Record ITVState : Type := mkState {
  active : bool;
  currentState : TVState;
  isOn : bool;
  noiseLevel : Q;
  turnOnDelay : Q;
  activeDuration : Q
}.

Record Config : Type := mkConfig {
  initialDelayMin : Q;
  initialDelayMax : Q;
  subsequentDelayMin : Q;
  subsequentDelayMax : Q;
  activeDurationMin : Q;
  activeDurationMax : Q
}.

(** The [onComplete] callbacks of the two transition tweens. *)
Inductive Tween : Set := TurnOnTween | TurnOffTween.

(** The object: its state, its configuration, the delays of the pending
    [delayedCall] timers ([None]: no timer pending) and the transition
    tweens that have not completed yet. *)
Record t : Type := mk {
  tvState : ITVState;
  tvConfig : Config;
  turnOnTimer : option Q;
  turnOffTimer : option Q;
  warningTimer : option Q;
  tweens : list Tween
}.

Definition defaultConfig : Config :=
  {| initialDelayMin := GAMEPLAY.TV_INITIAL_DELAY_MIN;
     initialDelayMax := GAMEPLAY.TV_INITIAL_DELAY_MAX;
     subsequentDelayMin := GAMEPLAY.TV_SUBSEQUENT_DELAY_MIN;
     subsequentDelayMax := GAMEPLAY.TV_SUBSEQUENT_DELAY_MAX;
     activeDurationMin := GAMEPLAY.TV_ACTIVE_DURATION_MIN;
     activeDurationMax := GAMEPLAY.TV_ACTIVE_DURATION_MAX |}.

Definition setState (tv : t) (st : ITVState) : t :=
  {| tvState := st;
     tvConfig := tvConfig tv;
     turnOnTimer := turnOnTimer tv;
     turnOffTimer := turnOffTimer tv;
     warningTimer := warningTimer tv;
     tweens := tweens tv |}.

Definition setTweens (tv : t) (tw : list Tween) : t :=
  {| tvState := tvState tv;
     tvConfig := tvConfig tv;
     turnOnTimer := turnOnTimer tv;
     turnOffTimer := turnOffTimer tv;
     warningTimer := warningTimer tv;
     tweens := tw |}.

Definition getNoiseLevel (tv : t) : Q := noiseLevel (tvState tv).
Definition getIsOn (tv : t) : bool := isOn (tvState tv).
Definition getCurrentState (tv : t) : TVState := currentState (tvState tv).

Definition configure (config : Config) (tv : t) : t :=
  {| tvState := tvState tv;
     tvConfig :=
       {| initialDelayMin :=
            orElse (initialDelayMin config) GAMEPLAY.TV_INITIAL_DELAY_MIN;
          initialDelayMax :=
            orElse (initialDelayMax config) GAMEPLAY.TV_INITIAL_DELAY_MAX;
          subsequentDelayMin :=
            orElse (subsequentDelayMin config) GAMEPLAY.TV_SUBSEQUENT_DELAY_MIN;
          subsequentDelayMax :=
            orElse (subsequentDelayMax config) GAMEPLAY.TV_SUBSEQUENT_DELAY_MAX;
          activeDurationMin :=
            orElse (activeDurationMin config) GAMEPLAY.TV_ACTIVE_DURATION_MIN;
          activeDurationMax :=
            orElse (activeDurationMax config) GAMEPLAY.TV_ACTIVE_DURATION_MAX |};
     turnOnTimer := turnOnTimer tv;
     turnOffTimer := turnOffTimer tv;
     warningTimer := warningTimer tv;
     tweens := tweens tv |}.

Definition scheduleNextActivation (tv : t) (g : Rng) : t * Rng :=
  let first := Qeq_bool (turnOnDelay (tvState tv)) 0 in
  let minDelay :=
    if first then initialDelayMin (tvConfig tv)
    else subsequentDelayMin (tvConfig tv) in
  let maxDelay :=
    if first then initialDelayMax (tvConfig tv)
    else subsequentDelayMax (tvConfig tv) in
  let (delay, g') := Between minDelay maxDelay g in
  let st := tvState tv in
  let warningDelay := Qmax 0 (delay - GAMEPLAY.TV_WARNING_TIME) in
  ({| tvState :=
        {| active := active st;
           currentState := currentState st;
           isOn := isOn st;
           noiseLevel := noiseLevel st;
           turnOnDelay := delay;
           activeDuration := activeDuration st |};
      tvConfig := tvConfig tv;
      turnOnTimer := Some delay;
      turnOffTimer := turnOffTimer tv;
      warningTimer := Some warningDelay;
      tweens := tweens tv |}, g').

Definition scheduleDeactivation (tv : t) (g : Rng) : t * Rng :=
  let (duration, g') :=
    Between (activeDurationMin (tvConfig tv)) (activeDurationMax (tvConfig tv)) g in
  let st := tvState tv in
  ({| tvState :=
        {| active := active st;
           currentState := currentState st;
           isOn := isOn st;
           noiseLevel := noiseLevel st;
           turnOnDelay := turnOnDelay st;
           activeDuration := duration |};
      tvConfig := tvConfig tv;
      turnOnTimer := turnOnTimer tv;
      turnOffTimer := Some duration;
      warningTimer := warningTimer tv;
      tweens := tweens tv |}, g').

(** constructor *)
Definition new (g : Rng) : t * Rng :=
  scheduleNextActivation
    {| tvState :=
         {| active := true;
            currentState := OFF;
            isOn := false;
            noiseLevel := 0;
            turnOnDelay := 0;
            activeDuration := 0 |};
       tvConfig := defaultConfig;
       turnOnTimer := None;
       turnOffTimer := None;
       warningTimer := None;
       tweens := [] |} g.

Definition emitNoise (tv : t) : list Event :=
  [TV_NOISE_START (noiseLevel (tvState tv))].

Definition update (tv : t) : list Event :=
  if negb (active (tvState tv)) then []
  else if isOn (tvState tv) && TVState_beq (currentState (tvState tv)) ON
       then emitNoise tv
       else [].

Definition withPhase (st : ITVState) (p : TVState) : ITVState :=
  {| active := active st;
     currentState := p;
     isOn := isOn st;
     noiseLevel := noiseLevel st;
     turnOnDelay := turnOnDelay st;
     activeDuration := activeDuration st |}.

Definition turnOn (tv : t) : t :=
  if negb (TVState_beq (currentState (tvState tv)) OFF) then tv
  else
    let tv1 := setState tv (withPhase (tvState tv) TURNING_ON) in
    setTweens tv1 (tweens tv1 ++ [TurnOnTween]).

(** [onComplete] of the tween started by [turnOn]. *)
Definition turnOnComplete (tv : t) (g : Rng) : t * list Event * Rng :=
  let st := tvState tv in
  let tv1 :=
    setState tv
      {| active := active st;
         currentState := ON;
         isOn := true;
         noiseLevel := GAMEPLAY.NOISE_INCREASE_RATE;
         turnOnDelay := turnOnDelay st;
         activeDuration := activeDuration st |} in
  let (tv2, g') := scheduleDeactivation tv1 g in
  (tv2, [TV_TURN_ON (noiseLevel (tvState tv1))], g').

Definition turnOff (tv : t) : t :=
  if negb (TVState_beq (currentState (tvState tv)) ON) then tv
  else
    let tv1 := setState tv (withPhase (tvState tv) TURNING_OFF) in
    setTweens tv1 (tweens tv1 ++ [TurnOffTween]).

(** [onComplete] of the tween started by [turnOff]. *)
Definition turnOffComplete (tv : t) (g : Rng) : t * list Event * Rng :=
  let st := tvState tv in
  let tv1 :=
    setState tv
      {| active := active st;
         currentState := OFF;
         isOn := false;
         noiseLevel := 0;
         turnOnDelay := turnOnDelay st;
         activeDuration := activeDuration st |} in
  let (tv2, g') := scheduleNextActivation tv1 g in
  (tv2, [TV_TURN_OFF], g').

(** What the engine's clock and tween manager, and the callers of the
    public interface, can make happen to a television. *)
Inductive Action : Type :=
  | TurnOnTimerFires
  | TurnOffTimerFires
  | WarningTimerFires
  | TweenCompletes
  | CallTurnOn
  | CallTurnOff
  | CallConfigure (config : Config).

(** [None]: the action is not enabled (no such timer or tween pending). *)
Definition exec (a : Action) (tv : t) (g : Rng) : option (t * list Event * Rng) :=
  match a with
  | TurnOnTimerFires =>
      match turnOnTimer tv with
      | None => None
      | Some _ =>
          Some (turnOn {| tvState := tvState tv;
                          tvConfig := tvConfig tv;
                          turnOnTimer := None;
                          turnOffTimer := turnOffTimer tv;
                          warningTimer := warningTimer tv;
                          tweens := tweens tv |}, [], g)
      end
  | TurnOffTimerFires =>
      match turnOffTimer tv with
      | None => None
      | Some _ =>
          Some (turnOff {| tvState := tvState tv;
                           tvConfig := tvConfig tv;
                           turnOnTimer := turnOnTimer tv;
                           turnOffTimer := None;
                           warningTimer := warningTimer tv;
                           tweens := tweens tv |}, [], g)
      end
  | WarningTimerFires =>
      match warningTimer tv with
      | None => None
      | Some _ =>
          Some ({| tvState := tvState tv;
                   tvConfig := tvConfig tv;
                   turnOnTimer := turnOnTimer tv;
                   turnOffTimer := turnOffTimer tv;
                   warningTimer := None;
                   tweens := tweens tv |}, [], g)
      end
  | TweenCompletes =>
      match tweens tv with
      | [] => None
      | TurnOnTween :: rest => Some (turnOnComplete (setTweens tv rest) g)
      | TurnOffTween :: rest => Some (turnOffComplete (setTweens tv rest) g)
      end
  | CallTurnOn => Some (turnOn tv, [], g)
  | CallTurnOff => Some (turnOff tv, [], g)
  | CallConfigure config => Some (configure config tv, [], g)
  end.

Fixpoint run (actions : list Action) (tv : t) (g : Rng) : option (t * Rng) :=
  match actions with
  | [] => Some (tv, g)
  | a :: rest =>
      match exec a tv g with
      | None => None
      | Some (tv', _, g') => run rest tv' g'
      end
  end.

(** The televisions that a run of actions can produce from a new one. *)
Inductive reachable (g0 : Rng) : t -> Rng -> Prop :=
  | reachable_new : forall tv g,
      new g0 = (tv, g) -> reachable g0 tv g
  | reachable_step : forall tv g a tv' evs g',
      reachable g0 tv g ->
      exec a tv g = Some (tv', evs, g') ->
      reachable g0 tv' g'.

End Television.

(** ** A JavaScript [Map]

    A [Map] keeps its entries in insertion order and [forEach] visits them
    in that order, so a map is an association list without repeated keys. *)

Section JSMap.

Context {K V : Type}.
Variable eqb : K -> K -> bool.

Fixpoint map_get (k : K) (m : list (K * V)) : option V :=
  match m with
  | [] => None
  | (k', v) :: m' => if eqb k k' then Some v else map_get k m'
  end.

Definition map_has (k : K) (m : list (K * V)) : bool :=
  match map_get k m with Some _ => true | None => false end.

(** [set] overwrites the value of a present key in place and appends an
    absent one. *)
Fixpoint map_set (k : K) (v : V) (m : list (K * V)) : list (K * V) :=
  match m with
  | [] => [(k, v)]
  | (k', v') :: m' =>
      if eqb k k' then (k, v) :: m' else (k', v') :: map_set k v m'
  end.

Fixpoint map_delete (k : K) (m : list (K * V)) : list (K * V) :=
  match m with
  | [] => []
  | (k', v') :: m' =>
      if eqb k k' then m' else (k', v') :: map_delete k m'
  end.

End JSMap.

(** ** systems/NoiseSourceManager *)

Module NoiseSource.

Record NoiseSourceConfig : Type := mkConfig {
  id : string;
  type : NoiseType;
  intensity : Q;
  pattern : Pattern;
  frequency : Q;
  duration : Q;
  startDelay : option Q
}.

Record t : Type := mk {
  config : NoiseSourceConfig;
  active : bool;
  isActive : bool;
  nextActivationTime : Q;
  currentEventEndTime : Q
}.

(** [now] is [scene.time.now]. *)
Definition scheduleNextActivation (now : Q) (ns : t) (g : Rng) : t * Rng :=
  let (delay, g') :=
    match pattern (config ns) with
    | random =>
        let (u, g1) := Math_random g in
        ((60000 / frequency (config ns)) * ((5 # 10) + u), g1)
    | scheduled => (60000 / frequency (config ns), g)
    | reactive => (30000, g)
    | continuous =>
        let (u, g1) := Math_random g in
        (2000 + u * 3000, g1)
    end in
  ({| config := config ns;
      active := active ns;
      isActive := isActive ns;
      nextActivationTime := now + delay;
      currentEventEndTime := currentEventEndTime ns |}, g').

(** constructor *)
Definition new (now : Q) (cfg : NoiseSourceConfig) (g : Rng) : t * Rng :=
  scheduleNextActivation now
    {| config := cfg;
       active := true;
       isActive := false;
       nextActivationTime := 0;
       currentEventEndTime := 0 |} g.

Definition activate (now : Q) (ns : t) (g : Rng) : t * list Event * Rng :=
  let (u, g1) := Math_random g in
  let duration := duration (config ns) + (u * 2000 - 1000) in
  let ns1 :=
    {| config := config ns;
       active := active ns;
       isActive := true;
       nextActivationTime := nextActivationTime ns;
       currentEventEndTime := now + duration |} in
  let (ns2, g2) := scheduleNextActivation now ns1 g1 in
  (ns2,
   [NOISE_SOURCE_START (id (config ns)) (intensity (config ns)) (type (config ns))],
   g2).

Definition deactivate (ns : t) : t * list Event :=
  ({| config := config ns;
      active := active ns;
      isActive := false;
      nextActivationTime := nextActivationTime ns;
      currentEventEndTime := currentEventEndTime ns |},
   [NOISE_SOURCE_STOP (id (config ns)) (type (config ns))]).

Definition update (time now : Q) (ns : t) (g : Rng) : t * list Event * Rng :=
  if negb (active ns) then (ns, [], g)
  else
    let '(ns1, evs1, g1) :=
      if Qle_bool (nextActivationTime ns) time && negb (isActive ns)
      then activate now ns g
      else (ns, [], g) in
    let '(ns2, evs2) :=
      if isActive ns1 && Qle_bool (currentEventEndTime ns1) time
      then deactivate ns1
      else (ns1, []) in
    (ns2, evs1 ++ evs2, g1).

Definition forceActivate (now : Q) (ns : t) : t :=
  if negb (isActive ns)
  then {| config := config ns;
          active := active ns;
          isActive := isActive ns;
          nextActivationTime := now;
          currentEventEndTime := currentEventEndTime ns |}
  else ns.

Definition isCurrentlyActive (ns : t) : bool := isActive ns.

Definition getIntensity (ns : t) : Q :=
  if isActive ns then intensity (config ns) else 0.

(** The source over a sequence of frames; a frame is the clock time handed
    to [update], which is [scene.time.now] as well.  The events of the
    frames are collected in order. *)
Fixpoint updates (times : list Q) (ns : t) (g : Rng) : t * list Event * Rng :=
  match times with
  | [] => (ns, [], g)
  | time :: rest =>
      let '(ns1, evs1, g1) := update time time ns g in
      let '(ns2, evs2, g2) := updates rest ns1 g1 in
      (ns2, evs1 ++ evs2, g2)
  end.

End NoiseSource.

Module NoiseSourceManager.

Record t : Type := mk {
  noiseSources : list (string * NoiseSource.t);
  activeNoiseSources : list string
}.

Definition new : t := {| noiseSources := []; activeNoiseSources := [] |}.

Definition createNoiseSource (now : Q) (cfg : NoiseSource.NoiseSourceConfig)
    (m : t) (g : Rng) : t * Rng :=
  let (ns, g') := NoiseSource.new now cfg g in
  ({| noiseSources := map_set String.eqb (NoiseSource.id cfg) ns (noiseSources m);
      activeNoiseSources := activeNoiseSources m |}, g').

Definition getTotalNoiseLevel (m : t) : Q :=
  fold_left (fun totalNoise kv => totalNoise + NoiseSource.getIntensity (snd kv))
    (noiseSources m) 0.

(** [Set.add] and [Set.delete] of the set of active source ids. *)
Definition onNoiseSourceStart (sourceId : string) (m : t) : t :=
  {| noiseSources := noiseSources m;
     activeNoiseSources :=
       if existsb (String.eqb sourceId) (activeNoiseSources m)
       then activeNoiseSources m
       else activeNoiseSources m ++ [sourceId] |}.

Definition onNoiseSourceStop (sourceId : string) (m : t) : t :=
  {| noiseSources := noiseSources m;
     activeNoiseSources :=
       filter (fun i => negb (String.eqb sourceId i)) (activeNoiseSources m) |}.

Definition getActiveNoiseSources (m : t) : list NoiseSource.t :=
  filter NoiseSource.isCurrentlyActive (map snd (noiseSources m)).

(** The source is an object held by the map: forcing it changes the entry
    in place. *)
Definition forceActivateSource (now : Q) (sourceId : string) (m : t) : t * bool :=
  match map_get String.eqb sourceId (noiseSources m) with
  | Some source =>
      ({| noiseSources :=
            map_set String.eqb sourceId (NoiseSource.forceActivate now source)
              (noiseSources m);
          activeNoiseSources := activeNoiseSources m |}, true)
  | None => (m, false)
  end.

Definition destroyAllSources (m : t) : t :=
  {| noiseSources := []; activeNoiseSources := [] |}.

End NoiseSourceManager.

(** ** systems/PowerUpManager *)

Module PowerUp.

Record PowerUpEffect : Type := mkEffect {
  noiseReduction : option Q;
  noiseCancellationBoost : option Q;
  temporaryImmunity : option bool;
  noiseSlowdown : option Q;
  shieldRadius : option Q
}.

Record PowerUpConfig : Type := mkConfig {
  type : PowerUpType;
  duration : Q;
  cooldown : Q;
  effect : PowerUpEffect
}.

(** The static table filled by [initializePowerUpConfigs]. *)
Definition powerUpConfigs : list (PowerUpType * PowerUpConfig) :=
  [ (ESPRESSO_SHOT,
     {| type := ESPRESSO_SHOT; duration := 15000; cooldown := 30000;
        effect :=
          {| noiseReduction := None; noiseCancellationBoost := None;
             temporaryImmunity := None; noiseSlowdown := Some (5 # 10);
             shieldRadius := None |} |});
    (NOISE_HEADPHONES,
     {| type := NOISE_HEADPHONES; duration := 20000; cooldown := 45000;
        effect :=
          {| noiseReduction := Some (25 # 100); noiseCancellationBoost := None;
             temporaryImmunity := None; noiseSlowdown := None;
             shieldRadius := None |} |});
    (WHITE_NOISE_MACHINE,
     {| type := WHITE_NOISE_MACHINE; duration := 12000; cooldown := 25000;
        effect :=
          {| noiseReduction := Some (4 # 10); noiseCancellationBoost := None;
             temporaryImmunity := None; noiseSlowdown := None;
             shieldRadius := None |} |});
    (MEDITATION_STATE,
     {| type := MEDITATION_STATE; duration := 10000; cooldown := 35000;
        effect :=
          {| noiseReduction := None; noiseCancellationBoost := Some 2;
             temporaryImmunity := None; noiseSlowdown := None;
             shieldRadius := None |} |});
    (SOUND_SHIELD,
     {| type := SOUND_SHIELD; duration := 8000; cooldown := 60000;
        effect :=
          {| noiseReduction := None; noiseCancellationBoost := None;
             temporaryImmunity := Some true; noiseSlowdown := None;
             shieldRadius := None |} |});
    (WINDOW_CONTROL,
     {| type := WINDOW_CONTROL; duration := 25000; cooldown := 40000;
        effect :=
          {| noiseReduction := Some (4 # 10); noiseCancellationBoost := None;
             temporaryImmunity := None; noiseSlowdown := None;
             shieldRadius := None |} |}) ].

(** [None]: the lookup throws "configuration not found". *)
Definition getPowerUpConfig (ty : PowerUpType) : option PowerUpConfig :=
  map_get PowerUpType_beq ty powerUpConfigs.

Record ActivePowerUp : Type := mkActive {
  apType : PowerUpType;
  apConfig : PowerUpConfig;
  remainingDuration : Q;
  isActive : bool
}.

(** constructor of [ActivePowerUp] *)
Definition newActive (ty : PowerUpType) (cfg : PowerUpConfig) : ActivePowerUp :=
  {| apType := ty;
     apConfig := cfg;
     remainingDuration := duration cfg;
     isActive := true |}.

Definition expire (p : ActivePowerUp) : ActivePowerUp * list Event :=
  ({| apType := apType p;
      apConfig := apConfig p;
      remainingDuration := remainingDuration p;
      isActive := false |},
   [POWERUP_EXPIRED (apType p)]).

Definition updateActive (delta : Q) (p : ActivePowerUp) : ActivePowerUp * list Event :=
  if negb (isActive p) then (p, [])
  else
    let p1 := {| apType := apType p;
                 apConfig := apConfig p;
                 remainingDuration := remainingDuration p - delta;
                 isActive := isActive p |} in
    if Qle_bool (remainingDuration p1) 0 then expire p1 else (p1, []).

Definition getRemainingDuration (p : ActivePowerUp) : Q :=
  Qmax 0 (remainingDuration p).

Record t : Type := mk {
  availablePowerUps : list PowerUpType;
  activePowerUps : list (PowerUpType * ActivePowerUp);
  powerUpCooldowns : list (PowerUpType * Q)
}.

Definition new : t :=
  {| availablePowerUps := [];
     activePowerUps := [];
     powerUpCooldowns := [] |}.

Definition setAvailablePowerUps (powerUps : list PowerUpType) (m : t) : t :=
  {| availablePowerUps := nodup PowerUpType_eq_dec powerUps;
     activePowerUps := activePowerUps m;
     powerUpCooldowns := powerUpCooldowns m |}.

Definition setActive (m : t) (a : list (PowerUpType * ActivePowerUp)) : t :=
  {| availablePowerUps := availablePowerUps m;
     activePowerUps := a;
     powerUpCooldowns := powerUpCooldowns m |}.

Definition setCooldowns (m : t) (c : list (PowerUpType * Q)) : t :=
  {| availablePowerUps := availablePowerUps m;
     activePowerUps := activePowerUps m;
     powerUpCooldowns := c |}.

(** [None]: the configuration lookup throws, before any change. *)
Definition activatePowerUp (ty : PowerUpType) (m : t)
  : option (t * bool * list Event) :=
  if map_has PowerUpType_beq ty (activePowerUps m) then Some (m, false, [])
  else
    match getPowerUpConfig ty with
    | None => None
    | Some cfg =>
        let activePowerUp := newActive ty cfg in
        Some (setActive m (map_set PowerUpType_beq ty activePowerUp (activePowerUps m)),
              true,
              [POWERUP_ACTIVATED ty (duration cfg)])
    end.

(** The first loop of [update]: every active power-up is ticked and the
    expired ones are deleted. *)
Fixpoint updateActives (delta : Q) (a : list (PowerUpType * ActivePowerUp))
  : list (PowerUpType * ActivePowerUp) * list Event :=
  match a with
  | [] => ([], [])
  | (ty, p) :: rest =>
      let (p', evs) := updateActive delta p in
      let (rest', evs') := updateActives delta rest in
      (if negb (isActive p') then rest' else (ty, p') :: rest', evs ++ evs')
  end.

(** The second loop of [update]. *)
Fixpoint updateCooldowns (delta : Q) (c : list (PowerUpType * Q))
  : list (PowerUpType * Q) :=
  match c with
  | [] => []
  | (ty, cooldown) :: rest =>
      let newCooldown := cooldown - delta in
      if Qle_bool newCooldown 0 then updateCooldowns delta rest
      else (ty, newCooldown) :: updateCooldowns delta rest
  end.

Definition update (delta : Q) (m : t) : t * list Event :=
  let (a, evs) := updateActives delta (activePowerUps m) in
  ({| availablePowerUps := availablePowerUps m;
      activePowerUps := a;
      powerUpCooldowns := updateCooldowns delta (powerUpCooldowns m) |}, evs).

Definition isActivePowerUp (ty : PowerUpType) (m : t) : bool :=
  map_has PowerUpType_beq ty (activePowerUps m).

(** [if (x)] on an optional number: present and not zero. *)
Definition truthy (x : option Q) : option Q :=
  match x with
  | Some q => if Qeq_bool q 0 then None else Some q
  | None => None
  end.

Definition getNoiseReductionMultiplier (m : t) : Q :=
  fold_left
    (fun multiplier kv =>
       match truthy (noiseReduction (effect (apConfig (snd kv)))) with
       | Some r => multiplier * r
       | None => multiplier
       end)
    (activePowerUps m) 1.

Definition getNoiseCancellationMultiplier (m : t) : Q :=
  fold_left
    (fun multiplier kv =>
       match truthy (noiseCancellationBoost (effect (apConfig (snd kv)))) with
       | Some r => multiplier * r
       | None => multiplier
       end)
    (activePowerUps m) 1.

Definition hasTemporaryImmunity (m : t) : bool :=
  existsb
    (fun kv =>
       match temporaryImmunity (effect (apConfig (snd kv))) with
       | Some b => b
       | None => false
       end)
    (activePowerUps m).

(** The types that [spawnRandomPowerUp] may choose from. *)
Definition spawnable (m : t) : list PowerUpType :=
  filter
    (fun ty =>
       negb (map_has PowerUpType_beq ty (powerUpCooldowns m))
       || match map_get PowerUpType_beq ty (powerUpCooldowns m) with
          | Some c => Qle_bool c 0
          | None => false
          end)
    (availablePowerUps m).

(** The sprite of the spawned power-up is left out; the position draws
    two more random numbers. *)
Definition spawnRandomPowerUp (m : t) (g : Rng) : t * list Event * Rng :=
  match availablePowerUps m with
  | [] => (m, [], g)
  | _ =>
      let availableTypes := spawnable m in
      match availableTypes with
      | [] => (m, [], g)
      | _ =>
          let (u, g1) := Math_random g in
          let index := Z.to_nat (Qfloor (u * inject_Z (Z.of_nat (List.length availableTypes)))) in
          let (_, g2) := Math_random g1 in
          let (_, g3) := Math_random g2 in
          match nth_error availableTypes index with
          | None => (m, [], g3)
          | Some randomType =>
              match getPowerUpConfig randomType with
              | None => (m, [], g3)
              | Some cfg =>
                  (setCooldowns m
                     (map_set PowerUpType_beq randomType (cooldown cfg)
                        (powerUpCooldowns m)),
                   [POWERUP_SPAWNED randomType], g3)
              end
          end
      end
  end.

(** [destroy]: the maps are cleared. *)
Definition destroy (m : t) : t :=
  {| availablePowerUps := availablePowerUps m;
     activePowerUps := [];
     powerUpCooldowns := [] |}.

(** A call of the public interface of the manager.  An activation whose
    configuration lookup throws leaves the manager as it is.  (A [Set]
    built from an array with equal elements keeps the first of them, where
    [nodup] keeps the last; the levels list no type twice.) *)
Inductive Op : Type :=
  | OpSetAvailable (powerUps : list PowerUpType)
  | OpActivate (ty : PowerUpType)
  | OpUpdate (delta : Q)
  | OpSpawn.

Definition step (o : Op) (m : t) (g : Rng) : t * list Event * Rng :=
  match o with
  | OpSetAvailable powerUps => (setAvailablePowerUps powerUps m, [], g)
  | OpActivate ty =>
      match activatePowerUp ty m with
      | Some (m', _, evs) => (m', evs, g)
      | None => (m, [], g)
      end
  | OpUpdate delta => let (m', evs) := update delta m in (m', evs, g)
  | OpSpawn => spawnRandomPowerUp m g
  end.

(** The manager after a sequence of calls on a new one. *)
Fixpoint steps (os : list Op) (m : t) (g : Rng) : t * Rng :=
  match os with
  | [] => (m, g)
  | o :: rest =>
      let '(m', _, g') := step o m g in
      steps rest m' g'
  end.

Definition deltaOf (o : Op) : Q :=
  match o with OpUpdate delta => delta | _ => 0 end.

End PowerUp.

(** ** systems/LevelManager: the level configuration read by the scene *)

Record Modifiers : Type := mkModifiers {
  noiseIncreaseMultiplier : Q;
  noiseDecreaseMultiplier : Q;
  bearSensitivity : Q
}.

Record LevelConfig : Type := mkLevelConfig {
  levelId : Z;
  levelDuration : Q;
  tvConfig : Television.Config;
  noiseSources : list NoiseSource.NoiseSourceConfig;
  availablePowerUps : list PowerUpType;
  modifiers : Modifiers
}.

Record LevelStats : Type := mkLevelStats {
  timeRemaining : Q;
  maxNoiseLevel : Q;
  noiseCancelUsage : Q;
  powerUpsUsed : Q;
  perfectSleep : bool;
  stealthMode : bool
}.

Record IInputState : Type := mkInputState {
  isNoiseCancelActive : bool;
  mouseDown : bool;
  spaceDown : bool;
  touchActive : bool
}.

Definition Qlt_bool (a b : Q) : bool := negb (Qle_bool b a).

(** [x] is truthy: an optional number that is present and not zero. *)
Definition isTruthy (x : option Q) : bool :=
  match x with
  | Some q => negb (Qeq_bool q 0)
  | None => false
  end.

(** ** scenes/GameScene *)

Module GameScene.

(** The fields of the scene that the simulation reads, the clock
    [scene.time.now], the state of [Math.random], the noise sources whose
    delayed creation is still pending and the events emitted so far on
    the event bus. *)
Record t : Type := mk {
  bear : Bear.IBearState;
  television : Television.t;
  noiseMeter : NoiseMeter.INoiseMeterState;
  noiseSourceManager : NoiseSourceManager.t;
  powerUpManager : PowerUp.t;
  currentLevel : LevelConfig;
  gameState : GameState;
  gameTimer : Q;
  inputState : IInputState;
  gameStats : LevelStats;
  noiseCancelStartTime : Q;
  now : Q;
  rng : Rng;
  pendingSources : list NoiseSource.NoiseSourceConfig;
  emitted : list Event
}.

Definition setBear (s : t) (x : Bear.IBearState) : t :=
  mk x (television s) (noiseMeter s) (noiseSourceManager s) (powerUpManager s)
     (currentLevel s) (gameState s) (gameTimer s) (inputState s) (gameStats s)
     (noiseCancelStartTime s) (now s) (rng s) (pendingSources s) (emitted s).

Definition setTelevision (s : t) (x : Television.t) : t :=
  mk (bear s) x (noiseMeter s) (noiseSourceManager s) (powerUpManager s)
     (currentLevel s) (gameState s) (gameTimer s) (inputState s) (gameStats s)
     (noiseCancelStartTime s) (now s) (rng s) (pendingSources s) (emitted s).

Definition setNoiseMeter (s : t) (x : NoiseMeter.INoiseMeterState) : t :=
  mk (bear s) (television s) x (noiseSourceManager s) (powerUpManager s)
     (currentLevel s) (gameState s) (gameTimer s) (inputState s) (gameStats s)
     (noiseCancelStartTime s) (now s) (rng s) (pendingSources s) (emitted s).

Definition setNoiseSourceManager (s : t) (x : NoiseSourceManager.t) : t :=
  mk (bear s) (television s) (noiseMeter s) x (powerUpManager s)
     (currentLevel s) (gameState s) (gameTimer s) (inputState s) (gameStats s)
     (noiseCancelStartTime s) (now s) (rng s) (pendingSources s) (emitted s).

Definition setPowerUpManager (s : t) (x : PowerUp.t) : t :=
  mk (bear s) (television s) (noiseMeter s) (noiseSourceManager s) x
     (currentLevel s) (gameState s) (gameTimer s) (inputState s) (gameStats s)
     (noiseCancelStartTime s) (now s) (rng s) (pendingSources s) (emitted s).

Definition setGameState (s : t) (x : GameState) : t :=
  mk (bear s) (television s) (noiseMeter s) (noiseSourceManager s) (powerUpManager s)
     (currentLevel s) x (gameTimer s) (inputState s) (gameStats s)
     (noiseCancelStartTime s) (now s) (rng s) (pendingSources s) (emitted s).

Definition setGameTimer (s : t) (x : Q) : t :=
  mk (bear s) (television s) (noiseMeter s) (noiseSourceManager s) (powerUpManager s)
     (currentLevel s) (gameState s) x (inputState s) (gameStats s)
     (noiseCancelStartTime s) (now s) (rng s) (pendingSources s) (emitted s).

Definition setInputState (s : t) (x : IInputState) : t :=
  mk (bear s) (television s) (noiseMeter s) (noiseSourceManager s) (powerUpManager s)
     (currentLevel s) (gameState s) (gameTimer s) x (gameStats s)
     (noiseCancelStartTime s) (now s) (rng s) (pendingSources s) (emitted s).

Definition setGameStats (s : t) (x : LevelStats) : t :=
  mk (bear s) (television s) (noiseMeter s) (noiseSourceManager s) (powerUpManager s)
     (currentLevel s) (gameState s) (gameTimer s) (inputState s) x
     (noiseCancelStartTime s) (now s) (rng s) (pendingSources s) (emitted s).

Definition setNoiseCancelStartTime (s : t) (x : Q) : t :=
  mk (bear s) (television s) (noiseMeter s) (noiseSourceManager s) (powerUpManager s)
     (currentLevel s) (gameState s) (gameTimer s) (inputState s) (gameStats s)
     x (now s) (rng s) (pendingSources s) (emitted s).

Definition setNow (s : t) (x : Q) : t :=
  mk (bear s) (television s) (noiseMeter s) (noiseSourceManager s) (powerUpManager s)
     (currentLevel s) (gameState s) (gameTimer s) (inputState s) (gameStats s)
     (noiseCancelStartTime s) x (rng s) (pendingSources s) (emitted s).

Definition setRng (s : t) (x : Rng) : t :=
  mk (bear s) (television s) (noiseMeter s) (noiseSourceManager s) (powerUpManager s)
     (currentLevel s) (gameState s) (gameTimer s) (inputState s) (gameStats s)
     (noiseCancelStartTime s) (now s) x (pendingSources s) (emitted s).

Definition setPendingSources (s : t) (x : list NoiseSource.NoiseSourceConfig) : t :=
  mk (bear s) (television s) (noiseMeter s) (noiseSourceManager s) (powerUpManager s)
     (currentLevel s) (gameState s) (gameTimer s) (inputState s) (gameStats s)
     (noiseCancelStartTime s) (now s) (rng s) x (emitted s).

(** [eventBus.emit] first hands the event to the subscribers; the log
    keeps the events in emission order. *)
Definition record (e : Event) (s : t) : t :=
  mk (bear s) (television s) (noiseMeter s) (noiseSourceManager s) (powerUpManager s)
     (currentLevel s) (gameState s) (gameTimer s) (inputState s) (gameStats s)
     (noiseCancelStartTime s) (now s) (rng s) (pendingSources s) (emitted s ++ [e]).

Definition setTimeRemaining (st : LevelStats) (x : Q) : LevelStats :=
  mkLevelStats x (maxNoiseLevel st) (noiseCancelUsage st) (powerUpsUsed st)
    (perfectSleep st) (stealthMode st).

Definition setMaxNoiseLevel (st : LevelStats) (x : Q) : LevelStats :=
  mkLevelStats (timeRemaining st) x (noiseCancelUsage st) (powerUpsUsed st)
    (perfectSleep st) (stealthMode st).

Definition setNoiseCancelUsage (st : LevelStats) (x : Q) : LevelStats :=
  mkLevelStats (timeRemaining st) (maxNoiseLevel st) x (powerUpsUsed st)
    (perfectSleep st) (stealthMode st).

Definition setPowerUpsUsed (st : LevelStats) (x : Q) : LevelStats :=
  mkLevelStats (timeRemaining st) (maxNoiseLevel st) (noiseCancelUsage st) x
    (perfectSleep st) (stealthMode st).

Definition setPerfectSleep (st : LevelStats) (x : bool) : LevelStats :=
  mkLevelStats (timeRemaining st) (maxNoiseLevel st) (noiseCancelUsage st)
    (powerUpsUsed st) x (stealthMode st).

Definition setStealthMode (st : LevelStats) (x : bool) : LevelStats :=
  mkLevelStats (timeRemaining st) (maxNoiseLevel st) (noiseCancelUsage st)
    (powerUpsUsed st) (perfectSleep st) x.

(** *** Round outcomes *)

Definition victory (s : t) : t :=
  let s1 := setGameState s VICTORY in
  setGameStats s1 (setTimeRemaining (gameStats s1) (gameTimer s1)).

Definition gameOver (s : t) : t :=
  let s1 := setGameState s GAME_OVER in
  setGameStats s1 (setTimeRemaining (gameStats s1) (gameTimer s1)).

Definition checkVictoryCondition (s : t) : t :=
  if Qlt_bool (NoiseMeter.getCurrentLevel (noiseMeter s)) GAMEPLAY.WAKE_METER_MAX
  then victory s
  else gameOver s.

(** *** Subscribers of the bear's and the meter's events *)

Definition onBearStateChange (newState : BearState) (s : t) : t :=
  if negb (BearState_beq newState SLEEPING)
  then setGameStats s (setPerfectSleep (gameStats s) false)
  else s.

Definition onBearWakeUp (s : t) : t := gameOver s.

Definition onMeterUpdate (percentage : Q) (s : t) : t :=
  if Qle_bool 100 percentage then gameOver s else s.

(** [eventBus.emit] for the events whose subscribers emit nothing. *)
Definition emit1 (e : Event) (s : t) : t :=
  let s1 := record e s in
  match e with
  | BEAR_STATE_CHANGE _ newState _ _ => onBearStateChange newState s1
  | BEAR_WAKE_UP _ => onBearWakeUp s1
  | METER_UPDATE _ percentage _ => onMeterUpdate percentage s1
  | _ => s1
  end.

Definition emitAll1 (evs : list Event) (s : t) : t :=
  fold_left (fun s e => emit1 e s) evs s.

(** *** The calls [this.bear.m(..)] and [this.noiseMeter.m(..)] *)

Definition bearUpdate (s : t) : t :=
  let (b, evs) := Bear.update (bear s) in
  emitAll1 evs (setBear s b).

Definition bearAddNoise (amount : Q) (s : t) : t :=
  let (b, evs) := Bear.addNoise amount (bear s) in
  emitAll1 evs (setBear s b).

Definition bearReduceNoise (amount : Q) (s : t) : t :=
  let (b, evs) := Bear.reduceNoise amount (bear s) in
  emitAll1 evs (setBear s b).

Definition meterAddNoise (amount : Q) (s : t) : t :=
  let (m, evs) := NoiseMeter.addNoise amount (noiseMeter s) in
  emitAll1 evs (setNoiseMeter s m).

Definition meterReduceNoise (amount : Q) (s : t) : t :=
  let (m, evs) := NoiseMeter.reduceNoise amount (noiseMeter s) in
  emitAll1 evs (setNoiseMeter s m).

(** *** Subscribers of the other events *)

Definition onTVNoiseStart (noiseLevel : Q) (s : t) : t :=
  if negb (isNoiseCancelActive (inputState s)) then
    let noiseAmount := (noiseLevel * GAMEPLAY.TIMER_UPDATE_INTERVAL) / 1000 in
    let s1 := bearAddNoise noiseAmount s in
    meterAddNoise noiseAmount s1
  else s.

Definition onNoiseSourceStart (intensity : Q) (s : t) : t :=
  if negb (isNoiseCancelActive (inputState s))
     && negb (PowerUp.hasTemporaryImmunity (powerUpManager s))
  then
    let noiseAmount := (intensity * GAMEPLAY.TIMER_UPDATE_INTERVAL) / 1000 in
    let noiseAmount :=
      noiseAmount * PowerUp.getNoiseReductionMultiplier (powerUpManager s) in
    let noiseAmount :=
      noiseAmount * noiseIncreaseMultiplier (modifiers (currentLevel s)) in
    let s1 := bearAddNoise noiseAmount s in
    let s2 := meterAddNoise noiseAmount s1 in
    setGameStats s2
      (setMaxNoiseLevel (gameStats s2)
         (Qmax (maxNoiseLevel (gameStats s2))
               (NoiseMeter.getCurrentLevel (noiseMeter s2))))
  else s.

(** [PowerUpManager.onPowerUpCollected]; a throwing subscriber is caught
    by [eventBus.emit]. *)
Definition managerOnPowerUpCollected (ty : PowerUpType) (s : t) : t :=
  match PowerUp.activatePowerUp ty (powerUpManager s) with
  | Some (pm, _, evs) => emitAll1 evs (setPowerUpManager s pm)
  | None => s
  end.

Definition onPowerUpCollected (s : t) : t :=
  setGameStats s (setPowerUpsUsed (gameStats s) (powerUpsUsed (gameStats s) + 1)).

(** [eventBus.emit]: the subscribers run in the order of their
    subscription, the managers' before the scene's. *)
Definition emit (e : Event) (s : t) : t :=
  match e with
  | TV_NOISE_START noiseLevel => onTVNoiseStart noiseLevel (record e s)
  | NOISE_SOURCE_START sourceId intensity _ =>
      let s1 := record e s in
      let s2 :=
        setNoiseSourceManager s1
          (NoiseSourceManager.onNoiseSourceStart sourceId (noiseSourceManager s1)) in
      onNoiseSourceStart intensity s2
  | NOISE_SOURCE_STOP sourceId _ =>
      let s1 := record e s in
      setNoiseSourceManager s1
        (NoiseSourceManager.onNoiseSourceStop sourceId (noiseSourceManager s1))
  | POWERUP_COLLECTED ty =>
      onPowerUpCollected (managerOnPowerUpCollected ty (record e s))
  | _ => emit1 e s
  end.

Definition emitAll (evs : list Event) (s : t) : t :=
  fold_left (fun s e => emit e s) evs s.

(** *** The countdown *)

Definition updateGameTimer (s : t) : t :=
  if negb (GameState_beq (gameState s) PLAYING) then s
  else
    let s1 := setGameTimer s (gameTimer s - GAMEPLAY.TIMER_UPDATE_INTERVAL) in
    if Qle_bool (gameTimer s1) 0
    then checkVictoryCondition (setGameTimer s1 0)
    else s1.

(** *** Input *)

Definition updateNoiseCancelState (s : t) : t :=
  let i := inputState s in
  let shouldBeActive := spaceDown i || mouseDown i || touchActive i in
  if negb (Bool.eqb shouldBeActive (isNoiseCancelActive i)) then
    let s1 :=
      setInputState s
        (mkInputState shouldBeActive (mouseDown i) (spaceDown i) (touchActive i)) in
    if shouldBeActive then
      let s2 :=
        setNoiseMeter s1 (NoiseMeter.activateNoiseCanceling (noiseMeter s1)) in
      let s3 := emit NOISE_CANCEL_START s2 in
      if Qlt_bool (levelDuration (currentLevel s3) * (3 # 10))
                  (noiseCancelUsage (gameStats s3))
      then setGameStats s3 (setStealthMode (gameStats s3) false)
      else s3
    else
      let s2 :=
        setNoiseMeter s1 (NoiseMeter.deactivateNoiseCanceling (noiseMeter s1)) in
      emit NOISE_CANCEL_STOP s2
  else s.

Definition onSpaceDown (s : t) : t :=
  if negb (GameState_beq (gameState s) PLAYING) then s
  else
    let i := inputState s in
    updateNoiseCancelState
      (setInputState s
         (mkInputState (isNoiseCancelActive i) (mouseDown i) true (touchActive i))).

Definition onSpaceUp (s : t) : t :=
  let i := inputState s in
  updateNoiseCancelState
    (setInputState s
       (mkInputState (isNoiseCancelActive i) (mouseDown i) false (touchActive i))).

Definition startNoiseCancel (s : t) : t :=
  if negb (GameState_beq (gameState s) PLAYING) then s
  else
    let i := inputState s in
    let s1 :=
      setInputState s
        (mkInputState (isNoiseCancelActive i) true (spaceDown i) (touchActive i)) in
    updateNoiseCancelState (setNoiseCancelStartTime s1 (now s1)).

Definition stopNoiseCancel (s : t) : t :=
  let s1 :=
    if mouseDown (inputState s) && Qlt_bool 0 (noiseCancelStartTime s)
    then setGameStats s
           (setNoiseCancelUsage (gameStats s)
              (noiseCancelUsage (gameStats s) + (now s - noiseCancelStartTime s)))
    else s in
  let i := inputState s1 in
  let s2 :=
    setInputState s1
      (mkInputState (isNoiseCancelActive i) false (spaceDown i) (touchActive i)) in
  updateNoiseCancelState (setNoiseCancelStartTime s2 0).

Definition togglePause (s : t) : t :=
  if GameState_beq (gameState s) PLAYING then setGameState s PAUSED
  else if GameState_beq (gameState s) PAUSED then setGameState s PLAYING
  else s.

(** *** The frame: [update(time, delta)] *)

(** [this.noiseSourceManager.update]: every source is updated in the
    order of the map, and the events of a source reach their subscribers
    before the next source is updated. *)
Fixpoint updateNoiseSources (time : Q) (todo : list (string * NoiseSource.t))
    (s : t) : t :=
  match todo with
  | [] => s
  | (k, ns) :: rest =>
      let '(ns', evs, g') := NoiseSource.update time (now s) ns (rng s) in
      let m := noiseSourceManager s in
      let s1 :=
        setRng
          (setNoiseSourceManager s
             (NoiseSourceManager.mk
                (map_set String.eqb k ns' (NoiseSourceManager.noiseSources m))
                (NoiseSourceManager.activeNoiseSources m)))
          g' in
      updateNoiseSources time rest (emitAll evs s1)
  end.

(** [this.noiseMeter.update] only redraws the meter. *)
Definition updateEntities (s : t) : t :=
  let s1 := bearUpdate s in
  emitAll (Television.update (television s1)) s1.

Definition updateSystems (time delta : Q) (s : t) : t :=
  let s1 :=
    updateNoiseSources time
      (NoiseSourceManager.noiseSources (noiseSourceManager s)) s in
  let (pm, evs) := PowerUp.update delta (powerUpManager s1) in
  emitAll evs (setPowerUpManager s1 pm).

Definition updateStatistics (s : t) : t :=
  let s1 := setGameStats s (setTimeRemaining (gameStats s) (gameTimer s)) in
  setGameStats s1
    (setMaxNoiseLevel (gameStats s1)
       (Qmax (maxNoiseLevel (gameStats s1))
             (NoiseMeter.getCurrentLevel (noiseMeter s1)))).

Definition handleNoiseCanceling (delta : Q) (s : t) : t :=
  if isNoiseCancelActive (inputState s) then
    let reductionAmount := (GAMEPLAY.NOISE_DECREASE_RATE * delta) / 1000 in
    let reductionAmount :=
      reductionAmount * PowerUp.getNoiseCancellationMultiplier (powerUpManager s) in
    let reductionAmount :=
      reductionAmount * noiseDecreaseMultiplier (modifiers (currentLevel s)) in
    let s1 := bearReduceNoise reductionAmount s in
    meterReduceNoise reductionAmount s1
  else s.

Definition handleTVNoise (delta : Q) (s : t) : t :=
  if Television.getIsOn (television s)
     && negb (isNoiseCancelActive (inputState s))
     && negb (PowerUp.hasTemporaryImmunity (powerUpManager s))
  then
    let noiseAmount := (GAMEPLAY.NOISE_INCREASE_RATE * delta) / 1000 in
    let noiseAmount :=
      noiseAmount * PowerUp.getNoiseReductionMultiplier (powerUpManager s) in
    let noiseAmount :=
      noiseAmount * noiseIncreaseMultiplier (modifiers (currentLevel s)) in
    let s1 := bearAddNoise noiseAmount s in
    meterAddNoise noiseAmount s1
  else s.

Definition handleNoiseSources (delta : Q) (s : t) : t :=
  let totalNoiseSourceLevel :=
    NoiseSourceManager.getTotalNoiseLevel (noiseSourceManager s) in
  if Qlt_bool 0 totalNoiseSourceLevel
     && negb (isNoiseCancelActive (inputState s))
     && negb (PowerUp.hasTemporaryImmunity (powerUpManager s))
  then
    let noiseAmount := (totalNoiseSourceLevel * delta) / 1000 in
    let noiseAmount :=
      noiseAmount * PowerUp.getNoiseReductionMultiplier (powerUpManager s) in
    let noiseAmount :=
      noiseAmount * noiseIncreaseMultiplier (modifiers (currentLevel s)) in
    let s1 := bearAddNoise noiseAmount s in
    meterAddNoise noiseAmount s1
  else s.

Definition update (time delta : Q) (s : t) : t :=
  if negb (GameState_beq (gameState s) PLAYING) then s
  else
    let s1 := updateEntities s in
    let s2 := updateSystems time delta s1 in
    let s3 := updateStatistics s2 in
    let s4 := handleNoiseCanceling delta s3 in
    let s5 := handleTVNoise delta s4 in
    handleNoiseSources delta s5.

(** *** [init] and [create] *)

Definition startPowerUpSpawning (s : t) : t :=
  match availablePowerUps (currentLevel s) with
  | [] => s
  | _ => setRng s (snd (Math_random (rng s)))
  end.

(** [createNoiseSources]: a source with a start delay is created later. *)
Fixpoint createNoiseSources (configs : list NoiseSource.NoiseSourceConfig)
    (s : t) : t :=
  match configs with
  | [] => s
  | cfg :: rest =>
      let s1 :=
        if isTruthy (NoiseSource.startDelay cfg)
        then setPendingSources s (pendingSources s ++ [cfg])
        else
          let (m, g) :=
            NoiseSourceManager.createNoiseSource (now s) cfg
              (noiseSourceManager s) (rng s) in
          setRng (setNoiseSourceManager s m) g in
      createNoiseSources rest s1
  end.

(** The scene after [init()] and [create()] for [level], started at
    clock time [time]. *)
Definition create (level : LevelConfig) (time : Q) (g : Rng) : t :=
  let (tv, g1) := Television.new g in
  let s0 :=
    {| bear := Bear.new;
       television := Television.configure (tvConfig level) tv;
       noiseMeter := NoiseMeter.new;
       noiseSourceManager := NoiseSourceManager.new;
       powerUpManager := PowerUp.new;
       currentLevel := level;
       gameState := PLAYING;
       gameTimer := levelDuration level;
       inputState := mkInputState false false false false;
       gameStats := mkLevelStats (levelDuration level) 0 0 0 true true;
       noiseCancelStartTime := 0;
       now := time;
       rng := g1;
       pendingSources := [];
       emitted := [] |} in
  let s1 := createNoiseSources (noiseSources level) s0 in
  let s2 :=
    setPowerUpManager s1
      (PowerUp.setAvailablePowerUps (availablePowerUps level) (powerUpManager s1)) in
  startPowerUpSpawning s2.

(** *** What can happen during a round *)

Inductive Action : Type :=
  | Frame (time delta : Q)
  | GameTimerFires
  | TV (a : Television.Action)
  | SpaceDown
  | SpaceUp
  | ButtonDown
  | ButtonUp
  | PauseToggled
  | PowerUpClicked (ty : PowerUpType)
  | SpawnTimerFires
  | SourceDelayElapsed (n : nat).

Definition removeNth {A : Type} (n : nat) (l : list A) : list A :=
  firstn n l ++ skipn (S n) l.

(** [None]: the action is not enabled.  The input and timer actions are
    enabled in every state of the round, also where the engine would hold
    them back (a paused scene): the runs of the engine are among those of
    the model. *)
Definition exec (a : Action) (s : t) : option t :=
  match a with
  | Frame time delta => Some (update time delta (setNow s time))
  | GameTimerFires => Some (updateGameTimer s)
  | TV a =>
      match Television.exec a (television s) (rng s) with
      | None => None
      | Some (tv, evs, g) => Some (emitAll evs (setRng (setTelevision s tv) g))
      end
  | SpaceDown => Some (onSpaceDown s)
  | SpaceUp => Some (onSpaceUp s)
  | ButtonDown => Some (startNoiseCancel s)
  | ButtonUp => Some (stopNoiseCancel s)
  | PauseToggled => Some (togglePause s)
  | PowerUpClicked ty => Some (emit (POWERUP_COLLECTED ty) s)
  | SpawnTimerFires =>
      match availablePowerUps (currentLevel s) with
      | [] => None
      | _ =>
          let '(pm, evs, g) :=
            PowerUp.spawnRandomPowerUp (powerUpManager s) (rng s) in
          Some (startPowerUpSpawning (emitAll evs (setRng (setPowerUpManager s pm) g)))
      end
  | SourceDelayElapsed n =>
      match nth_error (pendingSources s) n with
      | None => None
      | Some cfg =>
          let (m, g) :=
            NoiseSourceManager.createNoiseSource (now s) cfg
              (noiseSourceManager s) (rng s) in
          Some (setPendingSources (setRng (setNoiseSourceManager s m) g)
                  (removeNth n (pendingSources s)))
      end
  end.

(** The state after the actions of a run that are enabled; a run that meets
    an action that is not enabled stops there. *)
Fixpoint after (actions : list Action) (s : t) : t :=
  match actions with
  | [] => s
  | a :: rest =>
      match exec a s with
      | None => s
      | Some s' => after rest s'
      end
  end.

(** The states of a round of [level]. *)
Inductive reachable (level : LevelConfig) (time : Q) (g : Rng) : t -> Prop :=
  | reachable_create : reachable level time g (create level time g)
  | reachable_exec : forall s a s',
      reachable level time g s ->
      exec a s = Some s' ->
      reachable level time g s'.

End GameScene.

(** ** utils/EventBus

    A callback is a function object; only its identity matters to the bus,
    so a callback is a number.  [emit] hands the event to a copy of the
    list of subscribers, in order, and swallows what a callback throws: it
    is modelled by the list of callbacks it calls. *)

Module EventBus.

Definition Callback : Type := nat.

Definition t : Type := list (string * list Callback).

Definition empty : t := [].

Definition on (event : string) (callback : Callback) (b : t) : t :=
  let b1 :=
    if negb (map_has String.eqb event b) then map_set String.eqb event [] b else b in
  match map_get String.eqb event b1 with
  | Some callbacks => map_set String.eqb event (callbacks ++ [callback]) b1
  | None => b1
  end.

(** [callbacks.indexOf(callback)] and [callbacks.splice(index, 1)]: the
    first occurrence is removed. *)
Fixpoint removeFirst (callback : Callback) (callbacks : list Callback)
  : list Callback :=
  match callbacks with
  | [] => []
  | c :: rest => if Nat.eqb callback c then rest else c :: removeFirst callback rest
  end.

Definition off (event : string) (callback : Callback) (b : t) : t :=
  match map_get String.eqb event b with
  | Some callbacks =>
      let callbacks' := removeFirst callback callbacks in
      match callbacks' with
      | [] => map_delete String.eqb event b
      | _ => map_set String.eqb event callbacks' b
      end
  | None => b
  end.

Definition emit (event : string) (b : t) : list Callback :=
  match map_get String.eqb event b with
  | Some callbacks => callbacks
  | None => []
  end.

Definition clear (b : t) : t := [].

Definition getSubscriberCount (event : string) (b : t) : nat :=
  match map_get String.eqb event b with
  | Some callbacks => List.length callbacks
  | None => 0%nat
  end.

Definition getEventNames (b : t) : list string := map fst b.

Definition hasSubscribers (event : string) (b : t) : bool :=
  Nat.ltb 0 (getSubscriberCount event b).

(** A call that changes the bus. *)
Inductive Op : Type :=
  | OpOn (event : string) (callback : Callback)
  | OpOff (event : string) (callback : Callback)
  | OpClear.

Definition step (o : Op) (b : t) : t :=
  match o with
  | OpOn event callback => on event callback b
  | OpOff event callback => off event callback b
  | OpClear => clear b
  end.

Definition steps (os : list Op) (b : t) : t := fold_left (fun b o => step o b) os b.

End EventBus.

(** * Concrete data used by the examples *)

(** Level 5 of [LevelManager.initializeLevels], "Construction Zone". *)
Definition level5 : LevelConfig :=
  {| levelId := 5;
     levelDuration := 75000;
     tvConfig :=
       {| Television.initialDelayMin := GAMEPLAY.TV_INITIAL_DELAY_MIN;
          Television.initialDelayMax := GAMEPLAY.TV_INITIAL_DELAY_MAX;
          Television.subsequentDelayMin := 8000;
          Television.subsequentDelayMax := 15000;
          Television.activeDurationMin := GAMEPLAY.TV_ACTIVE_DURATION_MIN;
          Television.activeDurationMax := GAMEPLAY.TV_ACTIVE_DURATION_MAX |};
     noiseSources :=
       [ NoiseSource.mkConfig "drilling" construction 6 scheduled 2 5000 (Some 10000);
         NoiseSource.mkConfig "hammering" construction 5 random (15 # 10) 3000 (Some 20000);
         NoiseSource.mkConfig "machinery" construction 8 continuous (5 # 10) 15000 (Some 45000) ];
     availablePowerUps := [ESPRESSO_SHOT; SOUND_SHIELD; MEDITATION_STATE];
     modifiers :=
       {| noiseIncreaseMultiplier := 13 # 10;
          noiseDecreaseMultiplier := 9 # 10;
          bearSensitivity := 12 # 10 |} |}.

(** The first source of level 6, "Car Horns". *)
Definition traffic_horns : NoiseSource.NoiseSourceConfig :=
  NoiseSource.mkConfig "traffic_horns" traffic 4 random 3 2000 None.

(** A stream of draws: the first is close to 1, the others are 1/2. *)
Definition draws1 : Rng :=
  {| draws := fun n => match n with O => 9999 # 10000 | _ => 1 # 2 end;
     next := 0 |}.

(** A round of level 5 in which the television is on and the sound shield
    has been collected.  The television's timer fires (at 15000 ms); the
    player holds the space bar; the television's transition completes and a
    frame passes under suppression; the spawn timer fires (at 27500 ms; the
    draw 1/2 selects the second of the three available types, the sound
    shield); the player clicks the power-up and releases the space bar. *)
Definition shieldedRound : GameScene.t :=
  GameScene.after
    [ GameScene.TV Television.TurnOnTimerFires;
      GameScene.SpaceDown;
      GameScene.TV Television.TweenCompletes;
      GameScene.Frame 16016 16;
      GameScene.SpawnTimerFires;
      GameScene.PowerUpClicked SOUND_SHIELD;
      GameScene.SpaceUp ]
    (GameScene.create level5 0 draws1).

(** A round of level 5 in which the television's turn-off timer has fired:
    the television is fading out. *)
Definition fadingRound : GameScene.t :=
  GameScene.after
    [ GameScene.TV Television.TurnOnTimerFires;
      GameScene.TV Television.TweenCompletes;
      GameScene.TV Television.TurnOffTimerFires ]
    (GameScene.create level5 0 draws1).

(** A round of level 5 in which the television is on and one long frame
    has brought the meter to 99. *)
Definition round99 : GameScene.t :=
  GameScene.after
    [ GameScene.TV Television.TurnOnTimerFires;
      GameScene.TV Television.TweenCompletes;
      GameScene.Frame 21000 5000 ]
    (GameScene.create level5 0 draws1).

(** The same round 749 ticks of the countdown later: 100 ms are left. *)
Definition round99_last_tick : GameScene.t :=
  GameScene.after (List.repeat GameScene.GameTimerFires 749) round99.

(** A stream whose draws are all 0. *)
Definition draws0 : Rng := {| draws := fun _ => 0; next := 0 |}.

(** ** systems/LevelManager: levels, unlocking and progress

    The six levels of [initializeLevels].  Saving to and loading from the
    browser's storage is left out: the manager is the one constructed with
    nothing saved, and [saveProgress] does not change it. *)

Definition defaultTvConfig : Television.Config :=
  Television.mkConfig
    GAMEPLAY.TV_INITIAL_DELAY_MIN GAMEPLAY.TV_INITIAL_DELAY_MAX
    GAMEPLAY.TV_SUBSEQUENT_DELAY_MIN GAMEPLAY.TV_SUBSEQUENT_DELAY_MAX
    GAMEPLAY.TV_ACTIVE_DURATION_MIN GAMEPLAY.TV_ACTIVE_DURATION_MAX.

Definition level1 : LevelConfig :=
  {| levelId := 1;
     levelDuration := 30000;
     tvConfig := Television.mkConfig 10000 15000 15000 20000 8000 12000;
     noiseSources := [];
     availablePowerUps := [];
     modifiers := mkModifiers (7 # 10) (12 # 10) (8 # 10) |}.

Definition level2 : LevelConfig :=
  {| levelId := 2;
     levelDuration := 45000;
     tvConfig := Television.mkConfig 8000 12000 12000 18000 10000 15000;
     noiseSources := [];
     availablePowerUps := [ESPRESSO_SHOT];
     modifiers := mkModifiers (85 # 100) (11 # 10) (9 # 10) |}.

Definition level3 : LevelConfig :=
  {| levelId := 3;
     levelDuration := 60000;
     tvConfig := defaultTvConfig;
     noiseSources := [];
     availablePowerUps := [ESPRESSO_SHOT; WHITE_NOISE_MACHINE];
     modifiers := mkModifiers 1 1 1 |}.

Definition level4 : LevelConfig :=
  {| levelId := 4;
     levelDuration := 60000;
     tvConfig := defaultTvConfig;
     noiseSources :=
       [ NoiseSource.mkConfig "neighbor_tv" neighbors 3 random (15 # 10) 8000 (Some 15000);
         NoiseSource.mkConfig "neighbor_music" neighbors 4 scheduled 1 12000 (Some 30000) ];
     availablePowerUps := [ESPRESSO_SHOT; NOISE_HEADPHONES];
     modifiers := mkModifiers (11 # 10) (95 # 100) (11 # 10) |}.

Definition level6 : LevelConfig :=
  {| levelId := 6;
     levelDuration := 90000;
     tvConfig := defaultTvConfig;
     noiseSources :=
       [ traffic_horns;
         NoiseSource.mkConfig "truck_engine" traffic 7 scheduled 1 8000 (Some 25000);
         NoiseSource.mkConfig "sirens" traffic 9 random (5 # 10) 6000 (Some 40000) ];
     availablePowerUps := [WINDOW_CONTROL; WHITE_NOISE_MACHINE; SOUND_SHIELD];
     modifiers := mkModifiers (14 # 10) (85 # 100) (13 # 10) |}.

Module LevelManager.

Record LevelProgress : Type := mkProgress {
  completed : bool;
  bestScore : Q;
  completionTime : Q;
  attempts : Z;
  stats : LevelStats
}.

(** The events of the manager on the event bus. *)
Inductive LevelEvent : Type :=
  | LEVEL_CHANGED (levelId : Z) (config : option LevelConfig)
  | LEVEL_UNLOCKED (levelId : Z)
  | LEVEL_COMPLETED (levelId : Z) (progress : LevelProgress)
  | PROGRESS_RESET.

Record t : Type := mk {
  currentLevel : Z;
  levelConfigs : list (Z * LevelConfig);
  unlockedLevels : list Z;
  levelProgress : list (Z * LevelProgress)
}.

(** The manager as its constructor leaves it when nothing is saved. *)
Definition initial : t :=
  {| currentLevel := 1;
     levelConfigs :=
       [(1%Z, level1); (2%Z, level2); (3%Z, level3); (4%Z, level4);
        (5%Z, level5); (6%Z, level6)];
     unlockedLevels := [1%Z];
     levelProgress := [] |}.

(** [Set.add] *)
Definition setAdd (x : Z) (l : list Z) : list Z :=
  if existsb (Z.eqb x) l then l else l ++ [x].

Definition getCurrentLevel (m : t) : Z := currentLevel m.

Definition getLevelConfig (levelId : Z) (m : t) : option LevelConfig :=
  map_get Z.eqb levelId (levelConfigs m).

Definition getCurrentLevelConfig (m : t) : option LevelConfig :=
  getLevelConfig (currentLevel m) m.

Definition isLevelUnlocked (levelId : Z) (m : t) : bool :=
  existsb (Z.eqb levelId) (unlockedLevels m).

Definition setCurrentLevel (levelId : Z) (m : t) : t * bool * list LevelEvent :=
  if isLevelUnlocked levelId m then
    ({| currentLevel := levelId;
        levelConfigs := levelConfigs m;
        unlockedLevels := unlockedLevels m;
        levelProgress := levelProgress m |},
     true,
     [LEVEL_CHANGED levelId (getLevelConfig levelId m)])
  else (m, false, []).

Definition unlockLevel (levelId : Z) (m : t) : t * list LevelEvent :=
  ({| currentLevel := currentLevel m;
      levelConfigs := levelConfigs m;
      unlockedLevels := setAdd levelId (unlockedLevels m);
      levelProgress := levelProgress m |},
   [LEVEL_UNLOCKED levelId]).

Definition getLevelProgress (levelId : Z) (m : t) : option LevelProgress :=
  map_get Z.eqb levelId (levelProgress m).

(** [now] is [Date.now()]. *)
Definition completeLevel (levelId : Z) (score : Q) (stats : LevelStats) (now : Q)
    (m : t) : t * list LevelEvent :=
  let existingProgress := map_get Z.eqb levelId (levelProgress m) in
  let newProgress :=
    {| completed := true;
       bestScore :=
         Qmax (match existingProgress with
               | Some p => orElse (bestScore p) 0
               | None => 0
               end) score;
       completionTime := now;
       attempts :=
         ((match existingProgress with
           | Some p => if Z.eqb (attempts p) 0 then 0 else attempts p
           | None => 0
           end) + 1)%Z;
       stats := stats |} in
  let m1 :=
    {| currentLevel := currentLevel m;
       levelConfigs := levelConfigs m;
       unlockedLevels := unlockedLevels m;
       levelProgress := map_set Z.eqb levelId newProgress (levelProgress m) |} in
  let (m2, evs) :=
    if map_has Z.eqb (levelId + 1)%Z (levelConfigs m1)
    then unlockLevel (levelId + 1)%Z m1
    else (m1, []) in
  (m2, evs ++ [LEVEL_COMPLETED levelId newProgress]).

Definition getAllUnlockedLevels (m : t) : list LevelConfig :=
  flat_map
    (fun id => match getLevelConfig id m with Some c => [c] | None => [] end)
    (unlockedLevels m).

Definition resetProgress (m : t) : t * list LevelEvent :=
  ({| currentLevel := 1;
      levelConfigs := levelConfigs m;
      unlockedLevels := [1%Z];
      levelProgress := [] |},
   [PROGRESS_RESET]).

End LevelManager.

(** * The vocabulary of the properties *)

Section TelevisionVocabulary.

Import Television.

(** What holds of the fields in each phase. *)
Definition phase_inv (tv : t) : Prop :=
  match currentState (tvState tv) with
  | OFF =>
      isOn (tvState tv) = false /\ noiseLevel (tvState tv) = 0 /\ tweens tv = []
  | TURNING_ON =>
      isOn (tvState tv) = false /\ noiseLevel (tvState tv) = 0
      /\ tweens tv = [TurnOnTween]
  | ON =>
      isOn (tvState tv) = true
      /\ noiseLevel (tvState tv) = GAMEPLAY.NOISE_INCREASE_RATE
      /\ tweens tv = []
  | TURNING_OFF =>
      isOn (tvState tv) = true
      /\ noiseLevel (tvState tv) = GAMEPLAY.NOISE_INCREASE_RATE
      /\ tweens tv = [TurnOffTween]
  end.

End TelevisionVocabulary.

(** The length of the active period that [activate] samples: the end time
    of the event minus the clock. *)
Definition sampledDuration (now : Q) (ns : NoiseSource.t) (g : Rng) : Q :=
  NoiseSource.currentEventEndTime (fst (fst (NoiseSource.activate now ns g))) - now.

(** The number of active instances of a type. *)
Definition instances (ty : PowerUpType) (m : PowerUp.t) : nat :=
  List.length
    (filter (fun kv => PowerUpType_beq ty (fst kv)) (PowerUp.activePowerUps m)).

Section RoundVocabulary.

Import GameScene.

(** The bear's accumulator and the meter's level agree. *)
Definition synced (s : t) : Prop :=
  Bear.currentNoise (bear s) = NoiseMeter.currentLevel (noiseMeter s)
  /\ Bear.wakeThreshold (bear s) = 100
  /\ NoiseMeter.maxLevel (noiseMeter s) = 100.

(** A meter at its maximum has ended the round. *)
Definition guarded (s : t) : Prop :=
  NoiseMeter.currentLevel (noiseMeter s) < 100 \/ gameState s = GAME_OVER.

Definition round_inv (s : t) : Prop := synced s /\ guarded s.

(** [s'] differs from [s] in nothing that the noise arithmetic reads. *)
Definition env_kept (s s' : t) : Prop :=
  inputState s' = inputState s
  /\ currentLevel s' = currentLevel s
  /\ powerUpManager s' = powerUpManager s
  /\ television s' = television s
  /\ gameTimer s' = gameTimer s.

(** The round can only go on or be lost. *)
Definition on_or_over (s s' : t) : Prop :=
  gameState s' = gameState s \/ gameState s' = GAME_OVER.

(** Neither accumulator moves. *)
Definition quiet (s s' : t) : Prop :=
  Bear.currentNoise (bear s') = Bear.currentNoise (bear s)
  /\ Bear.wakeThreshold (bear s') = Bear.wakeThreshold (bear s)
  /\ NoiseMeter.currentLevel (noiseMeter s') = NoiseMeter.currentLevel (noiseMeter s)
  /\ NoiseMeter.maxLevel (noiseMeter s') = NoiseMeter.maxLevel (noiseMeter s)
  /\ on_or_over s s'.

(** A step after which the round goes on or is lost, and that keeps the
    invariant of the round. *)
Definition passes (s s' : t) : Prop :=
  on_or_over s s' /\ (round_inv s -> round_inv s').

(** Suppression (noise canceling) is active; a temporary-immunity modifier
    is active. *)
Definition suppressed (s : t) : Prop :=
  isNoiseCancelActive (inputState s) = true.

Definition immune (s : t) : Prop :=
  PowerUp.hasTemporaryImmunity (powerUpManager s) = true.

(** An event of a frame whose subscribers add no noise in state [s]. *)
Definition blocked (s : t) (e : Event) : Prop :=
  match e with
  | TV_NOISE_START _ => suppressed s
  | NOISE_SOURCE_START _ _ _ => suppressed s \/ immune s
  | NOISE_SOURCE_STOP _ _ => True
  | POWERUP_EXPIRED _ => True
  | _ => False
  end.

(** The events of the noise sources; the events of the expiring power-ups. *)
Definition fromSource (e : Event) : Prop :=
  match e with
  | NOISE_SOURCE_START _ _ _ => True
  | NOISE_SOURCE_STOP _ _ => True
  | _ => False
  end.

Definition expiry (e : Event) : Prop :=
  match e with
  | POWERUP_EXPIRED _ => True
  | _ => False
  end.

(** The amounts of the three branches of [update]. *)
Definition reductionAmount (delta : Q) (s : t) : Q :=
  (GAMEPLAY.NOISE_DECREASE_RATE * delta) / 1000
  * PowerUp.getNoiseCancellationMultiplier (powerUpManager s)
  * noiseDecreaseMultiplier (modifiers (currentLevel s)).

(** The stages of [update] before its three noise branches. *)
Definition beforeBranches (time delta : Q) (s : t) : t :=
  updateStatistics (updateSystems time delta (updateEntities s)).

End RoundVocabulary.

(** Goals on fields of states built by the setters. *)
Ltac scene_fields :=
  cbn [GameScene.bear GameScene.television GameScene.noiseMeter
       GameScene.noiseSourceManager GameScene.powerUpManager
       GameScene.currentLevel GameScene.gameState GameScene.gameTimer
       GameScene.inputState GameScene.gameStats GameScene.noiseCancelStartTime
       GameScene.now GameScene.rng GameScene.pendingSources GameScene.emitted
       GameScene.setBear GameScene.setTelevision GameScene.setNoiseMeter
       GameScene.setNoiseSourceManager GameScene.setPowerUpManager
       GameScene.setGameState GameScene.setGameTimer GameScene.setInputState
       GameScene.setGameStats GameScene.setNoiseCancelStartTime GameScene.setNow
       GameScene.setRng GameScene.setPendingSources GameScene.record
       GameScene.gameOver GameScene.victory
       NoiseMeter.currentLevel NoiseMeter.maxLevel NoiseMeter.setIsActive
       NoiseMeter.activateNoiseCanceling NoiseMeter.deactivateNoiseCanceling].

Ltac by_fields :=
  unfold quiet, env_kept, on_or_over; scene_fields;
  repeat split;
  try reflexivity; try (left; reflexivity); try (right; reflexivity).

(** ** Vocabulary of the further properties *)

(** The amount of a call of the bear's interface is not negative. *)
Definition nonNegative (c : Bear.Call) : Prop :=
  match c with
  | Bear.CallUpdate => True
  | Bear.CallAddNoise a => 0 <= a
  | Bear.CallReduceNoise a => 0 <= a
  end.

(** The phase that follows a phase in the television's cycle. *)
Definition nextPhase (p : TVState) : TVState :=
  match p with
  | OFF => TURNING_ON
  | TURNING_ON => ON
  | ON => TURNING_OFF
  | TURNING_OFF => OFF
  end.

(** [s'] differs from [s] in nothing that the countdown, the input
    handlers, the television and the level own; the time counted as
    suppression is the same. *)
Definition steady (s s' : GameScene.t) : Prop :=
  GameScene.gameTimer s' = GameScene.gameTimer s
  /\ GameScene.inputState s' = GameScene.inputState s
  /\ NoiseMeter.isActive (GameScene.noiseMeter s')
     = NoiseMeter.isActive (GameScene.noiseMeter s)
  /\ GameScene.currentLevel s' = GameScene.currentLevel s
  /\ GameScene.television s' = GameScene.television s
  /\ GameScene.noiseCancelStartTime s' = GameScene.noiseCancelStartTime s
  /\ noiseCancelUsage (GameScene.gameStats s')
     = noiseCancelUsage (GameScene.gameStats s).

Ltac steady_fields :=
  unfold steady; scene_fields;
  cbn [NoiseMeter.isActive NoiseMeter.setLevel noiseCancelUsage
       GameScene.setTimeRemaining GameScene.setMaxNoiseLevel
       GameScene.setPowerUpsUsed GameScene.setPerfectSleep GameScene.setStealthMode];
  repeat split; try reflexivity.

(** What holds of an entry of the map of active power-ups: it is filed
    under its own type, it is active, its configuration is the one of the
    table and its remaining duration is positive and at most the
    configured one. *)
Definition activeEntry_ok (kv : PowerUpType * PowerUp.ActivePowerUp) : Prop :=
  PowerUp.apType (snd kv) = fst kv
  /\ PowerUp.isActive (snd kv) = true
  /\ PowerUp.getPowerUpConfig (fst kv) = Some (PowerUp.apConfig (snd kv))
  /\ 0 < PowerUp.remainingDuration (snd kv)
  /\ PowerUp.remainingDuration (snd kv) <= PowerUp.duration (PowerUp.apConfig (snd kv)).

(** What holds of the power-up manager between two calls. *)
Definition powerUps_wf (m : PowerUp.t) : Prop :=
  NoDup (map fst (PowerUp.activePowerUps m))
  /\ Forall activeEntry_ok (PowerUp.activePowerUps m)
  /\ NoDup (map fst (PowerUp.powerUpCooldowns m))
  /\ Forall (fun kc => 0 < snd kc) (PowerUp.powerUpCooldowns m)
  /\ NoDup (PowerUp.availablePowerUps m).

(** [q] when a power-up of type [ty] is active, 1 otherwise. *)
Definition whenActive (ty : PowerUpType) (m : PowerUp.t) (q : Q) : Q :=
  if PowerUp.isActivePowerUp ty m then q else 1.

(** The power-up outlasts a tick of [delta] ms; the entry after the tick;
    the event of an entry that expires. *)
Definition outlasts (delta : Q) (kv : PowerUpType * PowerUp.ActivePowerUp) : bool :=
  Qlt_bool 0 (PowerUp.remainingDuration (snd kv) - delta).

Definition ticked (delta : Q) (kv : PowerUpType * PowerUp.ActivePowerUp)
  : PowerUpType * PowerUp.ActivePowerUp :=
  (fst kv,
   {| PowerUp.apType := PowerUp.apType (snd kv);
      PowerUp.apConfig := PowerUp.apConfig (snd kv);
      PowerUp.remainingDuration := PowerUp.remainingDuration (snd kv) - delta;
      PowerUp.isActive := PowerUp.isActive (snd kv) |}).

Definition expiredEvent (kv : PowerUpType * PowerUp.ActivePowerUp) : Event :=
  POWERUP_EXPIRED (fst kv).

(** The events of a noise source with id [sourceId] alternate: a start
    when it was idle, a stop when it was active. *)
Fixpoint alternating (sourceId : string) (wasActive : bool) (evs : list Event) : bool :=
  match evs with
  | [] => true
  | NOISE_SOURCE_START i _ _ :: rest =>
      String.eqb i sourceId && negb wasActive && alternating sourceId true rest
  | NOISE_SOURCE_STOP i _ :: rest =>
      String.eqb i sourceId && wasActive && alternating sourceId false rest
  | _ :: _ => false
  end.

(** Whether the source is active after the events. *)
Fixpoint activeAfter (wasActive : bool) (evs : list Event) : bool :=
  match evs with
  | [] => wasActive
  | NOISE_SOURCE_START _ _ _ :: rest => activeAfter true rest
  | NOISE_SOURCE_STOP _ _ :: rest => activeAfter false rest
  | _ :: rest => activeAfter wasActive rest
  end.

(** The sum of the configured intensities of a list of sources. *)
Definition sumIntensity (l : list NoiseSource.t) : Q :=
  fold_left (fun total ns => total + NoiseSource.intensity (NoiseSource.config ns)) l 0.

(** What holds of the event bus between two calls: no event name is
    registered twice and no registered event has an empty list of
    callbacks. *)
Definition bus_wf (b : EventBus.t) : Prop :=
  NoDup (map fst b) /\ Forall (fun kv => snd kv <> []) b.

(** The managers that playing reaches: the player selects a level, wins
    the level that is current (the scene completes the level whose
    configuration it was given) or resets the progress. *)
Inductive played : LevelManager.t -> Prop :=
  | played_initial : played LevelManager.initial
  | played_select : forall m levelId,
      played m ->
      played (fst (fst (LevelManager.setCurrentLevel levelId m)))
  | played_win : forall m cfg score stats now,
      played m ->
      LevelManager.getCurrentLevelConfig m = Some cfg ->
      played (fst (LevelManager.completeLevel (levelId cfg) score stats now m))
  | played_reset : forall m,
      played m ->
      played (fst (LevelManager.resetProgress m)).

(** The levels 1, ..., k. *)
Definition levelsUpTo (k : nat) : list Z := map Z.of_nat (seq 1 k).

(** What holds of the manager while the player plays: the levels 1 to [k]
    are unlocked, the current level is one of them, the completed levels
    are among them and all the levels before [k] are completed. *)
Definition levels_inv (k : nat) (m : LevelManager.t) : Prop :=
  (1 <= k <= 6)%nat
  /\ LevelManager.levelConfigs m = LevelManager.levelConfigs LevelManager.initial
  /\ LevelManager.unlockedLevels m = levelsUpTo k
  /\ (1 <= LevelManager.currentLevel m <= Z.of_nat k)%Z
  /\ (forall id : Z,
        map_has Z.eqb id (LevelManager.levelProgress m) = true ->
        (1 <= id <= Z.of_nat k)%Z)
  /\ (forall id : Z,
        (1 <= id < Z.of_nat k)%Z ->
        map_has Z.eqb id (LevelManager.levelProgress m) = true).

(** Suppression follows the held inputs, the touch flag is never set and
    the meter's glow flag follows suppression. *)
Definition input_inv (s : GameScene.t) : Prop :=
  isNoiseCancelActive (GameScene.inputState s)
  = spaceDown (GameScene.inputState s) || mouseDown (GameScene.inputState s)
  /\ touchActive (GameScene.inputState s) = false
  /\ NoiseMeter.isActive (GameScene.noiseMeter s)
     = isNoiseCancelActive (GameScene.inputState s).

(** The round is a round of [level] and its countdown is within the
    level's duration. *)
Definition timer_inv (level : LevelConfig) (s : GameScene.t) : Prop :=
  GameScene.currentLevel s = level
  /\ 0 <= GameScene.gameTimer s
  /\ GameScene.gameTimer s <= levelDuration level.

(** The round has ended. *)
Definition ended (s : GameScene.t) : Prop :=
  GameScene.gameState s = VICTORY \/ GameScene.gameState s = GAME_OVER.

(** [s'] differs from [s] in nothing that the outcome of the round is made
    of. *)
Definition frozen (s s' : GameScene.t) : Prop :=
  GameScene.gameState s' = GameScene.gameState s
  /\ GameScene.gameTimer s' = GameScene.gameTimer s
  /\ GameScene.bear s' = GameScene.bear s
  /\ NoiseMeter.currentLevel (GameScene.noiseMeter s')
     = NoiseMeter.currentLevel (GameScene.noiseMeter s)
  /\ timeRemaining (GameScene.gameStats s') = timeRemaining (GameScene.gameStats s)
  /\ maxNoiseLevel (GameScene.gameStats s') = maxNoiseLevel (GameScene.gameStats s)
  /\ perfectSleep (GameScene.gameStats s') = perfectSleep (GameScene.gameStats s).

(** The events whose subscribers in the scene only redraw. *)
Definition inert (e : Event) : Prop :=
  match e with
  | TV_TURN_ON _ | TV_TURN_OFF | POWERUP_SPAWNED _ | POWERUP_ACTIVATED _ _
  | NOISE_CANCEL_START | NOISE_CANCEL_STOP => True
  | _ => False
  end.

Ltac frozen_fields :=
  unfold frozen; scene_fields;
  cbn [timeRemaining maxNoiseLevel perfectSleep powerUpsUsed noiseCancelUsage stealthMode
       GameScene.setTimeRemaining GameScene.setMaxNoiseLevel
       GameScene.setNoiseCancelUsage GameScene.setPowerUpsUsed
       GameScene.setPerfectSleep GameScene.setStealthMode];
  repeat split; try reflexivity.

(** The perfect-sleep flag is up only while the bear is SLEEPING. *)
Definition sleep_inv (s : GameScene.t) : Prop :=
  perfectSleep (GameScene.gameStats s) = true ->
  Bear.currentState (GameScene.bear s) = SLEEPING.

(** A step that keeps [sleep_inv] and does not raise the flag. *)
Definition rests (s s' : GameScene.t) : Prop :=
  (sleep_inv s -> sleep_inv s')
  /\ (perfectSleep (GameScene.gameStats s') = true ->
      perfectSleep (GameScene.gameStats s) = true).

Ltac rests_fields :=
  unfold rests, sleep_inv; scene_fields;
  cbn [perfectSleep GameScene.setTimeRemaining GameScene.setMaxNoiseLevel
       GameScene.setNoiseCancelUsage GameScene.setPowerUpsUsed
       GameScene.setPerfectSleep GameScene.setStealthMode];
  split; auto; try discriminate.

(** * Properties *)

(** ** Arithmetic of [Math.min] and [Math.max] *)

Lemma Qmin_case : forall a b : Q,
  (a <= b /\ Qmin a b = a) \/ (b < a /\ Qmin a b = b).
Proof.
  intros a b. unfold Qmin, GenericMinMax.gmin.
  destruct (Qcompare a b) eqn:E.
  - left. split; [apply Qeq_alt in E; lra | reflexivity].
  - left. split; [apply Qlt_alt in E; lra | reflexivity].
  - right. split; [apply Qgt_alt in E; lra | reflexivity].
Qed.

Lemma Qle_bool_false : forall a b : Q, Qle_bool a b = false <-> b < a.
Proof.
  intros a b. split; intro H.
  - apply Qnot_le_lt. intro L. apply Qle_bool_iff in L. congruence.
  - destruct (Qle_bool a b) eqn:E; [|reflexivity].
    apply Qle_bool_iff in E. lra.
Qed.

Lemma Qeq_bool_false : forall a b : Q, Qeq_bool a b = false <-> ~ a == b.
Proof.
  intros a b. split.
  - apply Qeq_bool_neq.
  - intro H. destruct (Qeq_bool a b) eqn:E; [|reflexivity].
    apply Qeq_bool_iff in E. contradiction.
Qed.

Lemma percentage_ge_100 : forall l : Q, 100 <= (l / 100) * 100 <-> 100 <= l.
Proof. intro l. split; intro H; field_simplify in H; field_simplify; lra. Qed.

(** ** The wake meter *)

Section MeterBounds.

Import NoiseMeter.

Lemma addNoise_maxLevel : forall a m, maxLevel (fst (addNoise a m)) = maxLevel m.
Proof. reflexivity. Qed.

Lemma reduceNoise_maxLevel : forall a m, maxLevel (fst (reduceNoise a m)) = maxLevel m.
Proof. reflexivity. Qed.

Lemma addNoise_upper : forall a m, currentLevel (fst (addNoise a m)) <= maxLevel m.
Proof. intros a m. simpl. apply Q.le_min_r. Qed.

Lemma addNoise_lower : forall a m,
  0 <= a -> 0 <= currentLevel m -> 0 <= maxLevel m ->
  0 <= currentLevel (fst (addNoise a m)).
Proof. intros a m Ha Hl Hm. simpl. apply Q.min_glb; lra. Qed.

Lemma reduceNoise_lower : forall a m, 0 <= currentLevel (fst (reduceNoise a m)).
Proof. intros a m. simpl. apply Q.le_max_r. Qed.

Lemma reduceNoise_upper : forall a m,
  0 <= a -> currentLevel m <= maxLevel m -> 0 <= maxLevel m ->
  currentLevel (fst (reduceNoise a m)) <= maxLevel m.
Proof. intros a m Ha Hl Hm. simpl. apply Q.max_lub; lra. Qed.

Lemma call_bounds : forall c m,
  0 <= amountOf c ->
  maxLevel m = 100 ->
  0 <= currentLevel m <= 100 ->
  maxLevel (fst (call c m)) = 100 /\ 0 <= currentLevel (fst (call c m)) <= 100.
Proof.
  intros c m Ha Hm [Hlo Hhi].
  destruct c as [a | a]; simpl in Ha; unfold call.
  - rewrite addNoise_maxLevel. split; [assumption|]. split.
    + apply addNoise_lower; rewrite ?Hm; lra.
    + pose proof (addNoise_upper a m) as H. rewrite Hm in H. exact H.
  - rewrite reduceNoise_maxLevel. split; [assumption|]. split.
    + apply reduceNoise_lower.
    + pose proof (reduceNoise_upper a m) as H. rewrite Hm in H. apply H; lra.
Qed.

Lemma run_bounds : forall cs m,
  Forall (fun c => 0 <= amountOf c) cs ->
  maxLevel m = 100 ->
  0 <= currentLevel m <= 100 ->
  0 <= currentLevel (run cs m) <= 100.
Proof.
  induction cs as [| c cs IH]; intros m Hcs Hm Hb; simpl.
  - exact Hb.
  - inversion Hcs as [| ? ? Hc Hrest]; subst.
    destruct (call_bounds c m Hc Hm Hb) as [Hm' Hb'].
    apply IH; assumption.
Qed.

Lemma levels_bounds : forall cs m,
  Forall (fun c => 0 <= amountOf c) cs ->
  maxLevel m = 100 ->
  0 <= currentLevel m <= 100 ->
  Forall (fun l => 0 <= l /\ l <= 100) (levels cs m).
Proof.
  induction cs as [| c cs IH]; intros m Hcs Hm Hb; simpl.
  - constructor; [exact Hb | constructor].
  - inversion Hcs as [| ? ? Hc Hrest]; subst.
    destruct (call_bounds c m Hc Hm Hb) as [Hm' Hb'].
    constructor; [exact Hb|].
    apply IH; assumption.
Qed.

End MeterBounds.

(** C1.  From a new meter (level 0), in every sequence of [addNoise] and
    [reduceNoise] calls with non-negative amounts the level lies in
    [0, 100] at the start, after each call and at the end. *)
Theorem meter_level_bounded :
  forall cs : list NoiseMeter.Call,
    Forall (fun c => 0 <= NoiseMeter.amountOf c) cs ->
    Forall (fun l => 0 <= l /\ l <= 100) (NoiseMeter.levels cs NoiseMeter.new)
    /\ 0 <= NoiseMeter.currentLevel (NoiseMeter.run cs NoiseMeter.new)
    /\ NoiseMeter.currentLevel (NoiseMeter.run cs NoiseMeter.new) <= 100.
Proof.
  intros cs Hcs.
  assert (H0 : 0 <= NoiseMeter.currentLevel NoiseMeter.new <= 100)
    by (simpl; lra).
  split.
  - apply levels_bounds; [assumption | reflexivity | exact H0].
  - apply run_bounds; [assumption | reflexivity | exact H0].
Qed.

Lemma meter_level_bounded_witness :
  Forall (fun l => 0 <= l /\ l <= 100)
    (NoiseMeter.levels
       [NoiseMeter.CallAddNoise 70; NoiseMeter.CallAddNoise 70;
        NoiseMeter.CallReduceNoise 250; NoiseMeter.CallAddNoise (3 # 2)]
       NoiseMeter.new)
  /\ 0 <= NoiseMeter.currentLevel
            (NoiseMeter.run
               [NoiseMeter.CallAddNoise 70; NoiseMeter.CallAddNoise 70;
                NoiseMeter.CallReduceNoise 250; NoiseMeter.CallAddNoise (3 # 2)]
               NoiseMeter.new)
  /\ NoiseMeter.currentLevel
       (NoiseMeter.run
          [NoiseMeter.CallAddNoise 70; NoiseMeter.CallAddNoise 70;
           NoiseMeter.CallReduceNoise 250; NoiseMeter.CallAddNoise (3 # 2)]
          NoiseMeter.new) <= 100.
Proof.
  apply meter_level_bounded.
  repeat constructor; simpl; lra.
Defined.

(** C6.  [addNoise(amount)] on a meter whose maximum is 100 sets the level
    to [min(level + amount, 100)]; it emits one meter-update event,
    carrying the new level, when the level changed and none when it did
    not; at level 100 a positive amount leaves the level at 100 and emits
    nothing. *)
Theorem addNoise_min_and_event :
  forall (amount : Q) (m : NoiseMeter.INoiseMeterState),
    NoiseMeter.maxLevel m = 100 ->
    let m' := fst (NoiseMeter.addNoise amount m) in
    let evs := snd (NoiseMeter.addNoise amount m) in
    NoiseMeter.currentLevel m' = Qmin (NoiseMeter.currentLevel m + amount) 100
    /\ (~ NoiseMeter.currentLevel m' == NoiseMeter.currentLevel m ->
        evs = [METER_UPDATE (NoiseMeter.currentLevel m')
                 (NoiseMeter.getPercentage m') true])
    /\ (NoiseMeter.currentLevel m' == NoiseMeter.currentLevel m -> evs = [])
    /\ (NoiseMeter.currentLevel m == 100 -> 0 < amount ->
        NoiseMeter.currentLevel m' = 100 /\ evs = []).
Proof.
  intros amount m Hm m' evs. subst m' evs.
  unfold NoiseMeter.addNoise. cbn [fst snd NoiseMeter.setLevel NoiseMeter.currentLevel].
  rewrite Hm.
  split; [reflexivity|]. split; [|split].
  - intro Hne. apply Qeq_bool_false in Hne. rewrite Hne. reflexivity.
  - intro He. apply Qeq_bool_iff in He. rewrite He. reflexivity.
  - intros Hl Ha.
    destruct (Qmin_case (NoiseMeter.currentLevel m + amount) 100) as [[Hle _] | [_ E]].
    + lra.
    + rewrite E. split; [reflexivity|].
      assert (Hb : Qeq_bool 100 (NoiseMeter.currentLevel m) = true)
        by (apply Qeq_bool_iff; lra).
      rewrite Hb. reflexivity.
Qed.

Lemma addNoise_min_and_event_witness :
  NoiseMeter.currentLevel
    (fst (NoiseMeter.addNoise 7 (NoiseMeter.setLevel NoiseMeter.new 100))) = 100
  /\ snd (NoiseMeter.addNoise 7 (NoiseMeter.setLevel NoiseMeter.new 100)) = [].
Proof.
  apply (addNoise_min_and_event 7 (NoiseMeter.setLevel NoiseMeter.new 100)).
  - reflexivity.
  - simpl. lra.
  - lra.
Defined.

(** ** The bear's tier *)

Section BearTier.

Import Bear.

Lemma newStateOf_sleeping : forall p, p < 50 -> newStateOf p = SLEEPING.
Proof.
  intros p H. unfold newStateOf.
  assert (E1 : Qle_bool 100 p = false) by (apply Qle_bool_false; lra).
  assert (E2 : Qle_bool 50 p = false) by (apply Qle_bool_false; lra).
  rewrite E1, E2. reflexivity.
Qed.

Lemma newStateOf_drowsy : forall p, 50 <= p -> p < 100 -> newStateOf p = DROWSY.
Proof.
  intros p H1 H2. unfold newStateOf.
  assert (E1 : Qle_bool 100 p = false) by (apply Qle_bool_false; lra).
  assert (E2 : Qle_bool 50 p = true) by (apply Qle_bool_iff; lra).
  rewrite E1, E2. reflexivity.
Qed.

Lemma newStateOf_awake : forall p, 100 <= p -> newStateOf p = AWAKE.
Proof.
  intros p H. unfold newStateOf.
  assert (E1 : Qle_bool 100 p = true) by (apply Qle_bool_iff; lra).
  rewrite E1. reflexivity.
Qed.

Lemma newStateOf_compat : forall p q, p == q -> newStateOf p = newStateOf q.
Proof.
  intros p q H.
  destruct (Qlt_le_dec p 50) as [L | L].
  - rewrite !newStateOf_sleeping; [reflexivity | lra | lra].
  - destruct (Qlt_le_dec p 100) as [L' | L'].
    + rewrite !newStateOf_drowsy; [reflexivity | lra | lra | lra | lra].
    + rewrite !newStateOf_awake; [reflexivity | lra | lra].
Qed.

Lemma BearState_beq_eq : forall a b, BearState_beq a b = true <-> a = b.
Proof. intros [] []; simpl; split; intro H; congruence. Qed.

Lemma BearState_beq_neq : forall a b, BearState_beq a b = false <-> a <> b.
Proof. intros [] []; simpl; split; intro H; congruence. Qed.

Lemma updateState_state : forall b,
  currentState (fst (updateStateBasedOnNoise b)) = newStateOf (getNoisePercentage b).
Proof.
  intro b. unfold updateStateBasedOnNoise.
  destruct (BearState_beq (newStateOf (getNoisePercentage b)) (currentState b)) eqn:E;
    simpl.
  - apply BearState_beq_eq in E. congruence.
  - reflexivity.
Qed.

Lemma updateState_noise : forall b,
  currentNoise (fst (updateStateBasedOnNoise b)) = currentNoise b
  /\ wakeThreshold (fst (updateStateBasedOnNoise b)) = wakeThreshold b
  /\ active (fst (updateStateBasedOnNoise b)) = active b.
Proof.
  intro b. unfold updateStateBasedOnNoise.
  destruct (negb _); simpl; repeat split; reflexivity.
Qed.

Lemma updateState_percentage : forall b,
  getNoisePercentage (fst (updateStateBasedOnNoise b)) = getNoisePercentage b.
Proof.
  intro b. unfold getNoisePercentage.
  destruct (updateState_noise b) as (-> & -> & _). reflexivity.
Qed.

Lemma updateState_same : forall b,
  newStateOf (getNoisePercentage b) = currentState b ->
  updateStateBasedOnNoise b = (b, []).
Proof.
  intros b H. unfold updateStateBasedOnNoise.
  apply BearState_beq_eq in H. rewrite H. reflexivity.
Qed.

Lemma updateState_changed : forall b,
  newStateOf (getNoisePercentage b) <> currentState b ->
  snd (updateStateBasedOnNoise b) =
    BEAR_STATE_CHANGE (currentState b) (newStateOf (getNoisePercentage b))
      (currentNoise b) (getNoisePercentage b)
    :: (if BearState_beq (newStateOf (getNoisePercentage b)) AWAKE
        then [BEAR_WAKE_UP (currentNoise b)] else []).
Proof.
  intros b H. unfold updateStateBasedOnNoise.
  apply BearState_beq_neq in H. rewrite H. reflexivity.
Qed.

(** The wake-up events of one re-evaluation: one when the bear enters
    AWAKE, none otherwise. *)
Lemma updateState_wakeUps : forall b,
  wakeUps (snd (updateStateBasedOnNoise b)) =
    if BearState_beq (newStateOf (getNoisePercentage b)) AWAKE
       && negb (BearState_beq (currentState b) AWAKE)
    then 1%nat else 0%nat.
Proof.
  intro b. unfold updateStateBasedOnNoise.
  destruct (newStateOf (getNoisePercentage b)), (currentState b); reflexivity.
Qed.

(** Every call on an active bear ends with a re-evaluation of the tier,
    and no call changes [active]. *)
Lemma call_is_update : forall c b,
  active b = true ->
  exists b0,
    call c b = updateStateBasedOnNoise b0
    /\ currentState b0 = currentState b
    /\ active b0 = true.
Proof.
  intros [| a | a] b Ha; unfold call, update, addNoise, reduceNoise.
  - rewrite Ha. simpl. eauto.
  - eexists. repeat split. exact Ha.
  - eexists. repeat split. exact Ha.
Qed.

Lemma call_active : forall c b,
  active b = true -> active (fst (call c b)) = true.
Proof.
  intros c b Ha. destruct (call_is_update c b Ha) as (b0 & E & _ & Ha0).
  rewrite E. destruct (updateState_noise b0) as (_ & _ & ->). exact Ha0.
Qed.

Lemma run_active : forall cs b,
  active b = true -> active (run cs b) = true.
Proof.
  induction cs as [| c cs IH]; intros b Ha; simpl.
  - exact Ha.
  - apply IH. apply call_active. exact Ha.
Qed.

End BearTier.

(** C4.  The tier is a function of the noise percentage alone: below 50 it
    is SLEEPING, from 50 and below 100 DROWSY, from 100 AWAKE; equal
    percentages give equal tiers; a re-evaluation sets the bear's state to
    the tier of its percentage, emits nothing when that is the state the
    bear already has, and emits the state-change event, from the old to the
    new state, first when it differs. *)
Theorem tier_function_of_percentage :
  forall (b : Bear.IBearState) (p : Q),
    ((p < 50 -> Bear.newStateOf p = SLEEPING)
     /\ (50 <= p /\ p < 100 -> Bear.newStateOf p = DROWSY)
     /\ (100 <= p -> Bear.newStateOf p = AWAKE))
    /\ (forall q : Q, q == p -> Bear.newStateOf q = Bear.newStateOf p)
    /\ Bear.currentState (fst (Bear.updateStateBasedOnNoise b))
       = Bear.newStateOf (Bear.getNoisePercentage b)
    /\ (Bear.newStateOf (Bear.getNoisePercentage b) = Bear.currentState b ->
        snd (Bear.updateStateBasedOnNoise b) = [])
    /\ (Bear.newStateOf (Bear.getNoisePercentage b) <> Bear.currentState b ->
        exists rest,
          snd (Bear.updateStateBasedOnNoise b) =
            BEAR_STATE_CHANGE (Bear.currentState b)
              (Bear.newStateOf (Bear.getNoisePercentage b))
              (Bear.currentNoise b) (Bear.getNoisePercentage b) :: rest
          /\ existsb isStateChange rest = false).
Proof.
  intros b p. repeat split.
  - apply newStateOf_sleeping.
  - intros [H1 H2]. apply newStateOf_drowsy; assumption.
  - apply newStateOf_awake.
  - intros q H. apply newStateOf_compat. exact H.
  - apply updateState_state.
  - intro H. rewrite (updateState_same b H). reflexivity.
  - intro H. rewrite (updateState_changed b H).
    eexists. split; [reflexivity|].
    destruct (BearState_beq _ AWAKE); reflexivity.
Qed.

Section WakeUpOnce.

Import Bear.

(** The wake-up events of a call that leaves an active bear at 100% or
    more: one if the bear was not awake, none if it was. *)
Lemma call_wakeUps : forall c b,
  active b = true ->
  100 <= getNoisePercentage (fst (call c b)) ->
  wakeUps (snd (call c b)) =
    (if BearState_beq (currentState b) AWAKE then 0%nat else 1%nat)
  /\ currentState (fst (call c b)) = AWAKE.
Proof.
  intros c b Ha Hc.
  destruct (call_is_update c b Ha) as (b0 & E & Hb0 & _).
  rewrite E in Hc |- *.
  rewrite updateState_percentage in Hc.
  rewrite updateState_wakeUps, updateState_state, Hb0.
  rewrite (newStateOf_awake _ Hc). simpl.
  split; [|reflexivity].
  destruct (BearState_beq (currentState b) AWAKE); reflexivity.
Qed.

(** While the percentage stays at 100 or more, an awake bear emits no
    wake-up event. *)
Lemma awake_trace_silent : forall cs b,
  active b = true ->
  currentState b = AWAKE ->
  Forall (fun r => 100 <= getNoisePercentage (fst r)) (trace cs b) ->
  Forall (fun r => wakeUps (snd r) = 0%nat /\ currentState (fst r) = AWAKE)
    (trace cs b).
Proof.
  induction cs as [| c cs IH]; intros b Ha Hb Hall; simpl in *.
  - constructor.
  - inversion Hall as [| ? ? Hc Hrest]; subst.
    destruct (call_wakeUps c b Ha Hc) as [H1 H2].
    rewrite Hb in H1. simpl in H1.
    constructor; [split; assumption|].
    apply IH; [apply call_active; exact Ha | exact H2 | exact Hrest].
Qed.

End WakeUpOnce.

(** C5.  In a round the bear is the new bear after some calls.  When the
    next call brings a bear that is not awake to 100% or more, and every
    later call of the trace leaves it at 100% or more, the entering call
    emits exactly one wake-up event and none of the later calls emits one,
    while the bear stays AWAKE. *)
Theorem wake_up_fires_once :
  forall (before : list Bear.Call) (c : Bear.Call) (cs : list Bear.Call),
    Bear.currentState (Bear.run before Bear.new) <> AWAKE ->
    Forall (fun r => 100 <= Bear.getNoisePercentage (fst r))
      (Bear.trace (c :: cs) (Bear.run before Bear.new)) ->
    Bear.wakeUps (snd (Bear.call c (Bear.run before Bear.new))) = 1%nat
    /\ Bear.currentState (fst (Bear.call c (Bear.run before Bear.new))) = AWAKE
    /\ Forall (fun r => Bear.wakeUps (snd r) = 0%nat
                        /\ Bear.currentState (fst r) = AWAKE)
         (Bear.trace cs (fst (Bear.call c (Bear.run before Bear.new)))).
Proof.
  intros before c cs Hb Hall.
  assert (Ha : Bear.active (Bear.run before Bear.new) = true)
    by (apply run_active; reflexivity).
  simpl in Hall. inversion Hall as [| ? ? Hc Hrest]; subst.
  destruct (call_wakeUps c _ Ha Hc) as [H1 H2].
  apply BearState_beq_neq in Hb. rewrite Hb in H1.
  split; [exact H1|]. split; [exact H2|].
  apply awake_trace_silent; [apply call_active; exact Ha | exact H2 | exact Hrest].
Qed.

Lemma wake_up_fires_once_witness :
  Bear.wakeUps
    (snd (Bear.call (Bear.CallAddNoise 40)
            (Bear.run [Bear.CallAddNoise 70] Bear.new))) = 1%nat
  /\ Bear.currentState
       (fst (Bear.call (Bear.CallAddNoise 40)
               (Bear.run [Bear.CallAddNoise 70] Bear.new))) = AWAKE
  /\ Forall (fun r => Bear.wakeUps (snd r) = 0%nat
                      /\ Bear.currentState (fst r) = AWAKE)
       (Bear.trace [Bear.CallUpdate; Bear.CallAddNoise 3; Bear.CallUpdate]
          (fst (Bear.call (Bear.CallAddNoise 40)
                  (Bear.run [Bear.CallAddNoise 70] Bear.new)))).
Proof.
  apply (wake_up_fires_once [Bear.CallAddNoise 70] (Bear.CallAddNoise 40)
           [Bear.CallUpdate; Bear.CallAddNoise 3; Bear.CallUpdate]).
  - vm_compute. discriminate.
  - repeat constructor; vm_compute; discriminate.
Defined.

(** ** The television *)

Section TelevisionPhases.

Import Television.

(** The scheduling methods touch the timers and the sampled delays only. *)
Lemma scheduleNextActivation_keeps : forall tv g,
  let tv' := fst (scheduleNextActivation tv g) in
  currentState (tvState tv') = currentState (tvState tv)
  /\ isOn (tvState tv') = isOn (tvState tv)
  /\ noiseLevel (tvState tv') = noiseLevel (tvState tv)
  /\ tweens tv' = tweens tv.
Proof.
  intros tv g. unfold scheduleNextActivation.
  destruct (Between _ _ g). simpl. repeat split.
Qed.

Lemma scheduleDeactivation_keeps : forall tv g,
  let tv' := fst (scheduleDeactivation tv g) in
  currentState (tvState tv') = currentState (tvState tv)
  /\ isOn (tvState tv') = isOn (tvState tv)
  /\ noiseLevel (tvState tv') = noiseLevel (tvState tv)
  /\ tweens tv' = tweens tv.
Proof.
  intros tv g. unfold scheduleDeactivation.
  destruct (Between _ _ g). simpl. repeat split.
Qed.

Lemma phase_inv_ext : forall tv tv',
  currentState (tvState tv') = currentState (tvState tv) ->
  isOn (tvState tv') = isOn (tvState tv) ->
  noiseLevel (tvState tv') = noiseLevel (tvState tv) ->
  tweens tv' = tweens tv ->
  phase_inv tv -> phase_inv tv'.
Proof.
  intros tv tv' H1 H2 H3 H4. unfold phase_inv. rewrite H1, H2, H3, H4. tauto.
Qed.

Lemma new_phase_inv : forall g, phase_inv (fst (new g)).
Proof.
  intro g. unfold new.
  match goal with |- phase_inv (fst (scheduleNextActivation ?tv0 g)) =>
    destruct (scheduleNextActivation_keeps tv0 g) as (H1 & H2 & H3 & H4);
    apply (phase_inv_ext tv0); try assumption
  end.
  unfold phase_inv. simpl. repeat split.
Qed.

Lemma turnOn_phase_inv : forall tv, phase_inv tv -> phase_inv (turnOn tv).
Proof.
  intros tv H. unfold turnOn.
  destruct (currentState (tvState tv)) eqn:E; simpl; try exact H.
  unfold phase_inv in *. rewrite E in H. simpl.
  destruct H as (H1 & H2 & H3). rewrite H3. repeat split; assumption.
Qed.

Lemma turnOff_phase_inv : forall tv, phase_inv tv -> phase_inv (turnOff tv).
Proof.
  intros tv H. unfold turnOff.
  destruct (currentState (tvState tv)) eqn:E; simpl; try exact H.
  unfold phase_inv in *. rewrite E in H. simpl.
  destruct H as (H1 & H2 & H3). rewrite H3. repeat split; assumption.
Qed.

Lemma turnOnComplete_phase_inv : forall tv g,
  tweens tv = [] -> phase_inv (fst (fst (turnOnComplete tv g))).
Proof.
  intros tv g Ht. unfold turnOnComplete.
  match goal with |- context [scheduleDeactivation ?tv1 g] =>
    pose proof (scheduleDeactivation_keeps tv1 g) as K;
    destruct (scheduleDeactivation tv1 g) as [tv2 g2] eqn:E
  end.
  simpl in K |- *. destruct K as (H1 & H2 & H3 & H4).
  unfold phase_inv. rewrite H1, H2, H3, H4. simpl. repeat split. exact Ht.
Qed.

Lemma turnOffComplete_phase_inv : forall tv g,
  tweens tv = [] -> phase_inv (fst (fst (turnOffComplete tv g))).
Proof.
  intros tv g Ht. unfold turnOffComplete.
  match goal with |- context [scheduleNextActivation ?tv1 g] =>
    pose proof (scheduleNextActivation_keeps tv1 g) as K;
    destruct (scheduleNextActivation tv1 g) as [tv2 g2] eqn:E
  end.
  simpl in K |- *. destruct K as (H1 & H2 & H3 & H4).
  unfold phase_inv. rewrite H1, H2, H3, H4. simpl. repeat split. exact Ht.
Qed.

Lemma exec_phase_inv : forall a tv g tv' evs g',
  phase_inv tv ->
  exec a tv g = Some (tv', evs, g') ->
  phase_inv tv'.
Proof.
  intros a tv g tv' evs g' H E.
  destruct a; unfold exec in E.
  - destruct (turnOnTimer tv); inversion E; subst.
    apply turnOn_phase_inv. exact H.
  - destruct (turnOffTimer tv); inversion E; subst.
    apply turnOff_phase_inv. exact H.
  - destruct (warningTimer tv); inversion E; subst. exact H.
  - unfold phase_inv in H.
    destruct (tweens tv) as [| [] rest] eqn:Et; [discriminate | |];
      destruct (currentState (tvState tv));
      destruct H as (_ & _ & Hw); try discriminate;
      inversion Hw; subst.
    + pose proof (turnOnComplete_phase_inv (setTweens tv []) g eq_refl) as K.
      assert (E' : turnOnComplete (setTweens tv []) g = (tv', evs, g'))
        by congruence.
      rewrite E' in K. exact K.
    + pose proof (turnOffComplete_phase_inv (setTweens tv []) g eq_refl) as K.
      assert (E' : turnOffComplete (setTweens tv []) g = (tv', evs, g'))
        by congruence.
      rewrite E' in K. exact K.
  - inversion E; subst. apply turnOn_phase_inv. exact H.
  - inversion E; subst. apply turnOff_phase_inv. exact H.
  - inversion E; subst. exact H.
Qed.

Lemma reachable_phase_inv : forall g0 tv g,
  reachable g0 tv g -> phase_inv tv.
Proof.
  intros g0 tv g R. induction R as [tv g E | tv g a tv' evs g' R IH E].
  - pose proof (new_phase_inv g0) as K. rewrite E in K. exact K.
  - eapply exec_phase_inv; eassumption.
Qed.

Lemma run_reachable : forall g0 actions tv g tv' g',
  reachable g0 tv g ->
  run actions tv g = Some (tv', g') ->
  reachable g0 tv' g'.
Proof.
  induction actions as [| a rest IH]; intros tv g tv' g' R E; simpl in E.
  - inversion E; subst. exact R.
  - destruct (exec a tv g) as [[[tv1 evs] g1] |] eqn:Ea; [|discriminate].
    eapply IH; [|exact E]. eapply reachable_step; eassumption.
Qed.

End TelevisionPhases.

(** C7, as stated, fails: after its turn-off timer has fired the
    television is in the TURNING_OFF phase and its noise level is still 15,
    and [isOn()] still answers true. *)
Lemma television_noisy_while_turning_off :
  exists (tv : Television.t) (g : Rng),
    Television.reachable draws1 tv g
    /\ Television.getCurrentState tv = TURNING_OFF
    /\ Television.getCurrentState tv <> ON
    /\ ~ Television.getNoiseLevel tv == 0
    /\ Television.getIsOn tv = true.
Proof.
  destruct (Television.run
              [Television.TurnOnTimerFires; Television.TweenCompletes;
               Television.TurnOffTimerFires]
              (fst (Television.new draws1)) (snd (Television.new draws1)))
    as [[tv g] |] eqn:E; [|vm_compute in E; discriminate].
  exists tv, g. split.
  - eapply run_reachable; [|exact E].
    apply Television.reachable_new. apply surjective_pairing.
  - vm_compute in E. inversion E; subst.
    repeat split; try discriminate.
Qed.

(** C7, amended.  In every reachable state of the television the noise
    level is 0 and [isOn()] is false in the phases OFF and TURNING_ON; it is
    the noise rate 15 and [isOn()] is true in the phases ON and TURNING_OFF
    (the level is reset when the turning-off transition completes); the
    level is never negative; and the per-frame noise event is emitted in
    the ON phase only. *)
Theorem television_noise_by_phase :
  forall (g0 : Rng) (tv : Television.t) (g : Rng),
    Television.reachable g0 tv g ->
    (Television.getCurrentState tv = OFF \/ Television.getCurrentState tv = TURNING_ON ->
     Television.getNoiseLevel tv = 0 /\ Television.getIsOn tv = false)
    /\ (Television.getCurrentState tv = ON \/ Television.getCurrentState tv = TURNING_OFF ->
        Television.getNoiseLevel tv = 15 /\ Television.getIsOn tv = true)
    /\ 0 <= Television.getNoiseLevel tv
    /\ (Television.update tv <> [] -> Television.getCurrentState tv = ON).
Proof.
  intros g0 tv g R.
  pose proof (reachable_phase_inv g0 tv g R) as H.
  unfold phase_inv, Television.getCurrentState, Television.getNoiseLevel,
    Television.getIsOn, Television.update in *.
  destruct (Television.currentState (Television.tvState tv));
    destruct H as (H1 & H2 & _); rewrite H1, H2;
    (split; [intros [E | E]; try discriminate E; split; reflexivity |]);
    (split; [intros [E | E]; try discriminate E; split; reflexivity |]);
    (split; [unfold GAMEPLAY.NOISE_INCREASE_RATE; lra |]);
    destruct (negb (Television.active (Television.tvState tv)));
    simpl; intro K; congruence.
Qed.

Lemma television_noise_by_phase_witness :
  (Television.getCurrentState (fst (Television.new draws1)) = OFF
   \/ Television.getCurrentState (fst (Television.new draws1)) = TURNING_ON ->
   Television.getNoiseLevel (fst (Television.new draws1)) = 0
   /\ Television.getIsOn (fst (Television.new draws1)) = false)
  /\ (Television.getCurrentState (fst (Television.new draws1)) = ON
      \/ Television.getCurrentState (fst (Television.new draws1)) = TURNING_OFF ->
      Television.getNoiseLevel (fst (Television.new draws1)) = 15
      /\ Television.getIsOn (fst (Television.new draws1)) = true)
  /\ 0 <= Television.getNoiseLevel (fst (Television.new draws1))
  /\ (Television.update (fst (Television.new draws1)) <> [] ->
      Television.getCurrentState (fst (Television.new draws1)) = ON).
Proof.
  apply (television_noise_by_phase draws1 (fst (Television.new draws1))
           (snd (Television.new draws1))).
  apply Television.reachable_new. apply surjective_pairing.
Defined.

(** ** The ambient noise sources *)

(** C8, as stated, fails: a source configured with a duration of 2000 ms
    (the car horns of level 6) can be active for 1000 ms, which is below
    0.9 * 2000. *)
Lemma activation_outside_ten_percent :
  fair draws0
  /\ NoiseSource.duration traffic_horns == 2000
  /\ sampledDuration 5000 (fst (NoiseSource.new 0 traffic_horns draws0)) draws0 == 1000
  /\ ~ ((9 # 10) * NoiseSource.duration traffic_horns
        <= sampledDuration 5000 (fst (NoiseSource.new 0 traffic_horns draws0)) draws0).
Proof.
  split; [intro n; simpl; lra|].
  split; [reflexivity|].
  split; [vm_compute; reflexivity|].
  vm_compute. intro H. apply H. reflexivity.
Qed.

(** C8, amended.  With draws of [Math.random] in [0, 1) an activation
    sets the end of the active period to the clock plus a sampled
    duration, and the sampled duration is the configured one with a
    variation of one second: it lies in the closed interval
    [duration - 1000, duration + 1000]. *)
Theorem activation_within_one_second :
  forall (now : Q) (ns : NoiseSource.t) (g : Rng),
    fair g ->
    exists sampled : Q,
      NoiseSource.currentEventEndTime (fst (fst (NoiseSource.activate now ns g)))
      = now + sampled
      /\ NoiseSource.duration (NoiseSource.config ns) - 1000 <= sampled
      /\ sampled <= NoiseSource.duration (NoiseSource.config ns) + 1000.
Proof.
  intros now ns g Hg.
  exists (NoiseSource.duration (NoiseSource.config ns) + (draws g (next g) * 2000 - 1000)).
  destruct (Hg (next g)) as [H0 H1].
  split; [|split; lra].
  unfold NoiseSource.activate. cbn [Math_random].
  match goal with |- context [NoiseSource.scheduleNextActivation ?n ?x ?y] =>
    assert (K : NoiseSource.currentEventEndTime
                  (fst (NoiseSource.scheduleNextActivation n x y))
                = NoiseSource.currentEventEndTime x)
      by (unfold NoiseSource.scheduleNextActivation;
          destruct (NoiseSource.pattern (NoiseSource.config x)); reflexivity);
    destruct (NoiseSource.scheduleNextActivation n x y) as [ns2 g2]
  end.
  cbn [fst] in K |- *. rewrite K. reflexivity.
Qed.

Lemma activation_within_one_second_witness :
  exists sampled : Q,
    NoiseSource.currentEventEndTime
      (fst (fst (NoiseSource.activate 5000
                   (fst (NoiseSource.new 0 traffic_horns draws0)) draws0)))
    = 5000 + sampled
    /\ NoiseSource.duration
         (NoiseSource.config (fst (NoiseSource.new 0 traffic_horns draws0))) - 1000
       <= sampled
    /\ sampled
       <= NoiseSource.duration
            (NoiseSource.config (fst (NoiseSource.new 0 traffic_horns draws0))) + 1000.
Proof.
  apply (activation_within_one_second 5000
           (fst (NoiseSource.new 0 traffic_horns draws0)) draws0).
  intro n. simpl. lra.
Defined.

(** ** The power-up manager *)

Section MapFacts.

Context {K V : Type}.
Variable eqb : K -> K -> bool.

Lemma map_set_absent : forall (k : K) (v : V) (m : list (K * V)),
  map_has eqb k m = false -> map_set eqb k v m = m ++ [(k, v)].
Proof.
  intros k v m. unfold map_has.
  induction m as [| [k' v'] m IH]; simpl; intro H.
  - reflexivity.
  - destruct (eqb k k'); [discriminate|].
    rewrite IH by exact H. reflexivity.
Qed.

End MapFacts.

Lemma getPowerUpConfig_total : forall ty : PowerUpType,
  exists cfg, PowerUp.getPowerUpConfig ty = Some cfg /\ PowerUp.type cfg = ty.
Proof. intros []; eexists; split; reflexivity. Qed.

Lemma PowerUpType_beq_refl : forall ty, PowerUpType_beq ty ty = true.
Proof. intros []; reflexivity. Qed.

Lemma absent_instances : forall (ty : PowerUpType) (m : PowerUp.t),
  PowerUp.isActivePowerUp ty m = false -> instances ty m = 0%nat.
Proof.
  intros ty m. unfold PowerUp.isActivePowerUp, instances, map_has.
  induction (PowerUp.activePowerUps m) as [| [k v] rest IH]; simpl; intro H.
  - reflexivity.
  - destruct (PowerUpType_beq ty k); [discriminate | exact (IH H)].
Qed.

Lemma activate_active : forall (ty : PowerUpType) (m : PowerUp.t),
  PowerUp.isActivePowerUp ty m = true ->
  PowerUp.activatePowerUp ty m = Some (m, false, []).
Proof.
  intros ty m H. unfold PowerUp.isActivePowerUp in H.
  unfold PowerUp.activatePowerUp. rewrite H. reflexivity.
Qed.

(** C9.  For every type [ty]: when an instance of [ty] is active,
    [activatePowerUp(ty)] returns false, leaves the manager as it is (its
    instances and their remaining durations included) and emits nothing;
    otherwise it returns true, appends one instance of [ty] whose remaining
    duration is the configured duration of [ty], so that exactly one
    instance of [ty] is active, leaves the other instances as they are and
    emits one activated event. *)
Theorem activate_rejects_active_type :
  forall (ty : PowerUpType) (m : PowerUp.t),
    (PowerUp.isActivePowerUp ty m = true ->
     PowerUp.activatePowerUp ty m = Some (m, false, []))
    /\ (PowerUp.isActivePowerUp ty m = false ->
        exists cfg : PowerUp.PowerUpConfig,
          PowerUp.getPowerUpConfig ty = Some cfg
          /\ PowerUp.type cfg = ty
          /\ PowerUp.activatePowerUp ty m =
               Some (PowerUp.setActive m
                       (PowerUp.activePowerUps m ++ [(ty, PowerUp.newActive ty cfg)]),
                     true,
                     [POWERUP_ACTIVATED ty (PowerUp.duration cfg)])
          /\ PowerUp.remainingDuration (PowerUp.newActive ty cfg) = PowerUp.duration cfg
          /\ instances ty m = 0%nat
          /\ instances ty
               (PowerUp.setActive m
                  (PowerUp.activePowerUps m ++ [(ty, PowerUp.newActive ty cfg)]))
             = 1%nat).
Proof.
  intros ty m. split.
  - intro H. apply activate_active. exact H.
  - unfold PowerUp.isActivePowerUp, PowerUp.activatePowerUp. intros H. rewrite H.
    destruct (getPowerUpConfig_total ty) as (cfg & Hc & Ht).
    exists cfg. rewrite Hc.
    rewrite (map_set_absent PowerUpType_beq _ _ _ H).
    assert (Z : instances ty m = 0%nat) by (apply absent_instances; exact H).
    repeat split; try assumption.
    unfold instances in *. simpl. rewrite filter_app, length_app, Z. simpl.
    rewrite PowerUpType_beq_refl. reflexivity.
Qed.

(** ** The round *)

Section RoundInvariants.

Import GameScene.

Lemma env_kept_refl : forall s, env_kept s s.
Proof. intro s. repeat split. Qed.

Lemma env_kept_trans : forall s1 s2 s3,
  env_kept s1 s2 -> env_kept s2 s3 -> env_kept s1 s3.
Proof.
  unfold env_kept. intros s1 s2 s3 (A1 & A2 & A3 & A4 & A5) (B1 & B2 & B3 & B4 & B5).
  repeat split; congruence.
Qed.

Lemma on_or_over_refl : forall s, on_or_over s s.
Proof. intro s. left. reflexivity. Qed.

Lemma on_or_over_trans : forall s1 s2 s3,
  on_or_over s1 s2 -> on_or_over s2 s3 -> on_or_over s1 s3.
Proof.
  unfold on_or_over. intros s1 s2 s3 [A | A] [B | B]; rewrite ?B, ?A; auto.
Qed.

Lemma on_or_over_stays : forall s s',
  on_or_over s s' -> gameState s = GAME_OVER -> gameState s' = GAME_OVER.
Proof. unfold on_or_over. intros s s' [A | A] H; congruence. Qed.

Lemma quiet_refl : forall s, quiet s s.
Proof. intro s. repeat split. apply on_or_over_refl. Qed.

Lemma quiet_trans : forall s1 s2 s3, quiet s1 s2 -> quiet s2 s3 -> quiet s1 s3.
Proof.
  unfold quiet. intros s1 s2 s3 (A1 & A2 & A3 & A4 & A5) (B1 & B2 & B3 & B4 & B5).
  repeat split; try congruence. eapply on_or_over_trans; eassumption.
Qed.

Lemma quiet_round_inv : forall s s', quiet s s' -> round_inv s -> round_inv s'.
Proof.
  unfold quiet, round_inv, synced, guarded.
  intros s s' (A1 & A2 & A3 & A4 & A5) ((S1 & S2 & S3) & G).
  rewrite A1, A2, A3, A4. repeat split; try assumption.
  destruct G as [G | G]; [left; exact G | right].
  eapply on_or_over_stays; eassumption.
Qed.

(** *** The subscribers of the bear's and the meter's events *)

Lemma emit1_quiet : forall e s, quiet s (emit1 e s) /\ env_kept s (emit1 e s).
Proof.
  intros e s.
  destruct e; unfold emit1, onBearStateChange, onBearWakeUp, onMeterUpdate;
    try (destruct (negb (BearState_beq newState SLEEPING)));
    try (destruct (Qle_bool 100 percentage));
    by_fields.
Qed.

Lemma emitAll1_quiet : forall evs s,
  quiet s (emitAll1 evs s) /\ env_kept s (emitAll1 evs s).
Proof.
  induction evs as [| e evs IH]; intro s; simpl.
  - split; [apply quiet_refl | apply env_kept_refl].
  - destruct (emit1_quiet e s) as [Q1 K1].
    destruct (IH (emit1 e s)) as [Q2 K2].
    split; [eapply quiet_trans | eapply env_kept_trans]; eassumption.
Qed.

(** A meter event that reports 100% or more ends the round. *)
Lemma emitAll1_meter_full : forall l p inc s,
  100 <= p -> gameState (emitAll1 [METER_UPDATE l p inc] s) = GAME_OVER.
Proof.
  intros l p inc s H. simpl. unfold emit1, onMeterUpdate.
  apply Qle_bool_iff in H. rewrite H. reflexivity.
Qed.

(** *** The four calls that move an accumulator *)

Lemma bearCall_spec : forall (f : Bear.IBearState -> Bear.IBearState * list Event) s,
  let s' := (let (b, evs) := f (bear s) in emitAll1 evs (setBear s b)) in
  bear s' = fst (f (bear s))
  /\ noiseMeter s' = noiseMeter s
  /\ on_or_over s s'
  /\ env_kept s s'.
Proof.
  intros f s. destruct (f (bear s)) as [b evs]. cbn zeta.
  destruct (emitAll1_quiet evs (setBear s b)) as [Q K].
  assert (Hb : bear (emitAll1 evs (setBear s b)) = b /\
               noiseMeter (emitAll1 evs (setBear s b)) = noiseMeter s).
  { clear Q K. generalize (setBear s b) (eq_refl : bear (setBear s b) = b)
      (eq_refl : noiseMeter (setBear s b) = noiseMeter s).
    induction evs as [| e evs IH]; intros s0 H1 H2; simpl.
    - split; assumption.
    - apply IH.
      + rewrite <- H1. destruct e; unfold emit1, onBearStateChange, onMeterUpdate;
          try reflexivity.
        * destruct (negb _); reflexivity.
        * destruct (Qle_bool _ _); reflexivity.
      + rewrite <- H2. destruct e; unfold emit1, onBearStateChange, onMeterUpdate;
          try reflexivity.
        * destruct (negb _); reflexivity.
        * destruct (Qle_bool _ _); reflexivity. }
  destruct Hb as [Hb Hm]. simpl.
  repeat split; try assumption; try apply Q; apply K.
Qed.

Lemma meterCall_spec :
  forall (f : NoiseMeter.INoiseMeterState -> NoiseMeter.INoiseMeterState * list Event) s,
  let s' := (let (m, evs) := f (noiseMeter s) in emitAll1 evs (setNoiseMeter s m)) in
  bear s' = bear s
  /\ noiseMeter s' = fst (f (noiseMeter s))
  /\ on_or_over s s'
  /\ env_kept s s'.
Proof.
  intros f s. destruct (f (noiseMeter s)) as [m evs]. cbn zeta.
  destruct (emitAll1_quiet evs (setNoiseMeter s m)) as [Q K].
  assert (Hb : bear (emitAll1 evs (setNoiseMeter s m)) = bear s /\
               noiseMeter (emitAll1 evs (setNoiseMeter s m)) = m).
  { clear Q K.
    generalize (setNoiseMeter s m)
      (eq_refl : bear (setNoiseMeter s m) = bear s)
      (eq_refl : noiseMeter (setNoiseMeter s m) = m).
    induction evs as [| e evs IH]; intros s0 H1 H2; simpl.
    - split; assumption.
    - apply IH.
      + rewrite <- H1. destruct e; unfold emit1, onBearStateChange, onMeterUpdate;
          try reflexivity.
        * destruct (negb _); reflexivity.
        * destruct (Qle_bool _ _); reflexivity.
      + rewrite <- H2. destruct e; unfold emit1, onBearStateChange, onMeterUpdate;
          try reflexivity.
        * destruct (negb _); reflexivity.
        * destruct (Qle_bool _ _); reflexivity. }
  destruct Hb as [Hb Hm]. simpl.
  repeat split; try assumption; try apply Q; apply K.
Qed.

Lemma bearAddNoise_spec : forall a s,
  bear (bearAddNoise a s) = fst (Bear.addNoise a (bear s))
  /\ noiseMeter (bearAddNoise a s) = noiseMeter s
  /\ on_or_over s (bearAddNoise a s)
  /\ env_kept s (bearAddNoise a s).
Proof. intros a s. exact (bearCall_spec (Bear.addNoise a) s). Qed.

Lemma bearReduceNoise_spec : forall a s,
  bear (bearReduceNoise a s) = fst (Bear.reduceNoise a (bear s))
  /\ noiseMeter (bearReduceNoise a s) = noiseMeter s
  /\ on_or_over s (bearReduceNoise a s)
  /\ env_kept s (bearReduceNoise a s).
Proof. intros a s. exact (bearCall_spec (Bear.reduceNoise a) s). Qed.

Lemma bearUpdate_spec : forall s,
  bear (bearUpdate s) = fst (Bear.update (bear s))
  /\ noiseMeter (bearUpdate s) = noiseMeter s
  /\ on_or_over s (bearUpdate s)
  /\ env_kept s (bearUpdate s).
Proof. intros s. exact (bearCall_spec Bear.update s). Qed.

Lemma meterAddNoise_spec : forall a s,
  bear (meterAddNoise a s) = bear s
  /\ noiseMeter (meterAddNoise a s) = fst (NoiseMeter.addNoise a (noiseMeter s))
  /\ on_or_over s (meterAddNoise a s)
  /\ env_kept s (meterAddNoise a s).
Proof. intros a s. exact (meterCall_spec (NoiseMeter.addNoise a) s). Qed.

Lemma meterReduceNoise_spec : forall a s,
  bear (meterReduceNoise a s) = bear s
  /\ noiseMeter (meterReduceNoise a s) = fst (NoiseMeter.reduceNoise a (noiseMeter s))
  /\ on_or_over s (meterReduceNoise a s)
  /\ env_kept s (meterReduceNoise a s).
Proof. intros a s. exact (meterCall_spec (NoiseMeter.reduceNoise a) s). Qed.

(** A call that brings the meter from below 100 to 100 or more ends the
    round in that call. *)
Lemma meterAddNoise_full : forall a s,
  NoiseMeter.maxLevel (noiseMeter s) = 100 ->
  NoiseMeter.currentLevel (noiseMeter s) < 100 ->
  100 <= NoiseMeter.currentLevel (noiseMeter (meterAddNoise a s)) ->
  gameState (meterAddNoise a s) = GAME_OVER.
Proof.
  intros a s Hm Hl Hf.
  destruct (meterAddNoise_spec a s) as (_ & Hn & _ & _). rewrite Hn in Hf.
  unfold meterAddNoise, NoiseMeter.addNoise in *.
  cbn [fst NoiseMeter.currentLevel NoiseMeter.setLevel] in Hf.
  cbn [NoiseMeter.currentLevel NoiseMeter.setLevel].
  match goal with |- context [Qeq_bool ?x ?y] =>
    assert (E : Qeq_bool x y = false) by (apply Qeq_bool_false; intro E'; lra)
  end.
  rewrite E. cbn [negb].
  apply emitAll1_meter_full.
  unfold NoiseMeter.getPercentage.
  cbn [NoiseMeter.currentLevel NoiseMeter.maxLevel NoiseMeter.setLevel].
  rewrite Hm in Hf |- *. apply percentage_ge_100. exact Hf.
Qed.

Lemma meterReduceNoise_full : forall a s,
  NoiseMeter.maxLevel (noiseMeter s) = 100 ->
  NoiseMeter.currentLevel (noiseMeter s) < 100 ->
  100 <= NoiseMeter.currentLevel (noiseMeter (meterReduceNoise a s)) ->
  gameState (meterReduceNoise a s) = GAME_OVER.
Proof.
  intros a s Hm Hl Hf.
  destruct (meterReduceNoise_spec a s) as (_ & Hn & _ & _). rewrite Hn in Hf.
  unfold meterReduceNoise, NoiseMeter.reduceNoise in *.
  cbn [fst NoiseMeter.currentLevel NoiseMeter.setLevel] in Hf.
  cbn [NoiseMeter.currentLevel NoiseMeter.setLevel].
  match goal with |- context [Qeq_bool ?x ?y] =>
    assert (E : Qeq_bool x y = false) by (apply Qeq_bool_false; intro E'; lra)
  end.
  rewrite E. cbn [negb].
  apply emitAll1_meter_full.
  unfold NoiseMeter.getPercentage.
  cbn [NoiseMeter.currentLevel NoiseMeter.maxLevel NoiseMeter.setLevel].
  rewrite Hm. apply percentage_ge_100. exact Hf.
Qed.

Lemma bear_addNoise_noise : forall a b,
  Bear.currentNoise (fst (Bear.addNoise a b))
    = Qmin (Bear.currentNoise b + a) (Bear.wakeThreshold b)
  /\ Bear.wakeThreshold (fst (Bear.addNoise a b)) = Bear.wakeThreshold b.
Proof.
  intros a b. unfold Bear.addNoise.
  destruct (updateState_noise
              (Bear.setNoise b (Qmin (Bear.currentNoise b + a) (Bear.wakeThreshold b))))
    as (-> & -> & _).
  split; reflexivity.
Qed.

Lemma bear_reduceNoise_noise : forall a b,
  Bear.currentNoise (fst (Bear.reduceNoise a b)) = Qmax (Bear.currentNoise b - a) 0
  /\ Bear.wakeThreshold (fst (Bear.reduceNoise a b)) = Bear.wakeThreshold b.
Proof.
  intros a b. unfold Bear.reduceNoise.
  destruct (updateState_noise (Bear.setNoise b (Qmax (Bear.currentNoise b - a) 0)))
    as (-> & -> & _).
  split; reflexivity.
Qed.

Lemma bear_update_noise : forall b,
  Bear.currentNoise (fst (Bear.update b)) = Bear.currentNoise b
  /\ Bear.wakeThreshold (fst (Bear.update b)) = Bear.wakeThreshold b.
Proof.
  intros b. unfold Bear.update. destruct (negb (Bear.active b)).
  - split; reflexivity.
  - destruct (updateState_noise b) as (-> & -> & _). split; reflexivity.
Qed.

(** *** The two accumulators move together *)

Lemma addNoise_both : forall a s,
  round_inv s ->
  round_inv (meterAddNoise a (bearAddNoise a s))
  /\ env_kept s (meterAddNoise a (bearAddNoise a s))
  /\ on_or_over s (meterAddNoise a (bearAddNoise a s))
  /\ NoiseMeter.currentLevel (noiseMeter (meterAddNoise a (bearAddNoise a s)))
     = Qmin (NoiseMeter.currentLevel (noiseMeter s) + a) 100.
Proof.
  intros a s ((S1 & S2 & S3) & G).
  destruct (bearAddNoise_spec a s) as (B1 & B2 & B3 & B4).
  destruct (meterAddNoise_spec a (bearAddNoise a s)) as (M1 & M2 & M3 & M4).
  destruct (bear_addNoise_noise a (bear s)) as (N1 & N2).
  assert (L : NoiseMeter.currentLevel (noiseMeter (meterAddNoise a (bearAddNoise a s)))
              = Qmin (NoiseMeter.currentLevel (noiseMeter s) + a) 100).
  { rewrite M2, B2. simpl. rewrite S3. reflexivity. }
  split; [|split; [eapply env_kept_trans; eassumption
                  |split; [eapply on_or_over_trans; eassumption | exact L]]].
  split.
  - unfold synced. rewrite M1, B1, N1, N2, L, S1, S2.
    repeat split. rewrite M2, B2. exact S3.
  - unfold guarded.
    destruct (Qlt_le_dec
                (NoiseMeter.currentLevel (noiseMeter (meterAddNoise a (bearAddNoise a s))))
                100) as [Lt | Ge]; [left; exact Lt | right].
    destruct G as [G | G].
    + apply meterAddNoise_full; rewrite ?B2; assumption.
    + eapply on_or_over_stays; [exact M3|].
      eapply on_or_over_stays; [exact B3 | exact G].
Qed.

Lemma reduceNoise_both : forall a s,
  round_inv s ->
  round_inv (meterReduceNoise a (bearReduceNoise a s))
  /\ env_kept s (meterReduceNoise a (bearReduceNoise a s))
  /\ on_or_over s (meterReduceNoise a (bearReduceNoise a s))
  /\ NoiseMeter.currentLevel (noiseMeter (meterReduceNoise a (bearReduceNoise a s)))
     = Qmax (NoiseMeter.currentLevel (noiseMeter s) - a) 0.
Proof.
  intros a s ((S1 & S2 & S3) & G).
  destruct (bearReduceNoise_spec a s) as (B1 & B2 & B3 & B4).
  destruct (meterReduceNoise_spec a (bearReduceNoise a s)) as (M1 & M2 & M3 & M4).
  destruct (bear_reduceNoise_noise a (bear s)) as (N1 & N2).
  assert (L : NoiseMeter.currentLevel
                (noiseMeter (meterReduceNoise a (bearReduceNoise a s)))
              = Qmax (NoiseMeter.currentLevel (noiseMeter s) - a) 0).
  { rewrite M2, B2. reflexivity. }
  split; [|split; [eapply env_kept_trans; eassumption
                  |split; [eapply on_or_over_trans; eassumption | exact L]]].
  split.
  - unfold synced. rewrite M1, B1, N1, N2, L, S1, S2.
    repeat split. rewrite M2, B2. exact S3.
  - unfold guarded.
    destruct (Qlt_le_dec
                (NoiseMeter.currentLevel
                   (noiseMeter (meterReduceNoise a (bearReduceNoise a s))))
                100) as [Lt | Ge]; [left; exact Lt | right].
    destruct G as [G | G].
    + apply meterReduceNoise_full; rewrite ?B2; assumption.
    + eapply on_or_over_stays; [exact M3|].
      eapply on_or_over_stays; [exact B3 | exact G].
Qed.

Lemma bearUpdate_quiet : forall s,
  quiet s (bearUpdate s) /\ env_kept s (bearUpdate s).
Proof.
  intro s. destruct (bearUpdate_spec s) as (B1 & B2 & B3 & B4).
  destruct (bear_update_noise (bear s)) as (N1 & N2).
  split; [|exact B4]. unfold quiet. rewrite B1, B2, N1, N2.
  repeat split. exact B3.
Qed.

(** *** Subscribers and frame stages pass *)

Lemma passes_refl : forall s, passes s s.
Proof. intro s. split; [apply on_or_over_refl | auto]. Qed.

Lemma passes_trans : forall s1 s2 s3, passes s1 s2 -> passes s2 s3 -> passes s1 s3.
Proof.
  intros s1 s2 s3 [A1 A2] [B1 B2].
  split; [eapply on_or_over_trans; eassumption | auto].
Qed.

Lemma quiet_passes : forall s s', quiet s s' -> passes s s'.
Proof.
  intros s s' Q. split.
  - apply Q.
  - apply quiet_round_inv. exact Q.
Qed.

Lemma setGameStats_passes : forall s x, passes s (setGameStats s x).
Proof. intros s x. apply quiet_passes. by_fields. Qed.

Lemma addNoise_both_passes : forall a s,
  passes s (meterAddNoise a (bearAddNoise a s)).
Proof.
  intros a s. split.
  - destruct (bearAddNoise_spec a s) as (_ & _ & B3 & _).
    destruct (meterAddNoise_spec a (bearAddNoise a s)) as (_ & _ & M3 & _).
    eapply on_or_over_trans; eassumption.
  - intro H. apply (addNoise_both a s H).
Qed.

Lemma reduceNoise_both_passes : forall a s,
  passes s (meterReduceNoise a (bearReduceNoise a s)).
Proof.
  intros a s. split.
  - destruct (bearReduceNoise_spec a s) as (_ & _ & B3 & _).
    destruct (meterReduceNoise_spec a (bearReduceNoise a s)) as (_ & _ & M3 & _).
    eapply on_or_over_trans; eassumption.
  - intro H. apply (reduceNoise_both a s H).
Qed.

Lemma onTVNoiseStart_passes : forall l s, passes s (onTVNoiseStart l s).
Proof.
  intros l s. unfold onTVNoiseStart.
  destruct (negb (isNoiseCancelActive (inputState s))).
  - apply addNoise_both_passes.
  - apply passes_refl.
Qed.

Lemma onNoiseSourceStart_passes : forall i s, passes s (onNoiseSourceStart i s).
Proof.
  intros i s. unfold onNoiseSourceStart.
  destruct (negb (isNoiseCancelActive (inputState s))
            && negb (PowerUp.hasTemporaryImmunity (powerUpManager s))).
  - cbv zeta.
    match goal with |- passes s (setGameStats ?s2 _) =>
      apply passes_trans with s2;
        [apply addNoise_both_passes | apply setGameStats_passes]
    end.
  - apply passes_refl.
Qed.

Lemma emit1_passes : forall e s, passes s (emit1 e s).
Proof. intros e s. apply quiet_passes. apply emit1_quiet. Qed.

Lemma emitAll1_passes : forall evs s, passes s (emitAll1 evs s).
Proof. intros evs s. apply quiet_passes. apply emitAll1_quiet. Qed.

Lemma managerOnPowerUpCollected_passes : forall ty s,
  passes s (managerOnPowerUpCollected ty s).
Proof.
  intros ty s. unfold managerOnPowerUpCollected.
  destruct (PowerUp.activatePowerUp ty (powerUpManager s)) as [[[pm b] evs] |].
  - eapply passes_trans; [|apply emitAll1_passes].
    apply quiet_passes. by_fields.
  - apply passes_refl.
Qed.

Lemma emit_passes : forall e s, passes s (emit e s).
Proof.
  intros e s. destruct e; try apply emit1_passes; unfold emit.
  - eapply passes_trans; [|apply onTVNoiseStart_passes].
    apply quiet_passes. by_fields.
  - eapply passes_trans; [|apply onNoiseSourceStart_passes].
    apply quiet_passes. by_fields.
  - apply quiet_passes. by_fields.
  - eapply passes_trans; [|apply quiet_passes; by_fields].
    eapply passes_trans; [|apply managerOnPowerUpCollected_passes].
    apply quiet_passes. by_fields.
Qed.

Lemma emitAll_passes : forall evs s, passes s (emitAll evs s).
Proof.
  induction evs as [| e evs IH]; intro s; simpl.
  - apply passes_refl.
  - eapply passes_trans; [apply emit_passes | apply IH].
Qed.

Lemma updateNoiseSources_passes : forall time todo s,
  passes s (updateNoiseSources time todo s).
Proof.
  intros time todo. induction todo as [| [k ns] rest IH]; intro s.
  - apply passes_refl.
  - cbn [updateNoiseSources].
    destruct (NoiseSource.update time (now s) ns (rng s)) as [[ns' evs] g'].
    eapply passes_trans; [|apply IH].
    eapply passes_trans; [|apply emitAll_passes].
    apply quiet_passes. by_fields.
Qed.

Lemma updateEntities_passes : forall s, passes s (updateEntities s).
Proof.
  intro s. unfold updateEntities.
  eapply passes_trans; [|apply emitAll_passes].
  apply quiet_passes. apply bearUpdate_quiet.
Qed.

Lemma updateSystems_passes : forall time delta s,
  passes s (updateSystems time delta s).
Proof.
  intros time delta s. unfold updateSystems.
  destruct (PowerUp.update delta _) as [pm evs].
  eapply passes_trans; [apply updateNoiseSources_passes|].
  eapply passes_trans; [|apply emitAll_passes].
  apply quiet_passes. by_fields.
Qed.

Lemma updateStatistics_passes : forall s, passes s (updateStatistics s).
Proof. intro s. apply quiet_passes. by_fields. Qed.

Lemma handleNoiseCanceling_passes : forall delta s,
  passes s (handleNoiseCanceling delta s).
Proof.
  intros delta s. unfold handleNoiseCanceling.
  destruct (isNoiseCancelActive (inputState s)).
  - apply reduceNoise_both_passes.
  - apply passes_refl.
Qed.

Lemma handleTVNoise_passes : forall delta s, passes s (handleTVNoise delta s).
Proof.
  intros delta s. unfold handleTVNoise.
  destruct (_ && _).
  - apply addNoise_both_passes.
  - apply passes_refl.
Qed.

Lemma handleNoiseSources_passes : forall delta s,
  passes s (handleNoiseSources delta s).
Proof.
  intros delta s. unfold handleNoiseSources.
  destruct (_ && _).
  - apply addNoise_both_passes.
  - apply passes_refl.
Qed.

Lemma update_passes : forall time delta s, passes s (update time delta s).
Proof.
  intros time delta s. unfold update.
  destruct (negb (GameState_beq (gameState s) PLAYING)); [apply passes_refl|].
  eapply passes_trans; [apply updateEntities_passes|].
  eapply passes_trans; [apply updateSystems_passes|].
  eapply passes_trans; [apply updateStatistics_passes|].
  eapply passes_trans; [apply handleNoiseCanceling_passes|].
  eapply passes_trans; [apply handleTVNoise_passes|].
  apply handleNoiseSources_passes.
Qed.

(** *** Every action keeps the invariant *)

Lemma updateNoiseCancelState_passes : forall s, passes s (updateNoiseCancelState s).
Proof.
  intro s. unfold updateNoiseCancelState.
  destruct (negb (Bool.eqb _ _)); [|apply passes_refl].
  destruct (spaceDown (inputState s) || mouseDown (inputState s)
            || touchActive (inputState s)).
  - match goal with |- passes s (if ?c then setGameStats ?s3 ?x else ?s3) =>
      apply passes_trans with s3;
        [|destruct c; [apply setGameStats_passes | apply passes_refl]]
    end.
    eapply passes_trans; [|apply emit_passes].
    apply quiet_passes. by_fields.
  - eapply passes_trans; [|apply emit_passes].
    apply quiet_passes. by_fields.
Qed.

Lemma setInputState_passes : forall s x, passes s (setInputState s x).
Proof. intros s x. apply quiet_passes. by_fields. Qed.

Lemma setNoiseCancelStartTime_passes : forall s x,
  passes s (setNoiseCancelStartTime s x).
Proof. intros s x. apply quiet_passes. by_fields. Qed.

Lemma onSpaceDown_passes : forall s, passes s (onSpaceDown s).
Proof.
  intro s. unfold onSpaceDown.
  destruct (negb (GameState_beq (gameState s) PLAYING)); [apply passes_refl|].
  eapply passes_trans; [apply setInputState_passes|].
  apply updateNoiseCancelState_passes.
Qed.

Lemma onSpaceUp_passes : forall s, passes s (onSpaceUp s).
Proof.
  intro s. unfold onSpaceUp.
  eapply passes_trans; [apply setInputState_passes|].
  apply updateNoiseCancelState_passes.
Qed.

Lemma startNoiseCancel_passes : forall s, passes s (startNoiseCancel s).
Proof.
  intro s. unfold startNoiseCancel.
  destruct (negb (GameState_beq (gameState s) PLAYING)); [apply passes_refl|].
  cbv zeta.
  eapply passes_trans; [apply setInputState_passes|].
  eapply passes_trans; [apply setNoiseCancelStartTime_passes|].
  apply updateNoiseCancelState_passes.
Qed.

Lemma stopNoiseCancel_passes : forall s, passes s (stopNoiseCancel s).
Proof.
  intro s. unfold stopNoiseCancel. cbv zeta.
  match goal with |- passes s (updateNoiseCancelState
                                 (setNoiseCancelStartTime (setInputState ?s1 _) _)) =>
    apply passes_trans with s1;
      [destruct (mouseDown (inputState s) && Qlt_bool 0 (noiseCancelStartTime s));
       [apply setGameStats_passes | apply passes_refl] |]
  end.
  eapply passes_trans; [apply setInputState_passes|].
  eapply passes_trans; [apply setNoiseCancelStartTime_passes|].
  apply updateNoiseCancelState_passes.
Qed.

Lemma updateGameTimer_round_inv : forall s,
  round_inv s -> round_inv (updateGameTimer s).
Proof.
  intros s H. unfold updateGameTimer.
  destruct (negb (GameState_beq (gameState s) PLAYING)); [exact H|].
  cbv zeta.
  destruct (Qle_bool _ 0).
  - unfold checkVictoryCondition, Qlt_bool.
    destruct (Qle_bool GAMEPLAY.WAKE_METER_MAX _) eqn:E;
      cbn [negb]; destruct H as [S G]; split; try exact S.
    + right. reflexivity.
    + left. apply Qle_bool_false in E. exact E.
  - destruct H as [S G]. split; [exact S|].
    destruct G as [G | G]; [left | right]; exact G.
Qed.

Lemma togglePause_round_inv : forall s, round_inv s -> round_inv (togglePause s).
Proof.
  intros s [S G]. unfold togglePause.
  destruct (gameState s) eqn:E; cbn [GameState_beq]; split;
    try exact S; try exact G;
    (destruct G as [G | G]; [left; exact G | congruence]).
Qed.

Lemma startPowerUpSpawning_quiet : forall s, quiet s (startPowerUpSpawning s).
Proof.
  intro s. unfold startPowerUpSpawning.
  destruct (availablePowerUps (currentLevel s)); [apply quiet_refl|].
  by_fields.
Qed.

Lemma startPowerUpSpawning_passes : forall s, passes s (startPowerUpSpawning s).
Proof. intro s. apply quiet_passes. apply startPowerUpSpawning_quiet. Qed.

Lemma createNoiseSources_quiet : forall configs s,
  quiet s (createNoiseSources configs s).
Proof.
  induction configs as [| cfg rest IH]; intro s.
  - apply quiet_refl.
  - cbn [createNoiseSources].
    eapply quiet_trans; [|apply IH].
    destruct (isTruthy (NoiseSource.startDelay cfg)).
    + by_fields.
    + destruct (NoiseSourceManager.createNoiseSource _ _ _ _) as [m g].
      by_fields.
Qed.

(** A new round: both accumulators are 0, both maxima are 100 and the
    round is Playing. *)
Lemma create_zero : forall level time g,
  Bear.currentNoise (bear (create level time g)) = 0
  /\ NoiseMeter.currentLevel (noiseMeter (create level time g)) = 0
  /\ Bear.wakeThreshold (bear (create level time g)) = 100
  /\ NoiseMeter.maxLevel (noiseMeter (create level time g)) = 100.
Proof.
  intros level time g. unfold create.
  destruct (Television.new g) as [tv g1].
  match goal with
  | |- context [startPowerUpSpawning (setPowerUpManager (createNoiseSources ?c ?s0) ?x)] =>
      pose proof (createNoiseSources_quiet c s0) as Q1;
      pose proof (startPowerUpSpawning_quiet
                    (setPowerUpManager (createNoiseSources c s0) x)) as Q2;
      assert (Q3 : quiet (createNoiseSources c s0)
                     (setPowerUpManager (createNoiseSources c s0) x))
        by by_fields;
      pose proof (quiet_trans _ _ _ Q1 (quiet_trans _ _ _ Q3 Q2)) as Q
  end.
  destruct Q as (A1 & A2 & A3 & A4 & _).
  rewrite A1, A2, A3, A4. repeat split.
Qed.

Lemma create_round_inv : forall level time g, round_inv (create level time g).
Proof.
  intros level time g.
  destruct (create_zero level time g) as (A1 & A2 & A3 & A4).
  split.
  - unfold synced. rewrite A1, A2, A3, A4. repeat split.
  - left. rewrite A2. reflexivity.
Qed.

Lemma Some_inj : forall (A : Type) (x y : A), Some x = Some y -> x = y.
Proof. intros A x y H. congruence. Qed.

Lemma exec_round_inv : forall a s s',
  round_inv s -> exec a s = Some s' -> round_inv s'.
Proof.
  intros a s s' H E. destruct a; unfold exec in E.
  - apply Some_inj in E; subst s'. apply update_passes.
    assert (P : passes s (setNow s time)) by (apply quiet_passes; by_fields).
    apply P. exact H.
  - apply Some_inj in E; subst s'. apply updateGameTimer_round_inv. exact H.
  - destruct (Television.exec a (television s) (rng s)) as [[[tv evs] g] |];
      [|discriminate].
    apply Some_inj in E; subst s'. apply emitAll_passes.
    assert (P : passes s (setRng (setTelevision s tv) g))
      by (apply quiet_passes; by_fields).
    apply P. exact H.
  - apply Some_inj in E; subst s'. apply onSpaceDown_passes. exact H.
  - apply Some_inj in E; subst s'. apply onSpaceUp_passes. exact H.
  - apply Some_inj in E; subst s'. apply startNoiseCancel_passes. exact H.
  - apply Some_inj in E; subst s'. apply stopNoiseCancel_passes. exact H.
  - apply Some_inj in E; subst s'. apply togglePause_round_inv. exact H.
  - apply Some_inj in E; subst s'. apply emit_passes. exact H.
  - destruct (availablePowerUps (currentLevel s)); [discriminate|].
    destruct (PowerUp.spawnRandomPowerUp (powerUpManager s) (rng s))
      as [[pm evs] g].
    apply Some_inj in E; subst s'.
    apply startPowerUpSpawning_passes. apply emitAll_passes.
    assert (P : passes s (setRng (setPowerUpManager s pm) g))
      by (apply quiet_passes; by_fields).
    apply P. exact H.
  - destruct (nth_error (pendingSources s) n); [|discriminate].
    destruct (NoiseSourceManager.createNoiseSource _ _ _ _) as [m g].
    apply Some_inj in E; subst s'.
    match goal with |- round_inv ?x =>
      assert (P : passes s x) by (apply quiet_passes; by_fields)
    end.
    apply P. exact H.
Qed.

Lemma reachable_round_inv : forall level time g s,
  reachable level time g s -> round_inv s.
Proof.
  intros level time g s R. induction R as [| s a s' R IH E].
  - apply create_round_inv.
  - eapply exec_round_inv; eassumption.
Qed.

End RoundInvariants.

Lemma after_reachable : forall level time g actions s,
  GameScene.reachable level time g s ->
  GameScene.reachable level time g (GameScene.after actions s).
Proof.
  intros level time g. induction actions as [| a rest IH]; intros s R.
  - exact R.
  - cbn [GameScene.after]. destruct (GameScene.exec a s) as [s1 |] eqn:Ea.
    + apply IH. eapply GameScene.reachable_exec; eassumption.
    + exact R.
Qed.

Lemma shieldedRound_reachable : GameScene.reachable level5 0 draws1 shieldedRound.
Proof. apply after_reachable. apply GameScene.reachable_create. Qed.

(** C10.  In every state of a round the bear's noise accumulator equals
    the meter's level, both are clamped against the same maximum 100, and
    so the percentage that drives the tier equals the displayed one; both
    are 0 when the round is created. *)
Theorem bear_and_meter_agree :
  forall (level : LevelConfig) (time : Q) (g : Rng) (s : GameScene.t),
    GameScene.reachable level time g s ->
    Bear.currentNoise (GameScene.bear s)
      = NoiseMeter.currentLevel (GameScene.noiseMeter s)
    /\ Bear.wakeThreshold (GameScene.bear s)
       = NoiseMeter.maxLevel (GameScene.noiseMeter s)
    /\ Bear.getNoisePercentage (GameScene.bear s)
       = NoiseMeter.getPercentage (GameScene.noiseMeter s)
    /\ Bear.currentNoise (GameScene.bear (GameScene.create level time g)) = 0
    /\ NoiseMeter.currentLevel (GameScene.noiseMeter (GameScene.create level time g)) = 0.
Proof.
  intros level time g s R.
  destruct (reachable_round_inv level time g s R) as ((S1 & S2 & S3) & _).
  destruct (create_zero level time g) as (C1 & C2 & _ & _).
  repeat split.
  - exact S1.
  - congruence.
  - unfold Bear.getNoisePercentage, NoiseMeter.getPercentage. congruence.
  - exact C1.
  - exact C2.
Qed.

Lemma bear_and_meter_agree_witness :
  Bear.currentNoise (GameScene.bear round99_last_tick)
    = NoiseMeter.currentLevel (GameScene.noiseMeter round99_last_tick)
  /\ Bear.wakeThreshold (GameScene.bear round99_last_tick)
     = NoiseMeter.maxLevel (GameScene.noiseMeter round99_last_tick)
  /\ Bear.getNoisePercentage (GameScene.bear round99_last_tick)
     = NoiseMeter.getPercentage (GameScene.noiseMeter round99_last_tick)
  /\ Bear.currentNoise (GameScene.bear (GameScene.create level5 0 draws1)) = 0
  /\ NoiseMeter.currentLevel
       (GameScene.noiseMeter (GameScene.create level5 0 draws1)) = 0.
Proof.
  apply (bear_and_meter_agree level5 0 draws1 round99_last_tick).
  apply after_reachable. apply after_reachable. apply GameScene.reachable_create.
Defined.

(** C3.  For every action taken in a state of a round: if the round is
    Playing and the action leaves the meter at 100 (or more), the round is
    GameOver after the action, whatever the countdown; if the action is a
    tick of the countdown in a Playing round that brings the countdown to 0
    while the meter is below 100, the round is Victory after it; and a round
    that is Victory after the action has its meter below 100. *)
Theorem full_meter_loses_and_countdown_wins :
  forall (level : LevelConfig) (time : Q) (g : Rng) (s : GameScene.t)
         (a : GameScene.Action) (s' : GameScene.t),
    GameScene.reachable level time g s ->
    GameScene.exec a s = Some s' ->
    (GameScene.gameState s = PLAYING ->
     100 <= NoiseMeter.currentLevel (GameScene.noiseMeter s') ->
     GameScene.gameState s' = GAME_OVER)
    /\ (a = GameScene.GameTimerFires ->
        GameScene.gameState s = PLAYING ->
        GameScene.gameTimer s - GAMEPLAY.TIMER_UPDATE_INTERVAL <= 0 ->
        NoiseMeter.currentLevel (GameScene.noiseMeter s) < 100 ->
        GameScene.gameState s' = VICTORY)
    /\ (GameScene.gameState s' = VICTORY ->
        NoiseMeter.currentLevel (GameScene.noiseMeter s') < 100).
Proof.
  intros level time g s a s' R E.
  assert (R' : GameScene.reachable level time g s')
    by (eapply GameScene.reachable_exec; eassumption).
  destruct (reachable_round_inv _ _ _ _ R') as (_ & G).
  split; [|split].
  - intros _ Hfull. destruct G as [G | G]; [lra | exact G].
  - intros -> Hp Ht Hl. cbn [GameScene.exec] in E. apply Some_inj in E. subst s'.
    unfold GameScene.updateGameTimer. rewrite Hp. cbn [GameState_beq negb].
    cbv zeta. cbn [GameScene.gameTimer GameScene.setGameTimer].
    apply Qle_bool_iff in Ht. rewrite Ht.
    unfold GameScene.checkVictoryCondition, Qlt_bool, NoiseMeter.getCurrentLevel.
    cbn [GameScene.noiseMeter GameScene.setGameTimer].
    assert (F : Qle_bool GAMEPLAY.WAKE_METER_MAX
                  (NoiseMeter.currentLevel (GameScene.noiseMeter s)) = false)
      by (apply Qle_bool_false; exact Hl).
    rewrite F. reflexivity.
  - intro Hv. destruct G as [G | G]; [exact G | congruence].
Qed.

Lemma full_meter_loses_and_countdown_wins_witness :
  GameScene.gameState round99_last_tick = PLAYING
  /\ GameScene.gameTimer round99_last_tick - GAMEPLAY.TIMER_UPDATE_INTERVAL <= 0
  /\ NoiseMeter.currentLevel (GameScene.noiseMeter round99_last_tick) < 100
  /\ GameScene.gameState (GameScene.updateGameTimer round99_last_tick) = VICTORY.
Proof.
  assert (P : GameScene.gameState round99_last_tick = PLAYING)
    by (vm_compute; reflexivity).
  assert (T : GameScene.gameTimer round99_last_tick - GAMEPLAY.TIMER_UPDATE_INTERVAL <= 0)
    by (vm_compute; discriminate).
  assert (L : NoiseMeter.currentLevel (GameScene.noiseMeter round99_last_tick) < 100)
    by (vm_compute; reflexivity).
  split; [exact P | split; [exact T | split; [exact L |]]].
  refine (proj1 (proj2 (full_meter_loses_and_countdown_wins level5 0 draws1
                          round99_last_tick GameScene.GameTimerFires
                          (GameScene.updateGameTimer round99_last_tick) _ _))
            eq_refl P T L).
  - apply after_reachable. apply after_reachable. apply GameScene.reachable_create.
  - reflexivity.
Defined.

(** Scenario 3: the meter reaches exactly 100 while the countdown is above
    0, and the round is GameOver, not Victory. *)
Example scenario_meter_full :
  let s := GameScene.after [GameScene.Frame 21016 (2000 # 39)] round99 in
  GameScene.gameState round99 = PLAYING
  /\ NoiseMeter.currentLevel (GameScene.noiseMeter s) == 100
  /\ 0 < GameScene.gameTimer s
  /\ GameScene.gameState s = GAME_OVER.
Proof. vm_compute. repeat split; reflexivity. Qed.

(** Scenario 4: the countdown reaches 0 with the meter at 99, and the round
    is Victory. *)
Example scenario_countdown_at_99 :
  let s := GameScene.after [GameScene.GameTimerFires] round99_last_tick in
  GameScene.gameState round99_last_tick = PLAYING
  /\ NoiseMeter.currentLevel (GameScene.noiseMeter round99_last_tick) == 99
  /\ GameScene.gameTimer round99_last_tick == 100
  /\ GameScene.gameTimer s == 0
  /\ GameScene.gameState s = VICTORY.
Proof. vm_compute. repeat split; reflexivity. Qed.

(** The noise of a television that is turning off reaches the meter: the
    scene asks [isOn()], which is true until the transition completes. *)
Example tv_noise_reaches_meter_while_turning_off :
  Television.getCurrentState (GameScene.television fadingRound) = TURNING_OFF
  /\ isNoiseCancelActive (GameScene.inputState fadingRound) = false
  /\ NoiseMeter.currentLevel (GameScene.noiseMeter fadingRound) == 0
  /\ NoiseMeter.currentLevel
       (GameScene.noiseMeter
          (GameScene.update 30016 16 (GameScene.setNow fadingRound 30016)))
     == 312 # 1000.
Proof. vm_compute. repeat split; reflexivity. Qed.

(** ** The per-frame noise arithmetic *)

Section FrameArithmetic.

Import GameScene.

Lemma blocked_env : forall s s' e,
  env_kept s s' -> blocked s e -> blocked s' e.
Proof.
  intros s s' e (K1 & _ & K3 & _ & _) H.
  destruct e; cbn [blocked] in *; unfold suppressed, immune in *;
    rewrite ?K1, ?K3; exact H.
Qed.

Lemma emit_blocked : forall e s,
  blocked s e -> quiet s (emit e s) /\ env_kept s (emit e s).
Proof.
  intros e s H. destruct e; cbn [blocked] in H; try contradiction; unfold emit.
  - unfold onTVNoiseStart. cbn [record inputState].
    unfold suppressed in H. rewrite H. cbn [negb]. split; by_fields.
  - unfold onNoiseSourceStart. scene_fields.
    assert (E : negb (isNoiseCancelActive (inputState s))
                && negb (PowerUp.hasTemporaryImmunity (powerUpManager s)) = false).
    { destruct H as [H | H]; unfold suppressed, immune in H; rewrite H;
        cbn [negb andb]; [reflexivity | apply andb_false_r]. }
    rewrite E. split; by_fields.
  - split; by_fields.
  - apply emit1_quiet.
Qed.

Lemma emitAll_blocked : forall evs s,
  Forall (blocked s) evs -> quiet s (emitAll evs s) /\ env_kept s (emitAll evs s).
Proof.
  induction evs as [| e evs IH]; intros s H.
  - split; [apply quiet_refl | apply env_kept_refl].
  - inversion H as [| ? ? He Hevs]; subst. cbn [emitAll fold_left].
    destruct (emit_blocked e s He) as [Q1 K1].
    destruct (IH (emit e s)) as [Q2 K2].
    + eapply Forall_impl; [|exact Hevs]. intros e'. apply blocked_env. exact K1.
    + split; [eapply quiet_trans | eapply env_kept_trans]; eassumption.
Qed.

(** The events that the entities and the systems emit in a frame. *)
Lemma television_update_events : forall tv,
  Television.update tv = []
  \/ Television.update tv = [TV_NOISE_START (Television.noiseLevel (Television.tvState tv))].
Proof.
  intro tv. unfold Television.update, Television.emitNoise.
  destruct (negb _); [left; reflexivity|].
  destruct (_ && _); [right | left]; reflexivity.
Qed.

Lemma noiseSource_update_events : forall time now ns g,
  Forall fromSource (snd (fst (NoiseSource.update time now ns g))).
Proof.
  intros time now ns g. unfold NoiseSource.update.
  destruct (negb (NoiseSource.active ns)); [constructor|].
  destruct (Qle_bool (NoiseSource.nextActivationTime ns) time
            && negb (NoiseSource.isActive ns)).
  - unfold NoiseSource.activate.
    destruct (Math_random g) as [u g1].
    destruct (NoiseSource.scheduleNextActivation _ _ _) as [ns2 g2].
    destruct (NoiseSource.isActive ns2 && _); cbn [fst snd NoiseSource.deactivate app];
      repeat constructor.
  - destruct (NoiseSource.isActive ns && _); cbn [fst snd NoiseSource.deactivate app];
      repeat constructor.
Qed.

Lemma powerUp_update_events : forall delta pm,
  Forall expiry (snd (PowerUp.update delta pm)).
Proof.
  intros delta pm. unfold PowerUp.update.
  destruct (PowerUp.updateActives delta (PowerUp.activePowerUps pm)) as [a evs] eqn:E.
  cbn [snd]. revert a evs E.
  induction (PowerUp.activePowerUps pm) as [| [ty p] rest IH]; intros a evs E.
  - inversion E; subst. constructor.
  - cbn [PowerUp.updateActives] in E.
    destruct (PowerUp.updateActive delta p) as [p' evs1] eqn:Ep.
    destruct (PowerUp.updateActives delta rest) as [rest' evs2].
    inversion E; subst. apply Forall_app. split; [|apply (IH _ _ eq_refl)].
    unfold PowerUp.updateActive, PowerUp.expire in Ep.
    destruct (negb (PowerUp.isActive p)); [inversion Ep; constructor|].
    destruct (Qle_bool _ 0); inversion Ep; repeat constructor.
Qed.

Lemma fromSource_blocked : forall s e,
  suppressed s \/ immune s -> fromSource e -> blocked s e.
Proof. intros s e H A. destruct e; cbn in A |- *; try contradiction; auto. Qed.

Lemma expiry_blocked : forall s e, expiry e -> blocked s e.
Proof. intros s e A. destruct e; cbn in A |- *; try contradiction; auto. Qed.

(** While suppression or immunity is active the noise sources move
    neither accumulator. *)
Lemma updateNoiseSources_blocked : forall time todo s,
  suppressed s \/ immune s ->
  quiet s (updateNoiseSources time todo s)
  /\ env_kept s (updateNoiseSources time todo s).
Proof.
  intros time todo. induction todo as [| [k ns] rest IH]; intros s H.
  - split; [apply quiet_refl | apply env_kept_refl].
  - cbn [updateNoiseSources].
    pose proof (noiseSource_update_events time (now s) ns (rng s)) as A.
    destruct (NoiseSource.update time (now s) ns (rng s)) as [[ns' evs] g'].
    cbn [fst snd] in A.
    match goal with |- context [emitAll evs ?s1] =>
      assert (Q1 : quiet s s1 /\ env_kept s s1) by (split; by_fields);
      assert (H1 : suppressed s1 \/ immune s1) by exact H;
      destruct (emitAll_blocked evs s1) as [Q2 K2];
        [eapply Forall_impl; [|exact A]; intro e; apply fromSource_blocked; exact H1|];
      destruct (IH (emitAll evs s1)) as [Q3 K3]
    end.
    + destruct K2 as (K21 & _ & K23 & _ & _).
      unfold suppressed, immune in *. rewrite K21, K23. exact H1.
    + destruct Q1 as [Q1 K1].
      split; [eapply quiet_trans; [exact Q1 | eapply quiet_trans; eassumption]
             |eapply env_kept_trans; [exact K1 | eapply env_kept_trans; eassumption]].
Qed.

(** What [updateSystems] does while suppression or immunity is active: the
    power-up manager is ticked and neither accumulator moves. *)
Lemma updateSystems_blocked : forall time delta s,
  suppressed s \/ immune s ->
  quiet s (updateSystems time delta s)
  /\ inputState (updateSystems time delta s) = inputState s
  /\ currentLevel (updateSystems time delta s) = currentLevel s
  /\ television (updateSystems time delta s) = television s
  /\ powerUpManager (updateSystems time delta s)
     = fst (PowerUp.update delta (powerUpManager s)).
Proof.
  intros time delta s H. unfold updateSystems.
  destruct (updateNoiseSources_blocked time
              (NoiseSourceManager.noiseSources (noiseSourceManager s)) s H)
    as [Q1 (K11 & K12 & K13 & K14 & K15)].
  rewrite K13.
  pose proof (powerUp_update_events delta (powerUpManager s)) as A.
  destruct (PowerUp.update delta (powerUpManager s)) as [pm evs].
  cbn [fst snd] in A |- *.
  match goal with |- context [emitAll evs ?s1] =>
    destruct (emitAll_blocked evs s1) as [Q2 (K21 & K22 & K23 & K24 & K25)];
      [eapply Forall_impl; [|exact A]; intro e; apply expiry_blocked |]
  end.
  rewrite K21, K22, K23, K24. scene_fields.
  split; [|repeat split; assumption].
  eapply quiet_trans; [exact Q1|].
  eapply quiet_trans; [|exact Q2]. by_fields.
Qed.

Lemma updateStatistics_quiet : forall s,
  quiet s (updateStatistics s) /\ env_kept s (updateStatistics s).
Proof. intro s. split; by_fields. Qed.

Lemma update_playing : forall time delta s,
  gameState s = PLAYING ->
  update time delta s
  = handleNoiseSources delta
      (handleTVNoise delta (handleNoiseCanceling delta (beforeBranches time delta s))).
Proof.
  intros time delta s H. unfold update, beforeBranches. rewrite H. reflexivity.
Qed.

Lemma beforeBranches_blocked : forall time delta s,
  suppressed s \/ immune s ->
  Forall (blocked s) (Television.update (television s)) ->
  quiet s (beforeBranches time delta s)
  /\ inputState (beforeBranches time delta s) = inputState s
  /\ currentLevel (beforeBranches time delta s) = currentLevel s
  /\ television (beforeBranches time delta s) = television s
  /\ powerUpManager (beforeBranches time delta s)
     = fst (PowerUp.update delta (powerUpManager s)).
Proof.
  intros time delta s H Htv. unfold beforeBranches.
  assert (E : quiet s (updateEntities s) /\ env_kept s (updateEntities s)).
  { unfold updateEntities.
    destruct (bearUpdate_quiet s) as [Q1 K1].
    destruct (emitAll_blocked (Television.update (television (bearUpdate s)))
                (bearUpdate s)) as [Q2 K2].
    - destruct K1 as (K11 & K12 & K13 & K14 & K15). rewrite K14.
      eapply Forall_impl; [|exact Htv]. intro e. apply blocked_env.
      repeat split; assumption.
    - split; [eapply quiet_trans | eapply env_kept_trans]; eassumption. }
  destruct E as [Q1 (K11 & K12 & K13 & K14 & K15)].
  destruct (updateSystems_blocked time delta (updateEntities s))
    as (Q2 & K21 & K22 & K24 & K23).
  { unfold suppressed, immune in *. rewrite K11, K13. exact H. }
  destruct (updateStatistics_quiet (updateSystems time delta (updateEntities s)))
    as [Q3 (K31 & K32 & K33 & K34 & K35)].
  rewrite K31, K32, K33, K34, K21, K22, K23, K24, K11, K12, K13, K14.
  split; [|repeat split].
  eapply quiet_trans; [exact Q1|]. eapply quiet_trans; eassumption.
Qed.

(** X22.  The suppression part of the frame arithmetic: in a frame of a
    Playing round with suppression active both accumulators are reduced by
    [NOISE_DECREASE_RATE * delta / 1000] times the suppression-boost
    multiplier of the power-ups still active and the level's decrease
    multiplier, and no noise is added. *)
Lemma suppressed_frame_reduces : forall time delta s,
  gameState s = PLAYING ->
  suppressed s ->
  NoiseMeter.currentLevel (noiseMeter (update time delta s))
  = Qmax (NoiseMeter.currentLevel (noiseMeter s)
          - reductionAmount delta
              (setPowerUpManager s (fst (PowerUp.update delta (powerUpManager s)))))
         0.
Proof.
  intros time delta s Hp Hs. rewrite (update_playing _ _ _ Hp).
  destruct (beforeBranches_blocked time delta s (or_introl Hs))
    as ((_ & _ & Q3 & _ & _) & K1 & K2 & K3 & K4).
  { destruct (television_update_events (television s)) as [-> | ->];
      repeat constructor. exact Hs. }
  set (s3 := beforeBranches time delta s) in *.
  assert (H4 : handleNoiseCanceling delta s3
               = meterReduceNoise (reductionAmount delta s3)
                   (bearReduceNoise (reductionAmount delta s3) s3)).
  { unfold handleNoiseCanceling. unfold suppressed in Hs. rewrite K1, Hs. reflexivity. }
  set (s4 := handleNoiseCanceling delta s3) in *.
  destruct (bearReduceNoise_spec (reductionAmount delta s3) s3)
    as (_ & B2 & _ & (B41 & B42 & B43 & B44 & _)).
  destruct (meterReduceNoise_spec (reductionAmount delta s3)
              (bearReduceNoise (reductionAmount delta s3) s3))
    as (_ & M2 & _ & (M41 & M42 & M43 & M44 & _)).
  rewrite <- H4 in M2, M41, M42, M43, M44.
  assert (I4 : isNoiseCancelActive (inputState s4) = true)
    by (rewrite M41, B41, K1; exact Hs).
  assert (H5 : handleTVNoise delta s4 = s4).
  { unfold handleTVNoise. rewrite I4. cbn [negb andb].
    rewrite andb_false_r. reflexivity. }
  rewrite H5.
  assert (H6 : handleNoiseSources delta s4 = s4).
  { unfold handleNoiseSources. rewrite I4. cbn [negb andb].
    rewrite andb_false_r. reflexivity. }
  rewrite H6, M2, B2.
  cbn [fst NoiseMeter.reduceNoise NoiseMeter.currentLevel NoiseMeter.setLevel].
  rewrite Q3. unfold reductionAmount. rewrite K2, K4. reflexivity.
Qed.

(** X23.  The immunity part of the frame arithmetic, for every frame in
    which the television emits no per-frame noise event (it is not in its
    ON phase): with
    suppression off and a temporary-immunity modifier active before and
    after the tick of the power-ups, the frame changes neither
    accumulator. *)
Lemma immune_frame_keeps_level : forall time delta s,
  gameState s = PLAYING ->
  isNoiseCancelActive (inputState s) = false ->
  immune s ->
  PowerUp.hasTemporaryImmunity (fst (PowerUp.update delta (powerUpManager s))) = true ->
  Television.update (television s) = [] ->
  NoiseMeter.currentLevel (noiseMeter (update time delta s))
    = NoiseMeter.currentLevel (noiseMeter s)
  /\ Bear.currentNoise (bear (update time delta s)) = Bear.currentNoise (bear s).
Proof.
  intros time delta s Hp Hc Hi Hi' Htv. rewrite (update_playing _ _ _ Hp).
  destruct (beforeBranches_blocked time delta s (or_intror Hi))
    as ((Q1 & _ & Q3 & _ & _) & K1 & K2 & K3 & K4).
  { rewrite Htv. constructor. }
  set (s3 := beforeBranches time delta s) in *.
  assert (H4 : handleNoiseCanceling delta s3 = s3).
  { unfold handleNoiseCanceling. rewrite K1, Hc. reflexivity. }
  rewrite H4.
  assert (H5 : handleTVNoise delta s3 = s3).
  { unfold handleTVNoise. rewrite K4, Hi'. cbn [negb]. rewrite andb_false_r.
    reflexivity. }
  rewrite H5.
  assert (H6 : handleNoiseSources delta s3 = s3).
  { unfold handleNoiseSources. rewrite K4, Hi'. cbn [negb]. rewrite andb_false_r.
    reflexivity. }
  rewrite H6. split; assumption.
Qed.

(** Scenario 6 in a round: clicking a power-up whose type is active leaves
    the power-up manager as it is and emits no activated event. *)
Lemma collect_active_rejected : forall ty s,
  PowerUp.isActivePowerUp ty (powerUpManager s) = true ->
  powerUpManager (emit (POWERUP_COLLECTED ty) s) = powerUpManager s
  /\ emitted (emit (POWERUP_COLLECTED ty) s) = emitted s ++ [POWERUP_COLLECTED ty].
Proof.
  intros ty s H. unfold emit, managerOnPowerUpCollected, onPowerUpCollected.
  scene_fields.
  rewrite (activate_active ty (powerUpManager s) H). cbn [emitAll1 fold_left]. scene_fields. split; reflexivity.
Qed.

End FrameArithmetic.

(** C2, at the failing input.  In the round [shieldedRound] the round is
    Playing, suppression is off, the sound shield (temporary immunity) is
    active, the television is in its ON phase and the meter is at 0.  The
    frame of 16 ms at 28016 ms leaves the immunity active and raises the
    meter to 1.5: the subscriber of the television's per-frame noise event
    adds [15 * 100 / 1000] without asking for the immunity. *)
Theorem immunity_does_not_stop_tv_noise :
  GameScene.reachable level5 0 draws1 shieldedRound
  /\ GameScene.gameState shieldedRound = PLAYING
  /\ isNoiseCancelActive (GameScene.inputState shieldedRound) = false
  /\ PowerUp.hasTemporaryImmunity (GameScene.powerUpManager shieldedRound) = true
  /\ Television.getCurrentState (GameScene.television shieldedRound) = ON
  /\ NoiseMeter.currentLevel (GameScene.noiseMeter shieldedRound) == 0
  /\ GameScene.exec (GameScene.Frame 28016 16) shieldedRound
     = Some (GameScene.update 28016 16 (GameScene.setNow shieldedRound 28016))
  /\ PowerUp.hasTemporaryImmunity
       (GameScene.powerUpManager
          (GameScene.update 28016 16 (GameScene.setNow shieldedRound 28016))) = true
  /\ NoiseMeter.currentLevel
       (GameScene.noiseMeter
          (GameScene.update 28016 16 (GameScene.setNow shieldedRound 28016)))
     == 3 # 2
  /\ GameScene.onTVNoiseStart 15 shieldedRound
     = GameScene.meterAddNoise (15 * 100 / 1000)
         (GameScene.bearAddNoise (15 * 100 / 1000) shieldedRound).
Proof.
  split; [exact shieldedRound_reachable|].
  vm_compute. repeat split; reflexivity.
Qed.

(** The same subscriber makes a television that is on contribute more than
    its rate: in a new round of level 5 with the television on, no
    suppression and no immunity, a frame of 5000 ms raises the meter from 0
    to 99, while [15 * 5000 / 1000 * 1 * 1.3] is 97.5. *)
Example tv_contributes_more_than_its_rate :
  let s := GameScene.after
             [GameScene.TV Television.TurnOnTimerFires;
              GameScene.TV Television.TweenCompletes]
             (GameScene.create level5 0 draws1) in
  isNoiseCancelActive (GameScene.inputState s) = false
  /\ PowerUp.hasTemporaryImmunity (GameScene.powerUpManager s) = false
  /\ PowerUp.getNoiseReductionMultiplier (GameScene.powerUpManager s) == 1
  /\ NoiseSourceManager.getTotalNoiseLevel (GameScene.noiseSourceManager s) == 0
  /\ NoiseMeter.currentLevel (GameScene.noiseMeter s) == 0
  /\ NoiseMeter.currentLevel
       (GameScene.noiseMeter (GameScene.update 21000 5000 (GameScene.setNow s 21000)))
     == 99
  /\ GAMEPLAY.NOISE_INCREASE_RATE * 5000 / 1000 * 1
       * noiseIncreaseMultiplier (modifiers level5) == 975 # 10.
Proof. vm_compute. repeat split; reflexivity. Qed.

(** * Further properties of the code *)

(** ** The wake meter: [reduceNoise], and a clamped [addNoise] followed by it *)

Lemma Qmax_case : forall a b : Q,
  (b <= a /\ Qmax a b = a) \/ (a <= b /\ Qmax a b = b).
Proof.
  intros a b. unfold Qmax, GenericMinMax.gmax.
  destruct (Qcompare a b) eqn:E.
  - left. split; [apply Qeq_alt in E; lra | reflexivity].
  - right. split; [apply Qlt_alt in E; lra | reflexivity].
  - left. split; [apply Qgt_alt in E; lra | reflexivity].
Qed.

(** X1.  [reduceNoise(amount)] sets the level to [max(level - amount, 0)]
    and changes no other field; it emits one meter-update event, carrying
    the new level and [isIncreasing: false], when the level changed and
    none when it did not; at level 0 an amount that is not negative leaves
    the level at 0 and emits nothing; a negative amount raises a level that
    is not negative by its absolute value, with no clamp at the maximum. *)
Theorem reduceNoise_max_and_event :
  forall (amount : Q) (m : NoiseMeter.INoiseMeterState),
    let m' := fst (NoiseMeter.reduceNoise amount m) in
    let evs := snd (NoiseMeter.reduceNoise amount m) in
    NoiseMeter.currentLevel m' = Qmax (NoiseMeter.currentLevel m - amount) 0
    /\ NoiseMeter.maxLevel m' = NoiseMeter.maxLevel m
    /\ NoiseMeter.isActive m' = NoiseMeter.isActive m
    /\ (~ NoiseMeter.currentLevel m' == NoiseMeter.currentLevel m ->
        evs = [METER_UPDATE (NoiseMeter.currentLevel m')
                 (NoiseMeter.getPercentage m') false])
    /\ (NoiseMeter.currentLevel m' == NoiseMeter.currentLevel m -> evs = [])
    /\ (NoiseMeter.currentLevel m == 0 -> 0 <= amount ->
        NoiseMeter.currentLevel m' == 0 /\ evs = [])
    /\ (0 <= NoiseMeter.currentLevel m -> amount < 0 ->
        NoiseMeter.currentLevel m' == NoiseMeter.currentLevel m - amount).
Proof.
  intros amount m m' evs. subst m' evs.
  unfold NoiseMeter.reduceNoise.
  cbn [fst snd NoiseMeter.setLevel NoiseMeter.currentLevel NoiseMeter.maxLevel
       NoiseMeter.isActive].
  split; [reflexivity|]. split; [reflexivity|]. split; [reflexivity|].
  split; [|split; [|split]].
  - intro Hne. apply Qeq_bool_false in Hne. rewrite Hne. reflexivity.
  - intro He. apply Qeq_bool_iff in He. rewrite He. reflexivity.
  - intros Hl Ha.
    assert (E : Qmax (NoiseMeter.currentLevel m - amount) 0 == NoiseMeter.currentLevel m).
    { destruct (Qmax_case (NoiseMeter.currentLevel m - amount) 0) as [[H ->] | [H ->]]; lra. }
    split; [lra|].
    apply Qeq_bool_iff in E. rewrite E. reflexivity.
  - intros Hl Ha.
    destruct (Qmax_case (NoiseMeter.currentLevel m - amount) 0) as [[H ->] | [H ->]]; lra.
Qed.



Section MeterPercentage.

Import NoiseMeter.

Lemma run_maxLevel : forall cs m,
  Forall (fun c => 0 <= amountOf c) cs ->
  maxLevel m = 100 ->
  0 <= currentLevel m <= 100 ->
  maxLevel (run cs m) = 100.
Proof.
  induction cs as [| c cs IH]; intros m Hcs Hm Hb; simpl.
  - exact Hm.
  - inversion Hcs as [| ? ? Hc Hrest]; subst.
    destruct (call_bounds c m Hc Hm Hb) as [Hm' Hb'].
    apply IH; assumption.
Qed.

End MeterPercentage.

(** X3.  The two tests of a full meter agree.  After every sequence of
    [addNoise] and [reduceNoise] calls with non-negative amounts on a new
    meter, [isAtMaximum] holds exactly when the level is 100, and exactly
    when the percentage is at least 100, which is the test of the scene on
    the meter-update event; the percentage lies between 0 and 100. *)
Theorem meter_at_maximum_iff_full :
  forall cs : list NoiseMeter.Call,
    Forall (fun c => 0 <= NoiseMeter.amountOf c) cs ->
    (NoiseMeter.isAtMaximum (NoiseMeter.run cs NoiseMeter.new) = true
     <-> NoiseMeter.currentLevel (NoiseMeter.run cs NoiseMeter.new) == 100)
    /\ (NoiseMeter.isAtMaximum (NoiseMeter.run cs NoiseMeter.new) = true
        <-> 100 <= NoiseMeter.getPercentage (NoiseMeter.run cs NoiseMeter.new))
    /\ 0 <= NoiseMeter.getPercentage (NoiseMeter.run cs NoiseMeter.new) <= 100.
Proof.
  intros cs Hcs.
  assert (H0 : 0 <= NoiseMeter.currentLevel NoiseMeter.new <= 100)
    by (simpl; lra).
  pose proof (run_maxLevel cs NoiseMeter.new Hcs eq_refl H0) as Hm.
  pose proof (run_bounds cs NoiseMeter.new Hcs eq_refl H0) as Hb.
  assert (Hp : NoiseMeter.getPercentage (NoiseMeter.run cs NoiseMeter.new)
               == NoiseMeter.currentLevel (NoiseMeter.run cs NoiseMeter.new)).
  { unfold NoiseMeter.getPercentage. rewrite Hm. field. }
  unfold NoiseMeter.isAtMaximum. rewrite Hm, Hp, Qle_bool_iff.
  split; [split; intro H; lra|]. split; [reflexivity | exact Hb].
Qed.

Lemma meter_at_maximum_iff_full_witness :
  (NoiseMeter.isAtMaximum
     (NoiseMeter.run [NoiseMeter.CallAddNoise 70; NoiseMeter.CallAddNoise 70]
        NoiseMeter.new) = true
   <-> NoiseMeter.currentLevel
         (NoiseMeter.run [NoiseMeter.CallAddNoise 70; NoiseMeter.CallAddNoise 70]
            NoiseMeter.new) == 100)
  /\ (NoiseMeter.isAtMaximum
        (NoiseMeter.run [NoiseMeter.CallAddNoise 70; NoiseMeter.CallAddNoise 70]
           NoiseMeter.new) = true
      <-> 100 <= NoiseMeter.getPercentage
                   (NoiseMeter.run [NoiseMeter.CallAddNoise 70; NoiseMeter.CallAddNoise 70]
                      NoiseMeter.new))
  /\ 0 <= NoiseMeter.getPercentage
            (NoiseMeter.run [NoiseMeter.CallAddNoise 70; NoiseMeter.CallAddNoise 70]
               NoiseMeter.new) <= 100.
Proof.
  apply meter_at_maximum_iff_full.
  repeat constructor; simpl; lra.
Defined.

(** ** The bear: the state is the tier of the noise *)

Section BearInvariant.

Import Bear.

Lemma call_noise_bounds : forall c b,
  nonNegative c ->
  wakeThreshold b = 100 ->
  0 <= currentNoise b <= 100 ->
  wakeThreshold (fst (call c b)) = 100
  /\ 0 <= currentNoise (fst (call c b)) <= 100.
Proof.
  intros c b Hc Ht [Hlo Hhi].
  destruct c as [| a | a]; cbn [nonNegative] in Hc; unfold call, update, addNoise, reduceNoise.
  - destruct (negb (active b)); cbn [fst]; [split; [assumption | split; assumption]|].
    destruct (updateState_noise b) as (-> & -> & _). split; [assumption | split; assumption].
  - match goal with |- context [updateStateBasedOnNoise ?b0] =>
      destruct (updateState_noise b0) as (-> & -> & _) end.
    cbn [setNoise currentNoise wakeThreshold]. rewrite Ht. split; [reflexivity|].
    destruct (Qmin_case (currentNoise b + a) 100) as [[H ->] | [H ->]]; lra.
  - match goal with |- context [updateStateBasedOnNoise ?b0] =>
      destruct (updateState_noise b0) as (-> & -> & _) end.
    cbn [setNoise currentNoise wakeThreshold]. split; [assumption|].
    destruct (Qmax_case (currentNoise b - a) 0) as [[H ->] | [H ->]]; lra.
Qed.

Lemma call_tier : forall c b,
  active b = true ->
  currentState b = newStateOf (getNoisePercentage b) ->
  currentState (fst (call c b)) = newStateOf (getNoisePercentage (fst (call c b))).
Proof.
  intros c b Ha Hb.
  destruct (call_is_update c b Ha) as (b0 & E & _ & _).
  rewrite E, updateState_percentage. apply updateState_state.
Qed.

Lemma run_tier : forall cs b,
  Forall nonNegative cs ->
  active b = true ->
  wakeThreshold b = 100 ->
  0 <= currentNoise b <= 100 ->
  currentState b = newStateOf (getNoisePercentage b) ->
  wakeThreshold (run cs b) = 100
  /\ 0 <= currentNoise (run cs b) <= 100
  /\ currentState (run cs b) = newStateOf (getNoisePercentage (run cs b)).
Proof.
  induction cs as [| c cs IH]; intros b Hcs Ha Ht Hb Hs; simpl.
  - split; [assumption | split; assumption].
  - inversion Hcs as [| ? ? Hc Hrest]; subst.
    destruct (call_noise_bounds c b Hc Ht Hb) as [Ht' Hb'].
    apply IH; try assumption.
    + apply call_active. exact Ha.
    + apply call_tier; assumption.
Qed.

End BearInvariant.

(** X4.  After every sequence of [update], [addNoise] and [reduceNoise]
    calls with non-negative amounts on a new bear, the noise lies in
    [0, 100], the state is the tier of the noise (SLEEPING below 50, DROWSY
    from 50 and below 100, AWAKE at 100), and the bear is AWAKE exactly
    when the noise is 100: a bear whose noise has been reduced below 100
    is no longer AWAKE. *)
Theorem bear_state_is_tier_of_noise :
  forall cs : list Bear.Call,
    Forall nonNegative cs ->
    let b := Bear.run cs Bear.new in
    0 <= Bear.currentNoise b <= 100
    /\ Bear.currentState b = Bear.newStateOf (Bear.currentNoise b)
    /\ (Bear.currentState b = AWAKE <-> Bear.currentNoise b == 100).
Proof.
  intros cs Hcs b. subst b.
  destruct (run_tier cs Bear.new Hcs eq_refl eq_refl) as (Ht & Hb & Hs).
  { simpl. lra. }
  { reflexivity. }
  assert (Hp : Bear.getNoisePercentage (Bear.run cs Bear.new)
               == Bear.currentNoise (Bear.run cs Bear.new)).
  { unfold Bear.getNoisePercentage. rewrite Ht. field. }
  assert (Hs' : Bear.currentState (Bear.run cs Bear.new)
                = Bear.newStateOf (Bear.currentNoise (Bear.run cs Bear.new))).
  { rewrite Hs. apply newStateOf_compat. exact Hp. }
  split; [exact Hb|]. split; [exact Hs'|].
  rewrite Hs'. split; intro H.
  - unfold Bear.newStateOf in H.
    destruct (Qle_bool 100 (Bear.currentNoise (Bear.run cs Bear.new))) eqn:E.
    + apply Qle_bool_iff in E. lra.
    + destruct (Qle_bool 50 _); discriminate.
  - apply newStateOf_awake. lra.
Qed.

Lemma bear_state_is_tier_of_noise_witness :
  0 <= Bear.currentNoise
         (Bear.run [Bear.CallAddNoise 120; Bear.CallUpdate; Bear.CallReduceNoise 30]
            Bear.new) <= 100
  /\ Bear.currentState
       (Bear.run [Bear.CallAddNoise 120; Bear.CallUpdate; Bear.CallReduceNoise 30]
          Bear.new)
     = Bear.newStateOf
         (Bear.currentNoise
            (Bear.run [Bear.CallAddNoise 120; Bear.CallUpdate; Bear.CallReduceNoise 30]
               Bear.new))
  /\ (Bear.currentState
        (Bear.run [Bear.CallAddNoise 120; Bear.CallUpdate; Bear.CallReduceNoise 30]
           Bear.new) = AWAKE
      <-> Bear.currentNoise
            (Bear.run [Bear.CallAddNoise 120; Bear.CallUpdate; Bear.CallReduceNoise 30]
               Bear.new) == 100).
Proof.
  apply (bear_state_is_tier_of_noise
           [Bear.CallAddNoise 120; Bear.CallUpdate; Bear.CallReduceNoise 30]).
  repeat constructor; simpl; lra.
Defined.

(** ** The television: the sampled delays and the cycle of the phases *)

Section TelevisionDelays.

(** [Phaser.Math.Between] on integers [lo <= hi] gives an integer that is
    at least [lo] and at most [hi + 1].  The bound is [hi + 1] and not
    [hi]: the engine multiplies the draw by [hi - lo + 1] in double
    precision, where the product with a draw just below 1 can round up to
    [hi - lo + 1] itself. *)
Lemma Between_integer : forall (lo hi : Z) (g : Rng),
  fair g -> (lo <= hi)%Z ->
  exists d : Z,
    Between (inject_Z lo) (inject_Z hi) g
    = (inject_Z d, {| draws := draws g; next := S (next g) |})
    /\ (lo <= d <= hi + 1)%Z.
Proof.
  intros lo hi g Hf Hle. unfold Between, Math_random.
  destruct (Hf (next g)) as [H0 H1].
  set (u := draws g (next g)) in *.
  exists (Qfloor (u * (inject_Z hi - inject_Z lo + 1) + inject_Z lo)).
  split; [reflexivity|].
  assert (Hk : 1 <= inject_Z hi - inject_Z lo + 1).
  { assert (inject_Z lo <= inject_Z hi) by (rewrite <- Zle_Qle; exact Hle). lra. }
  assert (Hlo : inject_Z lo <= u * (inject_Z hi - inject_Z lo + 1) + inject_Z lo).
  { assert (0 <= u * (inject_Z hi - inject_Z lo + 1))
      by (apply Qmult_le_0_compat; lra).
    lra. }
  assert (Hhi : u * (inject_Z hi - inject_Z lo + 1) + inject_Z lo < inject_Z (hi + 1)).
  { rewrite inject_Z_plus.
    assert (u * (inject_Z hi - inject_Z lo + 1) < 1 * (inject_Z hi - inject_Z lo + 1))
      by (apply Qmult_lt_compat_r; lra).
    change (inject_Z 1) with 1. lra. }
  split.
  - apply Qfloor_resp_le in Hlo. rewrite Qfloor_Z in Hlo. exact Hlo.
  - assert (H : inject_Z (Qfloor (u * (inject_Z hi - inject_Z lo + 1) + inject_Z lo))
                < inject_Z (hi + 1)).
    { eapply Qle_lt_trans; [apply Qfloor_le|exact Hhi]. }
    rewrite <- Zlt_Qlt in H. lia.
Qed.

Lemma createNoiseSources_steady : forall configs s,
  steady s (GameScene.createNoiseSources configs s).
Proof.
  induction configs as [| cfg rest IH]; intro s.
  - steady_fields.
  - cbn [GameScene.createNoiseSources].
    match goal with |- steady s (GameScene.createNoiseSources rest ?s1) =>
      assert (K : steady s s1); [|destruct (IH s1) as (A1 & A2 & A3 & A4 & A5 & A6 & A7);
                                   destruct K as (B1 & B2 & B3 & B4 & B5 & B6 & B7);
                                   unfold steady;
                                   rewrite A1, A2, A3, A4, A5, A6, A7;
                                   repeat split; assumption]
    end.
    destruct (isTruthy (NoiseSource.startDelay cfg)).
    + steady_fields.
    + destruct (NoiseSourceManager.createNoiseSource _ _ _ _) as [m g].
      steady_fields.
Qed.

Lemma create_television : forall level time g,
  GameScene.television (GameScene.create level time g)
  = Television.configure (tvConfig level) (fst (Television.new g)).
Proof.
  intros level time g. unfold GameScene.create.
  destruct (Television.new g) as [tv g1]. cbn [fst].
  match goal with
  | |- context [GameScene.createNoiseSources ?c ?s0] =>
      destruct (createNoiseSources_steady c s0) as (_ & _ & _ & _ & A & _)
  end.
  unfold GameScene.startPowerUpSpawning.
  destruct (availablePowerUps _); scene_fields; rewrite A; reflexivity.
Qed.

End TelevisionDelays.

(** X5.  The first activation of the television of a round does not use
    the level's configuration: the constructor schedules it from the
    default initial range before [configure] runs.  Whatever the level,
    the turn-on timer of a new round is the one of a new television with
    the defaults, an integer delay that [Phaser.Math.Between] draws for
    the range 8000 to 15000 ms, at least 8000 and at most 15001; the
    warning timer is set 3000 ms earlier and the television is OFF. *)
Theorem first_activation_ignores_level_config :
  forall (level : LevelConfig) (time : Q) (g : Rng),
    fair g ->
    let tv := GameScene.television (GameScene.create level time g) in
    Television.turnOnTimer tv = Television.turnOnTimer (fst (Television.new g))
    /\ Television.tvConfig tv
       = Television.tvConfig (Television.configure (tvConfig level) (fst (Television.new g)))
    /\ exists d : Z,
         Television.turnOnTimer tv = Some (inject_Z d)
         /\ (8000 <= d <= 15001)%Z
         /\ Television.warningTimer tv = Some (Qmax 0 (inject_Z d - 3000))
         /\ Television.getCurrentState tv = OFF.
Proof.
  intros level time g Hf tv. subst tv. rewrite create_television.
  split; [reflexivity|]. split; [reflexivity|].
  unfold Television.new, Television.scheduleNextActivation.
  cbn [Television.tvState Television.turnOnDelay Television.tvConfig
       Television.defaultConfig Television.initialDelayMin Television.initialDelayMax].
  change (Qeq_bool 0 0) with true. cbv iota.
  destruct (Between_integer 8000 15000 g Hf) as (d & E & Hd); [lia|].
  change (inject_Z 8000) with GAMEPLAY.TV_INITIAL_DELAY_MIN in E.
  change (inject_Z 15000) with GAMEPLAY.TV_INITIAL_DELAY_MAX in E.
  rewrite E. exists d. cbn. repeat split; try assumption; lia.
Qed.

Lemma draws1_fair : fair draws1.
Proof. intros [| n]; simpl; lra. Qed.

Lemma first_activation_ignores_level_config_witness :
  Television.turnOnTimer (GameScene.television (GameScene.create level1 0 draws1))
  = Television.turnOnTimer (fst (Television.new draws1))
  /\ Television.tvConfig (GameScene.television (GameScene.create level1 0 draws1))
     = Television.tvConfig
         (Television.configure (tvConfig level1) (fst (Television.new draws1)))
  /\ exists d : Z,
       Television.turnOnTimer (GameScene.television (GameScene.create level1 0 draws1))
       = Some (inject_Z d)
       /\ (8000 <= d <= 15001)%Z
       /\ Television.warningTimer (GameScene.television (GameScene.create level1 0 draws1))
          = Some (Qmax 0 (inject_Z d - 3000))
       /\ Television.getCurrentState (GameScene.television (GameScene.create level1 0 draws1))
          = OFF.
Proof. exact (first_activation_ignores_level_config level1 0 draws1 draws1_fair). Defined.

(** X6.  The delays that the television samples when a transition
    completes follow its configuration.  For integer bounds
    [0 <= lo <= hi] below [Number.MAX_SAFE_INTEGER]: when the turning-on
    transition completes, the television emits the turn-on event with
    noise level 15 and sets its turn-off timer to an integer duration that
    [Phaser.Math.Between] draws for the configured active-duration bounds,
    at least [lo] and at most [hi + 1]; when the turning-off transition
    completes on a television that has been scheduled before (its last
    turn-on delay is not 0), it emits the turn-off event and sets its
    turn-on timer to an integer delay drawn for the configured
    subsequent-delay bounds, at least [lo] and at most [hi + 1], with the
    warning 3000 ms earlier. *)
Theorem television_delays_follow_config :
  forall (tv : Television.t) (g : Rng) (lo hi : Z),
    fair g -> (0 <= lo)%Z -> (lo <= hi)%Z -> (hi < 9007199254740991)%Z ->
    (Television.activeDurationMin (Television.tvConfig tv) = inject_Z lo ->
     Television.activeDurationMax (Television.tvConfig tv) = inject_Z hi ->
     exists d : Z,
       Television.turnOffTimer (fst (fst (Television.turnOnComplete tv g)))
       = Some (inject_Z d)
       /\ (lo <= d <= hi + 1)%Z
       /\ Television.getCurrentState (fst (fst (Television.turnOnComplete tv g))) = ON
       /\ snd (fst (Television.turnOnComplete tv g)) = [TV_TURN_ON 15])
    /\ (~ Television.turnOnDelay (Television.tvState tv) == 0 ->
        Television.subsequentDelayMin (Television.tvConfig tv) = inject_Z lo ->
        Television.subsequentDelayMax (Television.tvConfig tv) = inject_Z hi ->
        exists d : Z,
          Television.turnOnTimer (fst (fst (Television.turnOffComplete tv g)))
          = Some (inject_Z d)
          /\ (lo <= d <= hi + 1)%Z
          /\ Television.warningTimer (fst (fst (Television.turnOffComplete tv g)))
             = Some (Qmax 0 (inject_Z d - 3000))
          /\ Television.getCurrentState (fst (fst (Television.turnOffComplete tv g))) = OFF
          /\ snd (fst (Television.turnOffComplete tv g)) = [TV_TURN_OFF]).
Proof.
  intros tv g lo hi Hf _ Hle _.
  destruct (Between_integer lo hi g Hf Hle) as (d & E & Hd).
  split.
  - intros Hmin Hmax. exists d.
    unfold Television.turnOnComplete, Television.scheduleDeactivation.
    cbn [Television.setState Television.tvConfig]. rewrite Hmin, Hmax, E.
    cbn. repeat split; try reflexivity; lia.
  - intros Hne Hmin Hmax. exists d.
    apply Qeq_bool_false in Hne.
    unfold Television.turnOffComplete, Television.scheduleNextActivation.
    cbn [Television.setState Television.tvConfig Television.tvState
         Television.turnOnDelay].
    rewrite Hne, Hmin, Hmax, E.
    cbn. repeat split; try reflexivity; lia.
Qed.

Lemma television_delays_follow_config_witness :
  exists d : Z,
    Television.turnOffTimer
      (fst (fst (Television.turnOnComplete (fst (Television.new draws1)) draws1)))
    = Some (inject_Z d)
    /\ (10000 <= d <= 18000 + 1)%Z
    /\ Television.getCurrentState
         (fst (fst (Television.turnOnComplete (fst (Television.new draws1)) draws1))) = ON
    /\ snd (fst (Television.turnOnComplete (fst (Television.new draws1)) draws1))
       = [TV_TURN_ON 15].
Proof.
  refine (proj1 (television_delays_follow_config (fst (Television.new draws1)) draws1
                   10000 18000 draws1_fair _ _ _) _ _);
    [lia | lia | lia | reflexivity | reflexivity].
Defined.

(** X7.  The television never skips a phase.  Whatever happens to a
    reachable television (a timer fires, a transition completes, [turnOn],
    [turnOff] or [configure] is called), its phase stays as it is and
    nothing is emitted, or it moves to the next phase of the cycle OFF,
    TURNING_ON, ON, TURNING_OFF, OFF; the turn-on event is emitted exactly
    on entering ON and the turn-off event exactly on entering OFF. *)
Theorem television_phases_cycle :
  forall (g0 : Rng) (tv : Television.t) (g : Rng) (a : Television.Action),
    Television.reachable g0 tv g ->
    match Television.exec a tv g with
    | None => True
    | Some (tv', evs, _) =>
        (Television.getCurrentState tv' = Television.getCurrentState tv /\ evs = [])
        \/ (Television.getCurrentState tv' = nextPhase (Television.getCurrentState tv)
            /\ evs = match Television.getCurrentState tv' with
                     | ON => [TV_TURN_ON 15]
                     | OFF => [TV_TURN_OFF]
                     | _ => []
                     end)
    end.
Proof.
  intros g0 tv g a R.
  pose proof (reachable_phase_inv g0 tv g R) as H.
  unfold phase_inv, Television.getCurrentState in *.
  destruct a; unfold Television.exec.
  - destruct (Television.turnOnTimer tv); [|exact I].
    unfold Television.turnOn. cbn [Television.tvState].
    destruct (Television.currentState (Television.tvState tv)) eqn:E; cbn;
      rewrite ?E; auto.
  - destruct (Television.turnOffTimer tv); [|exact I].
    unfold Television.turnOff. cbn [Television.tvState].
    destruct (Television.currentState (Television.tvState tv)) eqn:E; cbn;
      rewrite ?E; auto.
  - destruct (Television.warningTimer tv); [|exact I]. left. split; reflexivity.
  - destruct (Television.tweens tv) as [| [] rest] eqn:Et; [exact I | |];
      destruct (Television.currentState (Television.tvState tv)) eqn:E;
      destruct H as (_ & _ & Hw); try discriminate.
    + unfold Television.turnOnComplete, Television.scheduleDeactivation.
      destruct (Between _ _ g) as [d g']. cbn. right. split; reflexivity.
    + unfold Television.turnOffComplete, Television.scheduleNextActivation.
      destruct (Between _ _ g) as [d g']. cbn. right. split; reflexivity.
  - unfold Television.turnOn.
    destruct (Television.currentState (Television.tvState tv)) eqn:E; cbn;
      rewrite ?E; auto.
  - unfold Television.turnOff.
    destruct (Television.currentState (Television.tvState tv)) eqn:E; cbn;
      rewrite ?E; auto.
  - left. split; reflexivity.
Qed.

Lemma television_phases_cycle_witness :
  match Television.exec Television.TurnOnTimerFires
          (fst (Television.new draws1)) (snd (Television.new draws1)) with
  | None => True
  | Some (tv', evs, _) =>
      (Television.getCurrentState tv'
       = Television.getCurrentState (fst (Television.new draws1)) /\ evs = [])
      \/ (Television.getCurrentState tv'
          = nextPhase (Television.getCurrentState (fst (Television.new draws1)))
          /\ evs = match Television.getCurrentState tv' with
                   | ON => [TV_TURN_ON 15]
                   | OFF => [TV_TURN_OFF]
                   | _ => []
                   end)
  end.
Proof.
  apply (television_phases_cycle draws1 (fst (Television.new draws1))
           (snd (Television.new draws1)) Television.TurnOnTimerFires).
  apply Television.reachable_new. apply surjective_pairing.
Defined.

(** ** The power-up manager: its maps, its queries, its tick and its spawns *)

Section MapLaws.

Context {K V : Type}.
Variable eqb : K -> K -> bool.
Hypothesis eqb_eq : forall a b : K, eqb a b = true <-> a = b.

Lemma eqb_refl' : forall a : K, eqb a a = true.
Proof. intro a. apply eqb_eq. reflexivity. Qed.

Lemma eqb_neq : forall a b : K, a <> b -> eqb a b = false.
Proof.
  intros a b H. destruct (eqb a b) eqn:E; [|reflexivity].
  apply eqb_eq in E. contradiction.
Qed.

Lemma map_has_In : forall (k : K) (m : list (K * V)),
  map_has eqb k m = true <-> In k (map fst m).
Proof.
  intros k m. unfold map_has. induction m as [| [k' v'] m IH]; simpl.
  - split; [discriminate | contradiction].
  - destruct (eqb k k') eqn:E.
    + apply eqb_eq in E. split; auto.
    + rewrite IH. split; [auto | intros [H | H]; [|exact H]].
      subst k'. rewrite eqb_refl' in E. discriminate.
Qed.

Lemma map_has_false : forall (k : K) (m : list (K * V)),
  map_has eqb k m = false <-> ~ In k (map fst m).
Proof.
  intros k m. rewrite <- map_has_In.
  destruct (map_has eqb k m); split; intro H; congruence.
Qed.

Lemma map_get_In : forall (k : K) (v : V) (m : list (K * V)),
  map_get eqb k m = Some v -> In (k, v) m.
Proof.
  intros k v m. induction m as [| [k' v'] m IH]; simpl; [discriminate|].
  destruct (eqb k k') eqn:E.
  - apply eqb_eq in E. intro H. left. congruence.
  - intro H. right. exact (IH H).
Qed.

Lemma map_get_set_same : forall (k : K) (v : V) (m : list (K * V)),
  map_get eqb k (map_set eqb k v m) = Some v.
Proof.
  intros k v m. induction m as [| [k' v'] m IH]; simpl.
  - rewrite eqb_refl'. reflexivity.
  - destruct (eqb k k') eqn:E; simpl.
    + rewrite eqb_refl'. reflexivity.
    + rewrite E. exact IH.
Qed.

Lemma map_get_set_other : forall (k k' : K) (v : V) (m : list (K * V)),
  k <> k' -> map_get eqb k' (map_set eqb k v m) = map_get eqb k' m.
Proof.
  intros k k' v m H. induction m as [| [k1 v1] m IH]; simpl.
  - rewrite (eqb_neq k' k) by congruence. reflexivity.
  - destruct (eqb k k1) eqn:E; simpl.
    + apply eqb_eq in E. subst k1.
      rewrite (eqb_neq k' k) by congruence. reflexivity.
    + destruct (eqb k' k1); [reflexivity | exact IH].
Qed.

Lemma map_set_keys_present : forall (k : K) (v : V) (m : list (K * V)),
  map_has eqb k m = true -> map fst (map_set eqb k v m) = map fst m.
Proof.
  intros k v m. unfold map_has. induction m as [| [k' v'] m IH]; simpl.
  - discriminate.
  - destruct (eqb k k') eqn:E; simpl.
    + apply eqb_eq in E. subst k'. reflexivity.
    + intro H. rewrite IH by exact H. reflexivity.
Qed.

Lemma map_set_keys_NoDup : forall (k : K) (v : V) (m : list (K * V)),
  NoDup (map fst m) -> NoDup (map fst (map_set eqb k v m)).
Proof.
  intros k v m H. destruct (map_has eqb k m) eqn:E.
  - rewrite map_set_keys_present by exact E. exact H.
  - rewrite (map_set_absent eqb k v m E), map_app. simpl.
    apply map_has_false in E.
    apply NoDup_app; [exact H | repeat constructor; intros [] |].
    intros x Hx [Hk | []]. subst x. contradiction.
Qed.

Lemma map_set_Forall : forall (P : K * V -> Prop) (k : K) (v : V) (m : list (K * V)),
  P (k, v) -> Forall P m -> Forall P (map_set eqb k v m).
Proof.
  intros P k v m Hv H. induction H as [| [k' v'] m Hx Hm IH]; simpl.
  - repeat constructor. exact Hv.
  - destruct (eqb k k'); constructor; assumption.
Qed.

Lemma map_set_same_value : forall (k : K) (v : V) (m : list (K * V)),
  map_get eqb k m = Some v -> map_set eqb k v m = m.
Proof.
  intros k v m. induction m as [| [k' v'] m IH]; simpl; [discriminate|].
  destruct (eqb k k') eqn:E.
  - apply eqb_eq in E. intro H. congruence.
  - intro H. rewrite IH by exact H. reflexivity.
Qed.

Lemma map_get_delete_same : forall (k : K) (m : list (K * V)),
  NoDup (map fst m) -> map_get eqb k (map_delete eqb k m) = None.
Proof.
  intros k m H. induction m as [| [k' v'] m IH]; simpl; [reflexivity|].
  inversion H as [| ? ? Hn Hm]; subst.
  destruct (eqb k k') eqn:E; simpl.
  - apply eqb_eq in E. subst k'.
    destruct (map_get eqb k m) eqn:G; [|reflexivity].
    apply map_get_In in G. exfalso. apply Hn.
    change k with (fst (k, v)). apply in_map. exact G.
  - rewrite E. exact (IH Hm).
Qed.

Lemma map_get_delete_other : forall (k k' : K) (m : list (K * V)),
  k <> k' -> map_get eqb k' (map_delete eqb k m) = map_get eqb k' m.
Proof.
  intros k k' m H. induction m as [| [k1 v1] m IH]; simpl; [reflexivity|].
  destruct (eqb k k1) eqn:E; simpl.
  - apply eqb_eq in E. subst k1.
    rewrite (eqb_neq k' k) by congruence. reflexivity.
  - destruct (eqb k' k1); [reflexivity | exact IH].
Qed.

Lemma map_delete_keys : forall (k x : K) (m : list (K * V)),
  In x (map fst (map_delete eqb k m)) -> In x (map fst m).
Proof.
  intros k x m. induction m as [| [k' v'] m IH]; simpl; [auto|].
  destruct (eqb k k'); simpl; [auto|]. intros [H | H]; auto.
Qed.

Lemma map_delete_keys_NoDup : forall (k : K) (m : list (K * V)),
  NoDup (map fst m) -> NoDup (map fst (map_delete eqb k m)).
Proof.
  intros k m H. induction m as [| [k' v'] m IH]; simpl; [constructor|].
  inversion H as [| ? ? Hn Hm]; subst.
  destruct (eqb k k'); [exact Hm|]. simpl. constructor; [|exact (IH Hm)].
  intro Hx. apply Hn. eapply map_delete_keys. exact Hx.
Qed.

Lemma map_delete_Forall : forall (P : K * V -> Prop) (k : K) (m : list (K * V)),
  Forall P m -> Forall P (map_delete eqb k m).
Proof.
  intros P k m H. induction H as [| [k' v'] m Hx Hm IH]; simpl; [constructor|].
  destruct (eqb k k'); [exact Hm | constructor; assumption].
Qed.

End MapLaws.

Lemma PowerUpType_beq_eq : forall a b : PowerUpType,
  PowerUpType_beq a b = true <-> a = b.
Proof. intros [] []; simpl; split; intro H; congruence. Qed.

Lemma Qlt_bool_iff : forall a b : Q, Qlt_bool a b = true <-> a < b.
Proof.
  intros a b. unfold Qlt_bool. rewrite negb_true_iff. apply Qle_bool_false.
Qed.

Lemma Qlt_bool_false : forall a b : Q, Qlt_bool a b = false <-> b <= a.
Proof.
  intros a b. unfold Qlt_bool. rewrite negb_false_iff. apply Qle_bool_iff.
Qed.

Section PowerUpInvariant.

Import PowerUp.

Lemma config_positive : forall ty cfg,
  getPowerUpConfig ty = Some cfg -> 0 < duration cfg /\ 0 < cooldown cfg.
Proof.
  intros ty cfg H. destruct ty; inversion H; subst; cbn; split; reflexivity.
Qed.

Lemma new_wf : powerUps_wf new.
Proof. repeat split; constructor. Qed.

Lemma setAvailablePowerUps_wf : forall powerUps m,
  powerUps_wf m -> powerUps_wf (setAvailablePowerUps powerUps m).
Proof.
  intros powerUps m (H1 & H2 & H3 & H4 & H5).
  repeat split; try assumption. apply NoDup_nodup.
Qed.

Lemma activatePowerUp_wf : forall ty m m' b evs,
  powerUps_wf m ->
  activatePowerUp ty m = Some (m', b, evs) ->
  powerUps_wf m'.
Proof.
  intros ty m m' b evs (H1 & H2 & H3 & H4 & H5) E. unfold activatePowerUp in E.
  destruct (map_has PowerUpType_beq ty (activePowerUps m)) eqn:Ea.
  - inversion E; subst. repeat split; assumption.
  - destruct (getPowerUpConfig ty) as [cfg |] eqn:Ec; [|discriminate].
    inversion E; subst. unfold powerUps_wf.
    cbn [setActive activePowerUps powerUpCooldowns availablePowerUps].
    split; [apply (map_set_keys_NoDup _ PowerUpType_beq_eq); exact H1|].
    split; [|repeat split; assumption].
    apply map_set_Forall; [|exact H2].
    destruct (config_positive ty cfg Ec) as [Hd _].
    unfold activeEntry_ok, newActive. cbn [fst snd apType isActive apConfig remainingDuration].
    repeat split; try assumption. apply Qle_refl.
Qed.

Lemma updateActives_wf : forall delta a,
  0 <= delta ->
  NoDup (map fst a) ->
  Forall activeEntry_ok a ->
  NoDup (map fst (fst (updateActives delta a)))
  /\ Forall activeEntry_ok (fst (updateActives delta a))
  /\ (forall k, In k (map fst (fst (updateActives delta a))) -> In k (map fst a)).
Proof.
  intros delta a Hd. induction a as [| [ty p] rest IH]; intros Hn Ha.
  - cbn. repeat split; [constructor | constructor | auto].
  - inversion Hn as [| ? ? Hx Hn']; subst.
    inversion Ha as [| ? ? Hp Ha']; subst.
    destruct (IH Hn' Ha') as (I1 & I2 & I3).
    cbn [updateActives].
    destruct (updateActives delta rest) as [rest' evs'].
    cbn [fst] in I1, I2, I3.
    destruct Hp as (P1 & P2 & P3 & P4 & P5). cbn [fst snd] in P1, P2, P3, P4, P5.
    unfold updateActive, expire. rewrite P2. cbn [negb remainingDuration].
    destruct (Qle_bool (remainingDuration p - delta) 0) eqn:E;
      cbn [isActive negb fst].
    + repeat split; try assumption. intros k Hk. right. apply I3. exact Hk.
    + rewrite ?P2. cbn [negb map fst].
      apply Qle_bool_false in E.
      split; [constructor; [intro Hk; apply Hx; apply I3; exact Hk | exact I1]|].
      split.
      * constructor; [|exact I2].
        unfold activeEntry_ok. cbn [fst snd apType isActive apConfig remainingDuration].
        repeat split; try assumption. lra.
      * intros k [Hk | Hk]; [left; exact Hk | right; apply I3; exact Hk].
Qed.

Lemma updateCooldowns_wf : forall delta c,
  NoDup (map fst c) ->
  NoDup (map fst (updateCooldowns delta c))
  /\ Forall (fun kc => 0 < snd kc) (updateCooldowns delta c)
  /\ (forall k, In k (map fst (updateCooldowns delta c)) -> In k (map fst c)).
Proof.
  intros delta c. induction c as [| [ty cd] rest IH]; intro Hn.
  - cbn. repeat split; [constructor | constructor | auto].
  - inversion Hn as [| ? ? Hx Hn']; subst.
    destruct (IH Hn') as (I1 & I2 & I3).
    cbn [updateCooldowns].
    destruct (Qle_bool (cd - delta) 0) eqn:E.
    + repeat split; try assumption. intros k Hk. right. apply I3. exact Hk.
    + apply Qle_bool_false in E. cbn [map fst].
      split; [constructor; [intro Hk; apply Hx; apply I3; exact Hk | exact I1]|].
      split; [constructor; [exact E | exact I2]|].
      intros k [Hk | Hk]; [left; exact Hk | right; apply I3; exact Hk].
Qed.

Lemma update_wf : forall delta m,
  0 <= delta -> powerUps_wf m -> powerUps_wf (fst (update delta m)).
Proof.
  intros delta m Hd (H1 & H2 & H3 & H4 & H5). unfold update.
  destruct (updateActives_wf delta (activePowerUps m) Hd H1 H2) as (A1 & A2 & _).
  destruct (updateCooldowns_wf delta (powerUpCooldowns m) H3) as (C1 & C2 & _).
  destruct (updateActives delta (activePowerUps m)) as [a evs].
  repeat split; assumption.
Qed.

Lemma spawnRandomPowerUp_wf : forall m g,
  powerUps_wf m -> powerUps_wf (fst (fst (spawnRandomPowerUp m g))).
Proof.
  intros m g H. unfold spawnRandomPowerUp.
  destruct (availablePowerUps m); [exact H|].
  destruct (spawnable m); [exact H|].
  cbn [Math_random].
  destruct (nth_error _ _) as [ty |]; [|exact H].
  destruct (getPowerUpConfig ty) as [cfg |] eqn:Ec; [|exact H].
  destruct H as (H1 & H2 & H3 & H4 & H5). cbn [fst]. unfold powerUps_wf.
  cbn [setCooldowns activePowerUps powerUpCooldowns availablePowerUps].
  repeat split; try assumption.
  - apply (map_set_keys_NoDup _ PowerUpType_beq_eq). exact H3.
  - apply map_set_Forall; [|exact H4].
    destruct (config_positive ty cfg Ec) as [_ Hc]. exact Hc.
Qed.

Lemma step_wf : forall o m g,
  0 <= deltaOf o -> powerUps_wf m -> powerUps_wf (fst (fst (step o m g))).
Proof.
  intros o m g Hd H. destruct o; unfold step.
  - apply setAvailablePowerUps_wf. exact H.
  - destruct (activatePowerUp ty m) as [[[m' b] evs] |] eqn:E; [|exact H].
    eapply activatePowerUp_wf; eassumption.
  - pose proof (update_wf delta m Hd H) as K.
    destruct (update delta m) as [m' evs]. exact K.
  - apply spawnRandomPowerUp_wf. exact H.
Qed.

Lemma steps_wf : forall os m g,
  Forall (fun o => 0 <= deltaOf o) os ->
  powerUps_wf m -> powerUps_wf (fst (steps os m g)).
Proof.
  induction os as [| o os IH]; intros m g Hos H; cbn [steps].
  - exact H.
  - inversion Hos as [| ? ? Ho Hrest]; subst.
    pose proof (step_wf o m g Ho H) as K.
    destruct (step o m g) as [[m' evs] g']. apply IH; assumption.
Qed.

Lemma instances_le_1 : forall ty m,
  NoDup (map fst (activePowerUps m)) -> (instances ty m <= 1)%nat.
Proof.
  intros ty m. unfold instances.
  induction (activePowerUps m) as [| [k p] rest IH]; intro Hn; cbn [filter fst].
  - cbn. lia.
  - inversion Hn as [| ? ? Hx Hn']; subst.
    destruct (PowerUpType_beq ty k) eqn:E; [|exact (IH Hn')].
    apply PowerUpType_beq_eq in E. subst k.
    assert (Z : instances ty {| availablePowerUps := []; activePowerUps := rest;
                                powerUpCooldowns := [] |} = 0%nat).
    { apply absent_instances. unfold isActivePowerUp.
      apply (map_has_false _ PowerUpType_beq_eq). exact Hx. }
    unfold instances in Z. cbn [activePowerUps] in Z. cbn [List.length]. rewrite Z. lia.
Qed.

End PowerUpInvariant.

(** X8.  After every sequence of calls of [setAvailablePowerUps],
    [activatePowerUp], [update] (with deltas that are not negative) and
    [spawnRandomPowerUp] on a new manager: no type is active twice, every
    active power-up is filed under its own type, is active, carries the
    configuration of the table and has a remaining duration that is
    positive and at most the configured duration; no type has two
    cooldowns and every cooldown is positive. *)
Theorem powerUps_wf_invariant :
  forall (os : list PowerUp.Op) (g : Rng),
    Forall (fun o => 0 <= PowerUp.deltaOf o) os ->
    powerUps_wf (fst (PowerUp.steps os PowerUp.new g))
    /\ forall ty : PowerUpType,
         (instances ty (fst (PowerUp.steps os PowerUp.new g)) <= 1)%nat.
Proof.
  intros os g Hos.
  pose proof (steps_wf os PowerUp.new g Hos new_wf) as H.
  split; [exact H|].
  intro ty. apply instances_le_1. exact (proj1 H).
Qed.

Lemma powerUps_wf_invariant_witness :
  powerUps_wf
    (fst (PowerUp.steps
            [PowerUp.OpSetAvailable [SOUND_SHIELD; MEDITATION_STATE];
             PowerUp.OpSpawn; PowerUp.OpActivate SOUND_SHIELD;
             PowerUp.OpUpdate 5000; PowerUp.OpActivate SOUND_SHIELD;
             PowerUp.OpUpdate 5000]
            PowerUp.new draws1))
  /\ forall ty : PowerUpType,
       (instances ty
          (fst (PowerUp.steps
                  [PowerUp.OpSetAvailable [SOUND_SHIELD; MEDITATION_STATE];
                   PowerUp.OpSpawn; PowerUp.OpActivate SOUND_SHIELD;
                   PowerUp.OpUpdate 5000; PowerUp.OpActivate SOUND_SHIELD;
                   PowerUp.OpUpdate 5000]
                  PowerUp.new draws1)) <= 1)%nat.
Proof.
  apply powerUps_wf_invariant.
  repeat constructor; simpl; lra.
Defined.

Section PowerUpQueries.

Import PowerUp.

Lemma fold_mult_compat : forall (c : PowerUpType * ActivePowerUp -> option Q) a acc acc',
  acc == acc' ->
  fold_left (fun multiplier kv =>
               match c kv with Some r => multiplier * r | None => multiplier end) a acc
  == fold_left (fun multiplier kv =>
                  match c kv with Some r => multiplier * r | None => multiplier end) a acc'.
Proof.
  intros c a. induction a as [| x a IH]; intros acc acc' H; cbn [fold_left].
  - exact H.
  - apply IH. destruct (c x); [rewrite H; reflexivity | exact H].
Qed.

Lemma fold_mult_scale : forall (c : PowerUpType * ActivePowerUp -> option Q) a acc,
  fold_left (fun multiplier kv =>
               match c kv with Some r => multiplier * r | None => multiplier end) a acc
  == acc * fold_left (fun multiplier kv =>
                        match c kv with Some r => multiplier * r | None => multiplier end) a 1.
Proof.
  intros c a. induction a as [| x a IH]; intro acc; cbn [fold_left].
  - ring.
  - rewrite IH. rewrite (IH (match c x with Some r => 1 * r | None => 1 end)).
    destruct (c x); ring.
Qed.

Lemma entry_config : forall k p,
  activeEntry_ok (k, p) -> getPowerUpConfig k = Some (apConfig p).
Proof. intros k p (_ & _ & H & _). exact H. Qed.

Lemma hasTemporaryImmunity_shield : forall m,
  Forall activeEntry_ok (activePowerUps m) ->
  hasTemporaryImmunity m = isActivePowerUp SOUND_SHIELD m.
Proof.
  intros m. unfold hasTemporaryImmunity, isActivePowerUp, map_has.
  induction (activePowerUps m) as [| [k p] rest IH]; intro H; cbn [existsb map_get].
  - reflexivity.
  - inversion H as [| ? ? Hp Hrest]; subst. rewrite (IH Hrest).
    apply entry_config in Hp. cbn [snd].
    destruct k; inversion Hp as [Hc]; try rewrite <- Hc; reflexivity.
Qed.

Lemma cancellation_meditation : forall a,
  NoDup (map fst a) ->
  Forall activeEntry_ok a ->
  fold_left
    (fun multiplier kv =>
       match truthy (noiseCancellationBoost (effect (apConfig (snd kv)))) with
       | Some r => multiplier * r
       | None => multiplier
       end) a 1
  == if map_has PowerUpType_beq MEDITATION_STATE a then 2 else 1.
Proof.
  induction a as [| [k p] rest IH]; intros Hn H; cbn [fold_left].
  - reflexivity.
  - inversion Hn as [| ? ? Hx Hn']; subst.
    inversion H as [| ? ? Hp Hrest]; subst.
    rewrite (fold_mult_scale
               (fun kv => truthy (noiseCancellationBoost (effect (apConfig (snd kv)))))).
    rewrite (IH Hn' Hrest).
    apply entry_config in Hp. cbn [snd].
    apply (map_has_false _ PowerUpType_beq_eq) in Hx.
    unfold map_has in *. cbn [map_get].
    destruct k; inversion Hp as [Hc]; try rewrite <- Hc; cbn;
      try rewrite Hx;
      destruct (map_get PowerUpType_beq MEDITATION_STATE rest); reflexivity.
Qed.

Lemma reduction_product : forall a,
  NoDup (map fst a) ->
  Forall activeEntry_ok a ->
  fold_left
    (fun multiplier kv =>
       match truthy (noiseReduction (effect (apConfig (snd kv)))) with
       | Some r => multiplier * r
       | None => multiplier
       end) a 1
  == (if map_has PowerUpType_beq NOISE_HEADPHONES a then 25 # 100 else 1)
     * (if map_has PowerUpType_beq WHITE_NOISE_MACHINE a then 4 # 10 else 1)
     * (if map_has PowerUpType_beq WINDOW_CONTROL a then 4 # 10 else 1).
Proof.
  induction a as [| [k p] rest IH]; intros Hn H; cbn [fold_left].
  - reflexivity.
  - inversion Hn as [| ? ? Hx Hn']; subst.
    inversion H as [| ? ? Hp Hrest]; subst.
    rewrite (fold_mult_scale
               (fun kv => truthy (noiseReduction (effect (apConfig (snd kv)))))).
    rewrite (IH Hn' Hrest).
    apply entry_config in Hp. cbn [snd].
    apply (map_has_false _ PowerUpType_beq_eq) in Hx.
    unfold map_has in *. cbn [map_get].
    destruct k; inversion Hp as [Hc]; try rewrite <- Hc; cbn;
      try rewrite Hx;
      destruct (map_get PowerUpType_beq NOISE_HEADPHONES rest);
      destruct (map_get PowerUpType_beq WHITE_NOISE_MACHINE rest);
      destruct (map_get PowerUpType_beq WINDOW_CONTROL rest);
      try discriminate; reflexivity.
Qed.

End PowerUpQueries.

(** X9.  What the three queries of the manager answer, in every state the
    manager can be in: there is temporary immunity exactly when the sound
    shield is active; the suppression boost is 2 when the meditation state
    is active and 1 otherwise; the noise reduction is the product of 0.25
    for active headphones, 0.4 for an active white-noise machine and 0.4
    for an active window control, so stacked power-ups multiply.  The
    espresso shot contributes to none of them. *)
Theorem queries_by_active_types :
  forall m : PowerUp.t,
    powerUps_wf m ->
    PowerUp.hasTemporaryImmunity m = PowerUp.isActivePowerUp SOUND_SHIELD m
    /\ PowerUp.getNoiseCancellationMultiplier m == whenActive MEDITATION_STATE m 2
    /\ PowerUp.getNoiseReductionMultiplier m
       == whenActive NOISE_HEADPHONES m (25 # 100)
          * whenActive WHITE_NOISE_MACHINE m (4 # 10)
          * whenActive WINDOW_CONTROL m (4 # 10).
Proof.
  intros m (H1 & H2 & _).
  split; [apply hasTemporaryImmunity_shield; exact H2|].
  split.
  - apply cancellation_meditation; assumption.
  - apply reduction_product; assumption.
Qed.

Lemma queries_by_active_types_witness :
  PowerUp.hasTemporaryImmunity
    (fst (PowerUp.steps
            [PowerUp.OpActivate NOISE_HEADPHONES; PowerUp.OpActivate WINDOW_CONTROL;
             PowerUp.OpActivate ESPRESSO_SHOT] PowerUp.new draws1))
  = PowerUp.isActivePowerUp SOUND_SHIELD
      (fst (PowerUp.steps
              [PowerUp.OpActivate NOISE_HEADPHONES; PowerUp.OpActivate WINDOW_CONTROL;
               PowerUp.OpActivate ESPRESSO_SHOT] PowerUp.new draws1))
  /\ PowerUp.getNoiseCancellationMultiplier
       (fst (PowerUp.steps
               [PowerUp.OpActivate NOISE_HEADPHONES; PowerUp.OpActivate WINDOW_CONTROL;
                PowerUp.OpActivate ESPRESSO_SHOT] PowerUp.new draws1))
     == whenActive MEDITATION_STATE
          (fst (PowerUp.steps
                  [PowerUp.OpActivate NOISE_HEADPHONES; PowerUp.OpActivate WINDOW_CONTROL;
                   PowerUp.OpActivate ESPRESSO_SHOT] PowerUp.new draws1)) 2
  /\ PowerUp.getNoiseReductionMultiplier
       (fst (PowerUp.steps
               [PowerUp.OpActivate NOISE_HEADPHONES; PowerUp.OpActivate WINDOW_CONTROL;
                PowerUp.OpActivate ESPRESSO_SHOT] PowerUp.new draws1))
     == whenActive NOISE_HEADPHONES
          (fst (PowerUp.steps
                  [PowerUp.OpActivate NOISE_HEADPHONES; PowerUp.OpActivate WINDOW_CONTROL;
                   PowerUp.OpActivate ESPRESSO_SHOT] PowerUp.new draws1)) (25 # 100)
        * whenActive WHITE_NOISE_MACHINE
            (fst (PowerUp.steps
                    [PowerUp.OpActivate NOISE_HEADPHONES; PowerUp.OpActivate WINDOW_CONTROL;
                     PowerUp.OpActivate ESPRESSO_SHOT] PowerUp.new draws1)) (4 # 10)
        * whenActive WINDOW_CONTROL
            (fst (PowerUp.steps
                    [PowerUp.OpActivate NOISE_HEADPHONES; PowerUp.OpActivate WINDOW_CONTROL;
                     PowerUp.OpActivate ESPRESSO_SHOT] PowerUp.new draws1)) (4 # 10).
Proof.
  apply queries_by_active_types.
  apply steps_wf; [repeat constructor; simpl; lra | apply new_wf].
Defined.

Section PowerUpTick.

Import PowerUp.

Lemma fold_left_snoc : forall (A B : Type) (f : A -> B -> A) (l : list B) (x : B) (a : A),
  fold_left f (l ++ [x]) a = f (fold_left f l a) x.
Proof. intros A B f l x a. rewrite fold_left_app. reflexivity. Qed.

Lemma updateActives_spec : forall delta a,
  Forall activeEntry_ok a ->
  updateActives delta a
  = (map (ticked delta) (filter (outlasts delta) a),
     map expiredEvent (filter (fun kv => negb (outlasts delta kv)) a)).
Proof.
  intros delta a H. induction H as [| [ty p] rest Hp Hrest IH].
  - reflexivity.
  - cbn [updateActives]. rewrite IH.
    destruct Hp as (P1 & P2 & _). cbn [fst snd] in P1, P2.
    assert (O : outlasts delta (ty, p) = negb (Qle_bool (remainingDuration p - delta) 0))
      by reflexivity.
    unfold updateActive, expire. rewrite P2. cbn [negb remainingDuration apType].
    cbn [filter]. rewrite O.
    destruct (Qle_bool (remainingDuration p - delta) 0);
      cbn [negb isActive map app]; rewrite ?P2; cbn [negb].
    + unfold expiredEvent at 1. cbn [fst]. rewrite P1. reflexivity.
    + unfold ticked. cbn [fst snd]. rewrite P2. reflexivity.
Qed.

Lemma updateCooldowns_get : forall delta c ty,
  NoDup (map fst c) ->
  map_get PowerUpType_beq ty (updateCooldowns delta c)
  = match map_get PowerUpType_beq ty c with
    | Some cd => if Qlt_bool 0 (cd - delta) then Some (cd - delta) else None
    | None => None
    end.
Proof.
  intros delta c ty. induction c as [| [k cd] rest IH]; intro Hn.
  - reflexivity.
  - inversion Hn as [| ? ? Hx Hn']; subst.
    cbn [updateCooldowns map_get]. unfold Qlt_bool.
    destruct (Qle_bool (cd - delta) 0) eqn:E; cbn [negb map_get].
    + destruct (PowerUpType_beq ty k) eqn:Ek; [|exact (IH Hn')].
      apply PowerUpType_beq_eq in Ek. subst k.
      rewrite E. cbn [negb].
      destruct (map_get PowerUpType_beq ty (updateCooldowns delta rest)) as [v |] eqn:G;
        [|reflexivity].
      exfalso. apply Hx.
      destruct (updateCooldowns_wf delta rest Hn') as (_ & _ & K). apply K.
      apply (map_get_In _ PowerUpType_beq_eq) in G.
      change ty with (fst (ty, v)). apply in_map. exact G.
    + destruct (PowerUpType_beq ty k); [rewrite E; reflexivity | exact (IH Hn')].
Qed.

End PowerUpTick.

(** X10.  Activating the espresso shot never fails and changes the answer
    of none of the three queries that the round reads: the noise-reduction
    multiplier, the suppression-boost multiplier and the temporary
    immunity are what they were, whether the activation is accepted (15000
    ms) or rejected.  The slowdown that its configuration carries is read
    by no query. *)
Theorem espresso_changes_no_query :
  forall m : PowerUp.t,
    exists (m' : PowerUp.t) (accepted : bool) (evs : list Event),
      PowerUp.activatePowerUp ESPRESSO_SHOT m = Some (m', accepted, evs)
      /\ accepted = negb (PowerUp.isActivePowerUp ESPRESSO_SHOT m)
      /\ evs = (if accepted then [POWERUP_ACTIVATED ESPRESSO_SHOT 15000] else [])
      /\ PowerUp.isActivePowerUp ESPRESSO_SHOT m' = true
      /\ PowerUp.getNoiseReductionMultiplier m' = PowerUp.getNoiseReductionMultiplier m
      /\ PowerUp.getNoiseCancellationMultiplier m'
         = PowerUp.getNoiseCancellationMultiplier m
      /\ PowerUp.hasTemporaryImmunity m' = PowerUp.hasTemporaryImmunity m.
Proof.
  intro m. unfold PowerUp.activatePowerUp, PowerUp.isActivePowerUp.
  destruct (map_has PowerUpType_beq ESPRESSO_SHOT (PowerUp.activePowerUps m)) eqn:E.
  - exists m, false, []. rewrite E. repeat split.
  - change (PowerUp.getPowerUpConfig ESPRESSO_SHOT)
      with (Some {| PowerUp.type := ESPRESSO_SHOT; PowerUp.duration := 15000;
                    PowerUp.cooldown := 30000;
                    PowerUp.effect :=
                      {| PowerUp.noiseReduction := None;
                         PowerUp.noiseCancellationBoost := None;
                         PowerUp.temporaryImmunity := None;
                         PowerUp.noiseSlowdown := Some (5 # 10);
                         PowerUp.shieldRadius := None |} |}).
    eexists _, true, _. split; [reflexivity|].
    rewrite (map_set_absent PowerUpType_beq _ _ _ E).
    unfold PowerUp.getNoiseReductionMultiplier, PowerUp.getNoiseCancellationMultiplier,
      PowerUp.hasTemporaryImmunity.
    cbn [PowerUp.setActive PowerUp.activePowerUps].
    rewrite !fold_left_snoc, existsb_app.
    unfold map_has.
    rewrite <- (map_set_absent PowerUpType_beq _ _ _ E), (map_get_set_same _ PowerUpType_beq_eq).
    cbn. rewrite orb_false_r. repeat split.
Qed.

(** X11.  One tick of the manager, [update(time, delta)]: the active
    power-ups whose remaining duration exceeds [delta] stay, in their
    order, with [delta] taken off; the others are removed and one expired
    event is emitted for each, in their order; a cooldown that exceeds
    [delta] is reduced by [delta] and the others are removed; the
    available types are not touched. *)
Theorem update_expires_exactly :
  forall (delta : Q) (m : PowerUp.t),
    powerUps_wf m ->
    PowerUp.activePowerUps (fst (PowerUp.update delta m))
    = map (ticked delta) (filter (outlasts delta) (PowerUp.activePowerUps m))
    /\ snd (PowerUp.update delta m)
       = map expiredEvent
           (filter (fun kv => negb (outlasts delta kv)) (PowerUp.activePowerUps m))
    /\ (forall ty : PowerUpType,
          map_get PowerUpType_beq ty (PowerUp.powerUpCooldowns (fst (PowerUp.update delta m)))
          = match map_get PowerUpType_beq ty (PowerUp.powerUpCooldowns m) with
            | Some cd => if Qlt_bool 0 (cd - delta) then Some (cd - delta) else None
            | None => None
            end)
    /\ PowerUp.availablePowerUps (fst (PowerUp.update delta m))
       = PowerUp.availablePowerUps m.
Proof.
  intros delta m (_ & H2 & H3 & _). unfold PowerUp.update.
  rewrite (updateActives_spec delta _ H2).
  cbn [fst snd PowerUp.activePowerUps PowerUp.powerUpCooldowns PowerUp.availablePowerUps].
  split; [reflexivity|]. split; [reflexivity|]. split; [|reflexivity].
  intro ty. apply updateCooldowns_get. exact H3.
Qed.

Lemma update_expires_exactly_witness :
  PowerUp.activePowerUps
    (fst (PowerUp.update 9000
            (fst (PowerUp.steps
                    [PowerUp.OpActivate SOUND_SHIELD; PowerUp.OpActivate MEDITATION_STATE]
                    PowerUp.new draws1))))
  = map (ticked 9000)
      (filter (outlasts 9000)
         (PowerUp.activePowerUps
            (fst (PowerUp.steps
                    [PowerUp.OpActivate SOUND_SHIELD; PowerUp.OpActivate MEDITATION_STATE]
                    PowerUp.new draws1))))
  /\ snd (PowerUp.update 9000
            (fst (PowerUp.steps
                    [PowerUp.OpActivate SOUND_SHIELD; PowerUp.OpActivate MEDITATION_STATE]
                    PowerUp.new draws1)))
     = map expiredEvent
         (filter (fun kv => negb (outlasts 9000 kv))
            (PowerUp.activePowerUps
               (fst (PowerUp.steps
                       [PowerUp.OpActivate SOUND_SHIELD; PowerUp.OpActivate MEDITATION_STATE]
                       PowerUp.new draws1)))).
Proof.
  refine ((fun H => conj (proj1 H) (proj1 (proj2 H)))
            (update_expires_exactly 9000
               (fst (PowerUp.steps
                       [PowerUp.OpActivate SOUND_SHIELD; PowerUp.OpActivate MEDITATION_STATE]
                       PowerUp.new draws1)) _)).
  apply steps_wf; [repeat constructor; simpl; lra | apply new_wf].
Defined.

Section PowerUpSpawn.

Import PowerUp.

Lemma random_index : forall (u : Q) (n : nat),
  0 <= u -> u < 1 -> (0 < n)%nat ->
  (Z.to_nat (Qfloor (u * inject_Z (Z.of_nat n))) < n)%nat.
Proof.
  intros u n H0 H1 Hn.
  assert (Hpos : 0 < inject_Z (Z.of_nat n)).
  { change 0 with (inject_Z 0). rewrite <- Zlt_Qlt. lia. }
  assert (Hlo : (0 <= Qfloor (u * inject_Z (Z.of_nat n)))%Z).
  { rewrite <- (Qfloor_Z 0). apply Qfloor_resp_le.
    change (inject_Z 0) with 0. apply Qmult_le_0_compat; lra. }
  assert (Hhi : (Qfloor (u * inject_Z (Z.of_nat n)) < Z.of_nat n)%Z).
  { rewrite Zlt_Qlt. eapply Qle_lt_trans; [apply Qfloor_le|].
    assert (u * inject_Z (Z.of_nat n) < 1 * inject_Z (Z.of_nat n))
      by (apply Qmult_lt_compat_r; lra).
    lra. }
  lia.
Qed.

Lemma spawnable_off_cooldown : forall m ty,
  Forall (fun kc => 0 < snd kc) (powerUpCooldowns m) ->
  In ty (spawnable m) ->
  In ty (availablePowerUps m)
  /\ map_has PowerUpType_beq ty (powerUpCooldowns m) = false.
Proof.
  intros m ty H Hin. unfold spawnable in Hin. apply filter_In in Hin.
  destruct Hin as [Ha Hc]. split; [exact Ha|].
  unfold map_has in *.
  destruct (map_get PowerUpType_beq ty (powerUpCooldowns m)) as [c |] eqn:G;
    [|reflexivity].
  cbn [negb orb] in Hc. apply Qle_bool_iff in Hc.
  apply (map_get_In _ PowerUpType_beq_eq) in G.
  rewrite Forall_forall in H. specialize (H _ G). cbn [snd] in H. lra.
Qed.

End PowerUpSpawn.

(** X12.  [spawnRandomPowerUp] with a fair random source.  When no
    available type is off cooldown nothing happens and no random number is
    drawn.  Otherwise one power-up is spawned: its type is an available
    type that has no cooldown, the cooldown of the table is set for it,
    one spawned event is emitted, nothing else in the manager changes, and
    the type cannot be spawned again until that cooldown has run out. *)
Theorem spawn_picks_type_off_cooldown :
  forall (m : PowerUp.t) (g : Rng),
    fair g ->
    powerUps_wf m ->
    (PowerUp.spawnable m = [] -> PowerUp.spawnRandomPowerUp m g = (m, [], g))
    /\ (PowerUp.spawnable m <> [] ->
        exists (ty : PowerUpType) (cfg : PowerUp.PowerUpConfig),
          In ty (PowerUp.availablePowerUps m)
          /\ map_has PowerUpType_beq ty (PowerUp.powerUpCooldowns m) = false
          /\ PowerUp.getPowerUpConfig ty = Some cfg
          /\ fst (fst (PowerUp.spawnRandomPowerUp m g))
             = PowerUp.setCooldowns m
                 (PowerUp.powerUpCooldowns m ++ [(ty, PowerUp.cooldown cfg)])
          /\ snd (fst (PowerUp.spawnRandomPowerUp m g)) = [POWERUP_SPAWNED ty]
          /\ ~ In ty (PowerUp.spawnable (fst (fst (PowerUp.spawnRandomPowerUp m g))))).
Proof.
  intros m g Hf (_ & _ & H3 & H4 & _). split.
  - intro E. unfold PowerUp.spawnRandomPowerUp. rewrite E.
    destruct (PowerUp.availablePowerUps m); reflexivity.
  - intro Hne. unfold PowerUp.spawnRandomPowerUp.
    destruct (PowerUp.availablePowerUps m) as [| a0 rest0] eqn:Ea.
    { exfalso. apply Hne. unfold PowerUp.spawnable. rewrite Ea. reflexivity. }
    rewrite <- Ea.
    destruct (PowerUp.spawnable m) as [| t0 ts] eqn:Es; [contradiction|].
    rewrite <- Es. cbn [Math_random].
    destruct (Hf (next g)) as [U0 U1].
    assert (Hi : (Z.to_nat (Qfloor (draws g (next g)
                                     * inject_Z (Z.of_nat (List.length (PowerUp.spawnable m)))))
                  < List.length (PowerUp.spawnable m))%nat).
    { apply random_index; try assumption. rewrite Es. cbn. lia. }
    apply nth_error_Some in Hi.
    destruct (nth_error (PowerUp.spawnable m) _) as [ty |] eqn:En; [|contradiction].
    apply nth_error_In in En.
    destruct (spawnable_off_cooldown m ty H4 En) as [Hav Hcd].
    destruct (getPowerUpConfig_total ty) as (cfg & Hc & _).
    rewrite Hc. cbn [fst snd].
    rewrite (map_set_absent PowerUpType_beq _ _ _ Hcd).
    exists ty, cfg. repeat split; try assumption.
    unfold PowerUp.spawnable.
    cbn [PowerUp.setCooldowns PowerUp.powerUpCooldowns PowerUp.availablePowerUps].
    intro Hin. apply filter_In in Hin. destruct Hin as [_ Hcond].
    rewrite <- (map_set_absent PowerUpType_beq _ _ _ Hcd) in Hcond.
    unfold map_has in Hcond.
    rewrite (map_get_set_same _ PowerUpType_beq_eq) in Hcond.
    cbn [negb orb] in Hcond. apply Qle_bool_iff in Hcond.
    destruct (config_positive ty cfg Hc) as [_ Hpos]. lra.
Qed.

Lemma spawn_picks_type_off_cooldown_witness :
  exists (ty : PowerUpType) (cfg : PowerUp.PowerUpConfig),
    In ty (PowerUp.availablePowerUps
             (PowerUp.setAvailablePowerUps [ESPRESSO_SHOT; SOUND_SHIELD] PowerUp.new))
    /\ map_has PowerUpType_beq ty
         (PowerUp.powerUpCooldowns
            (PowerUp.setAvailablePowerUps [ESPRESSO_SHOT; SOUND_SHIELD] PowerUp.new))
       = false
    /\ PowerUp.getPowerUpConfig ty = Some cfg
    /\ fst (fst (PowerUp.spawnRandomPowerUp
                   (PowerUp.setAvailablePowerUps [ESPRESSO_SHOT; SOUND_SHIELD] PowerUp.new)
                   draws1))
       = PowerUp.setCooldowns
           (PowerUp.setAvailablePowerUps [ESPRESSO_SHOT; SOUND_SHIELD] PowerUp.new)
           (PowerUp.powerUpCooldowns
              (PowerUp.setAvailablePowerUps [ESPRESSO_SHOT; SOUND_SHIELD] PowerUp.new)
            ++ [(ty, PowerUp.cooldown cfg)])
    /\ snd (fst (PowerUp.spawnRandomPowerUp
                   (PowerUp.setAvailablePowerUps [ESPRESSO_SHOT; SOUND_SHIELD] PowerUp.new)
                   draws1))
       = [POWERUP_SPAWNED ty]
    /\ ~ In ty
           (PowerUp.spawnable
              (fst (fst (PowerUp.spawnRandomPowerUp
                           (PowerUp.setAvailablePowerUps [ESPRESSO_SHOT; SOUND_SHIELD]
                              PowerUp.new)
                           draws1)))).
Proof.
  refine (proj2 (spawn_picks_type_off_cooldown
                   (PowerUp.setAvailablePowerUps [ESPRESSO_SHOT; SOUND_SHIELD] PowerUp.new)
                   draws1 draws1_fair _) _).
  - apply setAvailablePowerUps_wf. apply new_wf.
  - vm_compute. discriminate.
Defined.

(** ** The ambient noise sources: scheduling, events and the total level *)

(** X13.  A noise source with a positive frequency, with a fair random
    source, schedules its next activation at the clock plus a delay that
    depends on its pattern: for the random pattern the delay lies between
    0.5 and 1.5 times [60000 / frequency], for the scheduled pattern it is
    [60000 / frequency], for the reactive pattern 30000 ms and for the
    continuous pattern it lies between 2000 and 5000 ms, the bounds
    included.  Scheduling touches nothing else of the source. *)
Theorem next_activation_delay_by_pattern :
  forall (now : Q) (ns : NoiseSource.t) (g : Rng),
    fair g ->
    0 < NoiseSource.frequency (NoiseSource.config ns) ->
    let ns' := fst (NoiseSource.scheduleNextActivation now ns g) in
    let period := 60000 / NoiseSource.frequency (NoiseSource.config ns) in
    (exists delay : Q,
       NoiseSource.nextActivationTime ns' = now + delay
       /\ match NoiseSource.pattern (NoiseSource.config ns) with
          | random => period * (1 # 2) <= delay /\ delay <= period * (3 # 2)
          | scheduled => delay = period
          | reactive => delay = 30000
          | continuous => 2000 <= delay /\ delay <= 5000
          end)
    /\ NoiseSource.isActive ns' = NoiseSource.isActive ns
    /\ NoiseSource.currentEventEndTime ns' = NoiseSource.currentEventEndTime ns
    /\ NoiseSource.config ns' = NoiseSource.config ns.
Proof.
  intros now ns g Hf Hfreq ns' period. subst ns' period.
  unfold NoiseSource.scheduleNextActivation.
  destruct (Hf (next g)) as [U0 U1].
  assert (Hp : 0 < 60000 / NoiseSource.frequency (NoiseSource.config ns)).
  { apply Qlt_shift_div_l; [exact Hfreq | lra]. }
  destruct (NoiseSource.pattern (NoiseSource.config ns));
    cbn [Math_random fst NoiseSource.nextActivationTime NoiseSource.isActive
         NoiseSource.currentEventEndTime NoiseSource.config];
    (split; [eexists; split; [reflexivity|] | repeat split]).
  - set (p := 60000 / NoiseSource.frequency (NoiseSource.config ns)) in *.
    set (u := draws g (next g)) in *. split.
    + assert (0 <= p * u) by (apply Qmult_le_0_compat; lra).
      ring_simplify. lra.
    + assert (p * u < p * 1) by (apply Qmult_lt_l; lra).
      ring_simplify. lra.
  - reflexivity.
  - reflexivity.
  - set (u := draws g (next g)) in *. split; lra.
Qed.

Lemma next_activation_delay_by_pattern_witness :
  exists delay : Q,
    NoiseSource.nextActivationTime
      (fst (NoiseSource.scheduleNextActivation 500
              (fst (NoiseSource.new 0 traffic_horns draws1)) draws1))
    = 500 + delay
    /\ (60000 / 3) * (1 # 2) <= delay /\ delay <= (60000 / 3) * (3 # 2).
Proof.
  refine (proj1 (next_activation_delay_by_pattern 500
                   (fst (NoiseSource.new 0 traffic_horns draws1)) draws1 draws1_fair _)).
  reflexivity.
Defined.

Section SourceEvents.

Import NoiseSource.

Lemma scheduleNextActivation_fields : forall now ns g,
  isActive (fst (scheduleNextActivation now ns g)) = isActive ns
  /\ currentEventEndTime (fst (scheduleNextActivation now ns g)) = currentEventEndTime ns
  /\ config (fst (scheduleNextActivation now ns g)) = config ns
  /\ active (fst (scheduleNextActivation now ns g)) = active ns.
Proof.
  intros now ns g. unfold scheduleNextActivation.
  destruct (pattern (config ns)); cbn [Math_random fst isActive currentEventEndTime config active];
    repeat split.
Qed.

Lemma alternating_app : forall i a evs1 evs2,
  alternating i a (evs1 ++ evs2)
  = alternating i a evs1 && alternating i (activeAfter a evs1) evs2.
Proof.
  intros i a evs1. revert a.
  induction evs1 as [| e evs1 IH]; intros a evs2; cbn [app alternating activeAfter].
  - reflexivity.
  - destruct e; try reflexivity; rewrite IH, !andb_assoc; reflexivity.
Qed.

Lemma activeAfter_app : forall a evs1 evs2,
  activeAfter a (evs1 ++ evs2) = activeAfter (activeAfter a evs1) evs2.
Proof.
  intros a evs1. revert a.
  induction evs1 as [| e evs1 IH]; intros a evs2; cbn [app activeAfter].
  - reflexivity.
  - destruct e; apply IH.
Qed.

Lemma update_alternating : forall time now ns g,
  alternating (id (config ns)) (isActive ns) (snd (fst (update time now ns g))) = true
  /\ isActive (fst (fst (update time now ns g)))
     = activeAfter (isActive ns) (snd (fst (update time now ns g)))
  /\ config (fst (fst (update time now ns g))) = config ns.
Proof.
  intros time now ns g. unfold update.
  destruct (negb (active ns)); [repeat split|].
  destruct (isActive ns) eqn:Ea; rewrite ?andb_false_r; cbn [negb andb].
  - rewrite Ea. cbn [andb].
    destruct (Qle_bool (currentEventEndTime ns) time);
      cbn [deactivate fst snd app alternating activeAfter isActive config];
      rewrite ?String.eqb_refl; repeat split; auto.
  - destruct (Qle_bool (nextActivationTime ns) time); cbn [andb].
    + unfold activate. cbn [Math_random].
      match goal with |- context [scheduleNextActivation now ?ns1 ?g1] =>
        destruct (scheduleNextActivation_fields now ns1 g1) as (F1 & F2 & F3 & F4);
        destruct (scheduleNextActivation now ns1 g1) as [ns2 g2]
      end.
      cbn [fst isActive config currentEventEndTime] in F1, F2, F3, F4.
      rewrite F1. cbn [andb].
      destruct (Qle_bool (currentEventEndTime ns2) time);
        cbn [deactivate fst snd app alternating activeAfter isActive config];
        rewrite ?F3, ?F1, ?String.eqb_refl; repeat split; auto.
    + rewrite Ea. cbn [andb fst snd alternating activeAfter]. repeat split; auto.
Qed.

Lemma updates_alternating : forall times ns g,
  alternating (id (config ns)) (isActive ns) (snd (fst (updates times ns g))) = true
  /\ isActive (fst (fst (updates times ns g)))
     = activeAfter (isActive ns) (snd (fst (updates times ns g)))
  /\ config (fst (fst (updates times ns g))) = config ns.
Proof.
  induction times as [| time rest IH]; intros ns g; cbn [updates].
  - repeat split.
  - destruct (update_alternating time time ns g) as (A1 & A2 & A3).
    destruct (update time time ns g) as [[ns1 evs1] g1]. cbn [fst snd] in A1, A2, A3.
    destruct (IH ns1 g1) as (B1 & B2 & B3).
    destruct (updates rest ns1 g1) as [[ns2 evs2] g2]. cbn [fst snd] in B1, B2, B3 |- *.
    rewrite alternating_app, activeAfter_app, A1, <- A2, <- A3, B1, B2, B3.
    repeat split.
Qed.

End SourceEvents.

(** X14.  Over any sequence of frames, the events of a noise source are
    start and stop events that carry the id of the source and alternate,
    beginning with a start when the source was idle: it is never started
    twice without a stop between, and never stopped while idle.  The
    source is active at the end exactly when its last event is a start. *)
Theorem source_events_alternate :
  forall (times : list Q) (ns : NoiseSource.t) (g : Rng),
    alternating (NoiseSource.id (NoiseSource.config ns)) (NoiseSource.isActive ns)
      (snd (fst (NoiseSource.updates times ns g))) = true
    /\ NoiseSource.isCurrentlyActive (fst (fst (NoiseSource.updates times ns g)))
       = activeAfter (NoiseSource.isActive ns) (snd (fst (NoiseSource.updates times ns g))).
Proof.
  intros times ns g.
  destruct (updates_alternating times ns g) as (A1 & A2 & _).
  split; assumption.
Qed.

Section TotalNoise.

Import NoiseSourceManager.

Lemma fold_add_compat : forall (A : Type) (f : A -> Q) (l : list A) (acc acc' : Q),
  acc == acc' ->
  fold_left (fun total x => total + f x) l acc
  == fold_left (fun total x => total + f x) l acc'.
Proof.
  intros A f l. induction l as [| x l IH]; intros acc acc' H; cbn [fold_left].
  - exact H.
  - apply IH. rewrite H. reflexivity.
Qed.

Lemma total_is_sum_from : forall (l : list (string * NoiseSource.t)) (acc : Q),
  fold_left (fun totalNoise kv => totalNoise + NoiseSource.getIntensity (snd kv)) l acc
  == fold_left
       (fun total ns => total + NoiseSource.intensity (NoiseSource.config ns))
       (filter NoiseSource.isCurrentlyActive (map snd l)) acc.
Proof.
  induction l as [| [k ns] l IH]; intro acc; cbn [fold_left map filter snd].
  - reflexivity.
  - change (NoiseSource.isCurrentlyActive ns) with (NoiseSource.isActive ns).
    destruct (NoiseSource.isActive ns) eqn:E; cbn [fold_left]; rewrite <- IH;
      apply (fold_add_compat _ (fun kv => NoiseSource.getIntensity (snd kv)));
      unfold NoiseSource.getIntensity; rewrite E; ring.
Qed.

Lemma sum_nonneg_from : forall (l : list NoiseSource.t) (acc : Q),
  Forall (fun ns => 0 <= NoiseSource.intensity (NoiseSource.config ns)) l ->
  0 <= acc ->
  0 <= fold_left
         (fun total ns => total + NoiseSource.intensity (NoiseSource.config ns)) l acc.
Proof.
  induction l as [| ns l IH]; intros acc H Hacc; cbn [fold_left].
  - exact Hacc.
  - inversion H as [| ? ? Hns Hl]; subst. apply IH; [exact Hl | lra].
Qed.

End TotalNoise.

(** X15.  The total noise level of the manager is the sum of the
    configured intensities of the sources that [getActiveNoiseSources]
    returns: idle sources count 0.  It is 0 when no source is active, and
    it is not negative when no active source has a negative intensity. *)
Theorem total_noise_is_sum_of_active :
  forall m : NoiseSourceManager.t,
    NoiseSourceManager.getTotalNoiseLevel m
    == sumIntensity (NoiseSourceManager.getActiveNoiseSources m)
    /\ (NoiseSourceManager.getActiveNoiseSources m = [] ->
        NoiseSourceManager.getTotalNoiseLevel m == 0)
    /\ (Forall (fun ns => 0 <= NoiseSource.intensity (NoiseSource.config ns))
          (NoiseSourceManager.getActiveNoiseSources m) ->
        0 <= NoiseSourceManager.getTotalNoiseLevel m).
Proof.
  intro m.
  assert (E : NoiseSourceManager.getTotalNoiseLevel m
              == sumIntensity (NoiseSourceManager.getActiveNoiseSources m))
    by apply total_is_sum_from.
  split; [exact E|]. split.
  - intro H. rewrite E, H. reflexivity.
  - intro H. rewrite E. apply sum_nonneg_from; [exact H | lra].
Qed.

(** X16.  Forcing a source.  [forceActivate] leaves an active source as it
    is; on an idle source that takes part in the frames it makes the next
    frame whose time is the clock of the call or later start the source:
    that frame emits the start event of the source first.  [forceActivateSource(id)] of the
    manager answers whether the id is known; an unknown id changes
    nothing, a known one forces that source in place and touches no other
    source. *)
Theorem force_activate_starts_source :
  forall (now time later : Q) (ns : NoiseSource.t) (g : Rng)
         (sourceId : string) (m : NoiseSourceManager.t),
    (NoiseSource.isActive ns = true -> NoiseSource.forceActivate now ns = ns)
    /\ (NoiseSource.active ns = true -> NoiseSource.isActive ns = false ->
        now <= time ->
        exists rest,
          snd (fst (NoiseSource.update time later (NoiseSource.forceActivate now ns) g))
          = NOISE_SOURCE_START (NoiseSource.id (NoiseSource.config ns))
              (NoiseSource.intensity (NoiseSource.config ns))
              (NoiseSource.type (NoiseSource.config ns)) :: rest)
    /\ snd (NoiseSourceManager.forceActivateSource now sourceId m)
       = map_has String.eqb sourceId (NoiseSourceManager.noiseSources m)
    /\ (map_has String.eqb sourceId (NoiseSourceManager.noiseSources m) = false ->
        fst (NoiseSourceManager.forceActivateSource now sourceId m) = m)
    /\ (forall source,
          map_get String.eqb sourceId (NoiseSourceManager.noiseSources m) = Some source ->
          map_get String.eqb sourceId
            (NoiseSourceManager.noiseSources
               (fst (NoiseSourceManager.forceActivateSource now sourceId m)))
          = Some (NoiseSource.forceActivate now source)
          /\ forall other, other <> sourceId ->
               map_get String.eqb other
                 (NoiseSourceManager.noiseSources
                    (fst (NoiseSourceManager.forceActivateSource now sourceId m)))
               = map_get String.eqb other (NoiseSourceManager.noiseSources m)).
Proof.
  intros now time later ns g sourceId m.
  split; [|split; [|split; [|split]]].
  - intro H. unfold NoiseSource.forceActivate. rewrite H. reflexivity.
  - intros Ha Hi Ht. unfold NoiseSource.forceActivate. rewrite Hi. cbn [negb].
    unfold NoiseSource.update.
    cbn [NoiseSource.active NoiseSource.nextActivationTime NoiseSource.isActive].
    rewrite ?Ha, ?Hi. cbn [negb].
    assert (E : Qle_bool now time = true) by (apply Qle_bool_iff; exact Ht).
    rewrite E. cbn [andb].
    unfold NoiseSource.activate. cbn [Math_random NoiseSource.config].
    destruct (NoiseSource.scheduleNextActivation _ _ _) as [ns2 g2].
    destruct (NoiseSource.isActive ns2 && _); cbn [fst snd app]; eexists; reflexivity.
  - unfold NoiseSourceManager.forceActivateSource, map_has.
    destruct (map_get String.eqb sourceId (NoiseSourceManager.noiseSources m));
      reflexivity.
  - unfold NoiseSourceManager.forceActivateSource, map_has.
    destruct (map_get String.eqb sourceId (NoiseSourceManager.noiseSources m));
      [discriminate | reflexivity].
  - intros source H. unfold NoiseSourceManager.forceActivateSource. rewrite H.
    cbn [fst NoiseSourceManager.noiseSources]. split.
    + apply (map_get_set_same _ String.eqb_eq).
    + intros other Ho. apply (map_get_set_other _ String.eqb_eq). congruence.
Qed.

(** ** The event bus *)

Section MapLaws2.

Context {K V : Type}.
Variable eqb : K -> K -> bool.
Hypothesis eqb_eq : forall a b : K, eqb a b = true <-> a = b.

Lemma map_set_set : forall (k : K) (v v' : V) (m : list (K * V)),
  map_set eqb k v (map_set eqb k v' m) = map_set eqb k v m.
Proof.
  intros k v v' m. induction m as [| [k1 v1] m IH]; simpl.
  - rewrite (eqb_refl' _ eqb_eq). reflexivity.
  - destruct (eqb k k1) eqn:E; simpl.
    + rewrite (eqb_refl' _ eqb_eq). reflexivity.
    + rewrite E, IH. reflexivity.
Qed.

Lemma map_delete_set_absent : forall (k : K) (v : V) (m : list (K * V)),
  map_get eqb k m = None -> map_delete eqb k (map_set eqb k v m) = m.
Proof.
  intros k v m. induction m as [| [k1 v1] m IH]; simpl.
  - rewrite (eqb_refl' _ eqb_eq). reflexivity.
  - destruct (eqb k k1) eqn:E; [discriminate|]. simpl. rewrite E.
    intro H. rewrite IH by exact H. reflexivity.
Qed.

Lemma map_get_None_keys : forall (k : K) (m : list (K * V)),
  map_get eqb k m = None <-> ~ In k (map fst m).
Proof.
  intros k m. rewrite <- (map_has_false _ eqb_eq). unfold map_has.
  destruct (map_get eqb k m); split; intro H; congruence.
Qed.

Lemma map_get_Forall : forall (P : K * V -> Prop) (k : K) (v : V) (m : list (K * V)),
  Forall P m -> map_get eqb k m = Some v -> P (k, v).
Proof.
  intros P k v m H G. apply (map_get_In _ eqb_eq) in G.
  rewrite Forall_forall in H. exact (H _ G).
Qed.

End MapLaws2.

Section BusLaws.

Import EventBus.

Lemma on_is_set : forall event callback b,
  on event callback b = map_set String.eqb event (emit event b ++ [callback]) b.
Proof.
  intros event callback b. unfold on, emit, map_has.
  destruct (map_get String.eqb event b) as [cbs |] eqn:G; cbn [negb].
  - rewrite G. reflexivity.
  - rewrite (map_get_set_same _ String.eqb_eq).
    apply (map_set_set _ String.eqb_eq).
Qed.

Lemma removeFirst_absent : forall callback callbacks,
  ~ In callback callbacks -> removeFirst callback callbacks = callbacks.
Proof.
  intros callback callbacks. induction callbacks as [| c rest IH]; intro H; simpl.
  - reflexivity.
  - destruct (Nat.eqb callback c) eqn:E.
    + apply Nat.eqb_eq in E. subst c. exfalso. apply H. left. reflexivity.
    + rewrite IH; [reflexivity|]. intro Hr. apply H. right. exact Hr.
Qed.

Lemma removeFirst_snoc : forall callback callbacks,
  ~ In callback callbacks -> removeFirst callback (callbacks ++ [callback]) = callbacks.
Proof.
  intros callback callbacks. induction callbacks as [| c rest IH]; intro H; simpl.
  - rewrite Nat.eqb_refl. reflexivity.
  - destruct (Nat.eqb callback c) eqn:E.
    + apply Nat.eqb_eq in E. subst c. exfalso. apply H. left. reflexivity.
    + rewrite IH; [reflexivity|]. intro Hr. apply H. right. exact Hr.
Qed.

Lemma on_wf : forall event callback b, bus_wf b -> bus_wf (on event callback b).
Proof.
  intros event callback b [H1 H2]. rewrite on_is_set. split.
  - apply (map_set_keys_NoDup _ String.eqb_eq). exact H1.
  - apply map_set_Forall; [|exact H2]. cbn [snd].
    destruct (emit event b); discriminate.
Qed.

Lemma off_wf : forall event callback b, bus_wf b -> bus_wf (off event callback b).
Proof.
  intros event callback b [H1 H2]. unfold off.
  destruct (map_get String.eqb event b) as [cbs |]; [|split; assumption].
  destruct (removeFirst callback cbs) as [| c rest] eqn:E.
  - split; [apply map_delete_keys_NoDup | apply map_delete_Forall]; assumption.
  - split.
    + apply (map_set_keys_NoDup _ String.eqb_eq). exact H1.
    + apply map_set_Forall; [discriminate | exact H2].
Qed.

Lemma steps_bus_wf : forall os b, bus_wf b -> bus_wf (steps os b).
Proof.
  unfold steps. induction os as [| o os IH]; intros b H; cbn [fold_left].
  - exact H.
  - apply IH. destruct o; cbn [step].
    + apply on_wf. exact H.
    + apply off_wf. exact H.
    + split; constructor.
Qed.

End BusLaws.

(** X17.  After every sequence of [on], [off] and [clear] calls on an
    empty bus, no event name is registered twice and no registered event
    has an empty list of callbacks, so that an event has subscribers
    exactly when it is one of the registered event names, and [emit] of
    an event calls someone exactly then. *)
Theorem bus_registers_subscribed_events :
  forall (os : list EventBus.Op) (event : string),
    let b := EventBus.steps os EventBus.empty in
    bus_wf b
    /\ (EventBus.hasSubscribers event b = true <-> In event (EventBus.getEventNames b))
    /\ (EventBus.emit event b <> [] <-> In event (EventBus.getEventNames b))
    /\ EventBus.getSubscriberCount event b = List.length (EventBus.emit event b).
Proof.
  intros os event b.
  assert (W : bus_wf b) by (apply steps_bus_wf; split; constructor).
  split; [exact W|].
  destruct W as [H1 H2].
  unfold EventBus.hasSubscribers, EventBus.getSubscriberCount, EventBus.emit,
    EventBus.getEventNames.
  rewrite <- (map_has_In _ String.eqb_eq). unfold map_has.
  destruct (map_get String.eqb event b) as [cbs |] eqn:G.
  - pose proof (map_get_Forall _ String.eqb_eq _ _ _ _ H2 G) as Hne. cbn [snd] in Hne.
    destruct cbs as [| c rest]; [contradiction|].
    repeat split; auto; try discriminate.
  - repeat split; auto; try discriminate; try contradiction.
Qed.

(** X18.  Subscribing: after [on(event, callback)] an [emit] of the event
    calls the callbacks it called before, in their order, and then the new
    one (a callback subscribed twice is called twice); the number of
    subscribers of the event grows by one; the subscribers of every other
    event are what they were. *)
Theorem on_appends_subscriber :
  forall (event : string) (callback : EventBus.Callback) (b : EventBus.t),
    EventBus.emit event (EventBus.on event callback b)
    = EventBus.emit event b ++ [callback]
    /\ EventBus.getSubscriberCount event (EventBus.on event callback b)
       = S (EventBus.getSubscriberCount event b)
    /\ EventBus.hasSubscribers event (EventBus.on event callback b) = true
    /\ forall other : string,
         other <> event ->
         EventBus.emit other (EventBus.on event callback b) = EventBus.emit other b.
Proof.
  intros event callback b. rewrite on_is_set.
  assert (E : EventBus.emit event
                (map_set String.eqb event (EventBus.emit event b ++ [callback]) b)
              = EventBus.emit event b ++ [callback]).
  { unfold EventBus.emit at 1. rewrite (map_get_set_same _ String.eqb_eq). reflexivity. }
  assert (C : EventBus.getSubscriberCount event
                (map_set String.eqb event (EventBus.emit event b ++ [callback]) b)
              = S (EventBus.getSubscriberCount event b)).
  { unfold EventBus.getSubscriberCount at 1.
    rewrite (map_get_set_same _ String.eqb_eq), length_app. cbn [List.length].
    unfold EventBus.getSubscriberCount, EventBus.emit.
    destruct (map_get String.eqb event b); cbn [List.length]; lia. }
  split; [exact E|]. split; [exact C|]. split.
  - unfold EventBus.hasSubscribers. rewrite C. reflexivity.
  - intros other H. unfold EventBus.emit at 1 3.
    rewrite (map_get_set_other _ String.eqb_eq) by congruence. reflexivity.
Qed.

(** X19.  Unsubscribing, on a bus as the calls leave it.  After
    [off(event, callback)] an [emit] of the event calls the callbacks it
    called before without the first occurrence of the callback; a
    callback that is not subscribed is ignored; the subscribers of every
    other event are what they were.  [off] undoes [on]: subscribing a
    callback that was not subscribed to the event and unsubscribing it
    gives the bus back, the event name included. *)
Theorem off_removes_first_occurrence :
  forall (event : string) (callback : EventBus.Callback) (b : EventBus.t),
    bus_wf b ->
    EventBus.emit event (EventBus.off event callback b)
    = EventBus.removeFirst callback (EventBus.emit event b)
    /\ (~ In callback (EventBus.emit event b) -> EventBus.off event callback b = b)
    /\ (forall other : string,
          other <> event ->
          EventBus.emit other (EventBus.off event callback b) = EventBus.emit other b)
    /\ (~ In callback (EventBus.emit event b) ->
        EventBus.off event callback (EventBus.on event callback b) = b).
Proof.
  intros event callback b [H1 H2].
  split; [|split; [|split]].
  - unfold EventBus.off, EventBus.emit.
    destruct (map_get String.eqb event b) as [cbs |] eqn:G; [|rewrite G; reflexivity].
    destruct (EventBus.removeFirst callback cbs) as [| c rest].
    + rewrite (map_get_delete_same _ String.eqb_eq) by exact H1. reflexivity.
    + rewrite (map_get_set_same _ String.eqb_eq). reflexivity.
  - intro Hn. unfold EventBus.off, EventBus.emit in *.
    destruct (map_get String.eqb event b) as [cbs |] eqn:G; [|reflexivity].
    rewrite (removeFirst_absent _ _ Hn).
    pose proof (map_get_Forall _ String.eqb_eq _ _ _ _ H2 G) as Hne. cbn [snd] in Hne.
    destruct cbs as [| c rest]; [contradiction|].
    apply (map_set_same_value _ String.eqb_eq). exact G.
  - intros other Ho. unfold EventBus.off, EventBus.emit.
    destruct (map_get String.eqb event b) as [cbs |] eqn:G; [|reflexivity].
    destruct (EventBus.removeFirst callback cbs) as [| c rest].
    + rewrite (map_get_delete_other _ String.eqb_eq) by congruence. reflexivity.
    + rewrite (map_get_set_other _ String.eqb_eq) by congruence. reflexivity.
  - intro Hn. rewrite on_is_set. unfold EventBus.off.
    rewrite (map_get_set_same _ String.eqb_eq), (removeFirst_snoc _ _ Hn).
    unfold EventBus.emit in *.
    destruct (map_get String.eqb event b) as [cbs |] eqn:G.
    + pose proof (map_get_Forall _ String.eqb_eq _ _ _ _ H2 G) as Hne. cbn [snd] in Hne.
      destruct cbs as [| c rest]; [contradiction|].
      rewrite (map_set_set _ String.eqb_eq).
      apply (map_set_same_value _ String.eqb_eq). exact G.
    + apply (map_delete_set_absent _ String.eqb_eq). exact G.
Qed.

Lemma off_removes_first_occurrence_witness :
  EventBus.emit "tv:turn_on"
    (EventBus.off "tv:turn_on" 1%nat
       (EventBus.steps
          [EventBus.OpOn "tv:turn_on" 1%nat; EventBus.OpOn "tv:turn_on" 2%nat;
           EventBus.OpOn "tv:turn_on" 1%nat]
          EventBus.empty))
  = EventBus.removeFirst 1%nat
      (EventBus.emit "tv:turn_on"
         (EventBus.steps
            [EventBus.OpOn "tv:turn_on" 1%nat; EventBus.OpOn "tv:turn_on" 2%nat;
             EventBus.OpOn "tv:turn_on" 1%nat]
            EventBus.empty)).
Proof.
  refine (proj1 (off_removes_first_occurrence "tv:turn_on" 1%nat
                   (EventBus.steps
                      [EventBus.OpOn "tv:turn_on" 1%nat; EventBus.OpOn "tv:turn_on" 2%nat;
                       EventBus.OpOn "tv:turn_on" 1%nat]
                      EventBus.empty) _)).
  apply steps_bus_wf. split; constructor.
Defined.

(** ** The level manager: progress and unlocking *)

Section LevelLaws.

Import LevelManager.

Lemma isLevelUnlocked_In : forall levelId m,
  isLevelUnlocked levelId m = true <-> In levelId (unlockedLevels m).
Proof.
  intros levelId m. unfold isLevelUnlocked. rewrite existsb_exists. split.
  - intros (x & Hx & E). apply Z.eqb_eq in E. subst x. exact Hx.
  - intro H. exists levelId. split; [exact H | apply Z.eqb_refl].
Qed.

Lemma existsb_setAdd : forall id x l,
  existsb (Z.eqb id) (setAdd x l) = existsb (Z.eqb id) l || Z.eqb id x.
Proof.
  intros id x l. unfold setAdd.
  destruct (existsb (Z.eqb x) l) eqn:E.
  - destruct (Z.eqb id x) eqn:Ei; [|rewrite orb_false_r; reflexivity].
    apply Z.eqb_eq in Ei. subst id. rewrite E. reflexivity.
  - rewrite existsb_app. cbn [existsb]. rewrite orb_false_r. reflexivity.
Qed.

Lemma orElse_eq : forall x : Q, orElse x 0 == x.
Proof.
  intro x. unfold orElse. destruct (Qeq_bool x 0) eqn:E; [|reflexivity].
  apply Qeq_bool_iff in E. rewrite E. reflexivity.
Qed.

End LevelLaws.

(** X20.  [completeLevel(levelId, score, stats)] files the progress of the
    level: completed, with the given statistics and the clock as
    completion time; the best score is the larger of the score and the
    best score before (0 on the first completion, so a first negative
    score leaves 0), so it never decreases; the attempts grow by one,
    from 0.  The progress of every other level and the current level are
    not touched.  The next level is unlocked, if it has a configuration,
    whether or not the completed level was unlocked itself, and no other
    level is; the completed event, with the progress, is emitted last. *)
Theorem completeLevel_records_progress :
  forall (levelId : Z) (score : Q) (stats : LevelStats) (now : Q) (m : LevelManager.t),
    let m' := fst (LevelManager.completeLevel levelId score stats now m) in
    exists p : LevelManager.LevelProgress,
      LevelManager.getLevelProgress levelId m' = Some p
      /\ LevelManager.completed p = true
      /\ LevelManager.completionTime p = now
      /\ LevelManager.stats p = stats
      /\ score <= LevelManager.bestScore p
      /\ match LevelManager.getLevelProgress levelId m with
         | Some old =>
             LevelManager.bestScore p == Qmax (LevelManager.bestScore old) score
             /\ LevelManager.bestScore old <= LevelManager.bestScore p
             /\ LevelManager.attempts p = (LevelManager.attempts old + 1)%Z
         | None =>
             LevelManager.bestScore p = Qmax 0 score
             /\ LevelManager.attempts p = 1%Z
         end
      /\ (forall other : Z,
            other <> levelId ->
            LevelManager.getLevelProgress other m' = LevelManager.getLevelProgress other m)
      /\ (forall id : Z,
            LevelManager.isLevelUnlocked id m'
            = LevelManager.isLevelUnlocked id m
              || (Z.eqb id (levelId + 1)%Z
                  && map_has Z.eqb (levelId + 1)%Z (LevelManager.levelConfigs m)))
      /\ LevelManager.currentLevel m' = LevelManager.currentLevel m
      /\ exists evs,
           snd (LevelManager.completeLevel levelId score stats now m)
           = evs ++ [LevelManager.LEVEL_COMPLETED levelId p].
Proof.
  intros levelId score stats now m m'. subst m'.
  unfold LevelManager.completeLevel.
  set (newProgress := LevelManager.mkProgress _ _ _ _ _).
  assert (P : forall m2 evs,
            LevelManager.levelProgress m2
            = map_set Z.eqb levelId newProgress (LevelManager.levelProgress m) ->
            LevelManager.currentLevel m2 = LevelManager.currentLevel m ->
            (forall id, LevelManager.isLevelUnlocked id m2
                        = LevelManager.isLevelUnlocked id m
                          || (Z.eqb id (levelId + 1)%Z
                              && map_has Z.eqb (levelId + 1)%Z (LevelManager.levelConfigs m))) ->
            exists p,
              LevelManager.getLevelProgress levelId m2 = Some p
              /\ LevelManager.completed p = true
              /\ LevelManager.completionTime p = now
              /\ LevelManager.stats p = stats
              /\ score <= LevelManager.bestScore p
              /\ match LevelManager.getLevelProgress levelId m with
                 | Some old =>
                     LevelManager.bestScore p == Qmax (LevelManager.bestScore old) score
                     /\ LevelManager.bestScore old <= LevelManager.bestScore p
                     /\ LevelManager.attempts p = (LevelManager.attempts old + 1)%Z
                 | None =>
                     LevelManager.bestScore p = Qmax 0 score
                     /\ LevelManager.attempts p = 1%Z
                 end
              /\ (forall other : Z,
                    other <> levelId ->
                    LevelManager.getLevelProgress other m2
                    = LevelManager.getLevelProgress other m)
              /\ (forall id : Z,
                    LevelManager.isLevelUnlocked id m2
                    = LevelManager.isLevelUnlocked id m
                      || (Z.eqb id (levelId + 1)%Z
                          && map_has Z.eqb (levelId + 1)%Z (LevelManager.levelConfigs m)))
              /\ LevelManager.currentLevel m2 = LevelManager.currentLevel m
              /\ exists evs',
                   evs ++ [LevelManager.LEVEL_COMPLETED levelId newProgress]
                   = evs' ++ [LevelManager.LEVEL_COMPLETED levelId p]).
  { intros m2 evs Hp Hc Hu. exists newProgress.
    unfold LevelManager.getLevelProgress. rewrite Hp.
    split; [apply (map_get_set_same _ Z.eqb_eq)|].
    split; [reflexivity|]. split; [reflexivity|]. split; [reflexivity|].
    split; [subst newProgress; cbn [LevelManager.bestScore]; apply Q.le_max_r|].
    split.
    { subst newProgress. cbn [LevelManager.bestScore LevelManager.attempts].
      destruct (map_get Z.eqb levelId (LevelManager.levelProgress m)) as [old |].
      - split; [|split].
        + rewrite (Q.max_comm (orElse _ _)), (Q.max_comm (LevelManager.bestScore old)).
          destruct (Q.max_spec score (orElse (LevelManager.bestScore old) 0)) as [[A ->] | [A ->]];
          destruct (Q.max_spec score (LevelManager.bestScore old)) as [[B ->] | [B ->]];
          pose proof (orElse_eq (LevelManager.bestScore old)) as O; lra.
        + pose proof (orElse_eq (LevelManager.bestScore old)) as O.
          pose proof (Q.le_max_l (orElse (LevelManager.bestScore old) 0) score). lra.
        + destruct (Z.eqb (LevelManager.attempts old) 0) eqn:E; [|reflexivity].
          apply Z.eqb_eq in E. rewrite E. reflexivity.
      - split; reflexivity. }
    split.
    { intros other Ho. apply (map_get_set_other _ Z.eqb_eq). congruence. }
    split; [exact Hu|]. split; [exact Hc|].
    exists evs. reflexivity. }
  cbn [LevelManager.levelConfigs].
  destruct (map_has Z.eqb (levelId + 1)%Z (LevelManager.levelConfigs m)) eqn:E;
    cbn [LevelManager.unlockLevel fst snd]; apply P; try reflexivity.
  - intro id. unfold LevelManager.isLevelUnlocked.
    cbn [LevelManager.unlockedLevels]. rewrite existsb_setAdd, andb_true_r. reflexivity.
  - intro id. rewrite andb_false_r, orb_false_r. reflexivity.
Qed.

Section LevelPlay.

Import LevelManager.

Lemma In_levelsUpTo : forall (k : nat) (id : Z),
  In id (levelsUpTo k) <-> (1 <= id <= Z.of_nat k)%Z.
Proof.
  intros k id. unfold levelsUpTo. rewrite in_map_iff. split.
  - intros (n & E & Hn). apply in_seq in Hn. lia.
  - intro H. exists (Z.to_nat id). split; [lia|]. apply in_seq. lia.
Qed.

Lemma levelsUpTo_S : forall k : nat,
  levelsUpTo (S k) = levelsUpTo k ++ [(Z.of_nat k + 1)%Z].
Proof.
  intro k. unfold levelsUpTo. rewrite seq_S, map_app. cbn [map].
  replace (Z.of_nat (1 + k)) with (Z.of_nat k + 1)%Z by lia. reflexivity.
Qed.

Lemma existsb_levelsUpTo : forall (k : nat) (id : Z),
  existsb (Z.eqb id) (levelsUpTo k) = true <-> (1 <= id <= Z.of_nat k)%Z.
Proof.
  intros k id. rewrite <- In_levelsUpTo, existsb_exists. split.
  - intros (x & Hx & E). apply Z.eqb_eq in E. subst x. exact Hx.
  - intro H. exists id. split; [exact H | apply Z.eqb_refl].
Qed.

Lemma setAdd_levelsUpTo : forall (k : nat) (c : Z),
  (1 <= c <= Z.of_nat k)%Z ->
  setAdd (c + 1)%Z (levelsUpTo k)
  = if Z.eqb c (Z.of_nat k) then levelsUpTo (S k) else levelsUpTo k.
Proof.
  intros k c Hc. unfold setAdd.
  destruct (Z.eqb c (Z.of_nat k)) eqn:E.
  - apply Z.eqb_eq in E. subst c.
    destruct (existsb (Z.eqb (Z.of_nat k + 1)) (levelsUpTo k)) eqn:X.
    + apply existsb_levelsUpTo in X. lia.
    + symmetry. apply levelsUpTo_S.
  - apply Z.eqb_neq in E.
    destruct (existsb (Z.eqb (c + 1)%Z) (levelsUpTo k)) eqn:X; [reflexivity|].
    assert (Y : existsb (Z.eqb (c + 1)%Z) (levelsUpTo k) = true)
      by (apply existsb_levelsUpTo; lia).
    congruence.
Qed.

Lemma initial_config : forall (c : Z) (cfg : LevelConfig),
  map_get Z.eqb c (levelConfigs initial) = Some cfg ->
  levelId cfg = c /\ (1 <= c <= 6)%Z.
Proof.
  intros c cfg. unfold initial. cbn [levelConfigs map_get].
  repeat (match goal with
          | |- (if Z.eqb c ?n then _ else _) = _ -> _ =>
              let E := fresh "E" in
              destruct (Z.eqb c n) eqn:E;
              [apply Z.eqb_eq in E; subst c; intro H; inversion H; split; [reflexivity | lia]|]
          end).
  discriminate.
Qed.

Lemma initial_has_config : forall c : Z,
  map_has Z.eqb c (levelConfigs initial) = true <-> (1 <= c <= 6)%Z.
Proof.
  intro c. unfold map_has. split.
  - destruct (map_get Z.eqb c (levelConfigs initial)) as [cfg |] eqn:G; [|discriminate].
    intros _. apply (initial_config c cfg G).
  - intro H.
    assert (C : c = 1%Z \/ c = 2%Z \/ c = 3%Z \/ c = 4%Z \/ c = 5%Z \/ c = 6%Z) by lia.
    destruct C as [-> | [-> | [-> | [-> | [-> | ->]]]]]; reflexivity.
Qed.

Lemma map_has_set : forall (V : Type) (id c : Z) (v : V) (l : list (Z * V)),
  map_has Z.eqb id (map_set Z.eqb c v l) = Z.eqb id c || map_has Z.eqb id l.
Proof.
  intros V id c v l. unfold map_has.
  destruct (Z.eqb id c) eqn:E.
  - apply Z.eqb_eq in E. subst id. rewrite (map_get_set_same _ Z.eqb_eq). reflexivity.
  - apply Z.eqb_neq in E.
    rewrite (map_get_set_other _ Z.eqb_eq) by congruence. reflexivity.
Qed.

Lemma initial_inv : levels_inv 1 initial.
Proof.
  unfold levels_inv. cbn [initial levelConfigs unlockedLevels currentLevel levelProgress].
  repeat split; try lia; try discriminate.
Qed.

Lemma setCurrentLevel_inv : forall k levelId m,
  levels_inv k m -> levels_inv k (fst (fst (setCurrentLevel levelId m))).
Proof.
  intros k levelId m (H1 & H2 & H3 & H4 & H5 & H6). unfold setCurrentLevel.
  destruct (isLevelUnlocked levelId m) eqn:E; cbn [fst];
    [|exact (conj H1 (conj H2 (conj H3 (conj H4 (conj H5 H6)))))].
  unfold isLevelUnlocked in E. rewrite H3 in E. apply existsb_levelsUpTo in E.
  unfold levels_inv. cbn [levelConfigs unlockedLevels currentLevel levelProgress].
  exact (conj H1 (conj H2 (conj H3 (conj E (conj H5 H6))))).
Qed.

Lemma resetProgress_inv : forall k m,
  levels_inv k m -> fst (resetProgress m) = initial.
Proof.
  intros k m (_ & H2 & _). unfold resetProgress. cbn [fst]. rewrite H2. reflexivity.
Qed.

Lemma completeLevel_inv : forall k score stats now m,
  levels_inv k m ->
  exists k',
    levels_inv k' (fst (completeLevel (currentLevel m) score stats now m)).
Proof.
  intros k score stats now m (H1 & H2 & H3 & H4 & H5 & H6).
  set (c := currentLevel m) in *.
  unfold completeLevel. cbn [levelConfigs]. rewrite H2.
  destruct (map_has Z.eqb (c + 1)%Z (levelConfigs initial)) eqn:E.
  - apply initial_has_config in E.
    cbn [unlockLevel fst]. 
    exists (if Z.eqb c (Z.of_nat k) then S k else k).
    unfold levels_inv.
    cbn [levelConfigs unlockedLevels currentLevel levelProgress].
    rewrite H3, (setAdd_levelsUpTo k c H4).
    fold c.
    destruct (Z.eqb c (Z.of_nat k)) eqn:Ek;
      [apply Z.eqb_eq in Ek | apply Z.eqb_neq in Ek];
      (split; [lia|]); (split; [reflexivity|]); (split; [reflexivity|]);
      (split; [lia|]); split; intros id; rewrite map_has_set.
    + intro H. apply orb_true_iff in H. destruct H as [H | H].
      * apply Z.eqb_eq in H. lia.
      * apply H5 in H. lia.
    + intro H. destruct (Z.eqb id c) eqn:Ei; [reflexivity|].
      apply Z.eqb_neq in Ei. cbn [orb]. apply H6. lia.
    + intro H. apply orb_true_iff in H. destruct H as [H | H].
      * apply Z.eqb_eq in H. lia.
      * apply H5 in H. lia.
    + intro H. rewrite (H6 id H). apply orb_true_r.
  - exists k. cbn [fst]. unfold levels_inv.
    cbn [levelConfigs unlockedLevels currentLevel levelProgress]. fold c.
    repeat split; try assumption; try lia.
    + rewrite map_has_set in H. apply orb_true_iff in H. destruct H as [H | H].
      * apply Z.eqb_eq in H. lia.
      * apply H5 in H. lia.
    + rewrite map_has_set in H. apply orb_true_iff in H. destruct H as [H | H].
      * apply Z.eqb_eq in H. lia.
      * apply H5 in H. lia.
    + intros id H. rewrite map_has_set, (H6 id H). apply orb_true_r.
Qed.

Lemma played_inv : forall m, played m -> exists k, levels_inv k m.
Proof.
  intros m P. induction P as [| m levelId P [k IH] | m cfg score stats now P [k IH] G
                              | m P [k IH]].
  - exists 1%nat. exact initial_inv.
  - exists k. apply setCurrentLevel_inv. exact IH.
  - assert (E : levelId cfg = currentLevel m).
    { destruct IH as (_ & H2 & _). unfold getCurrentLevelConfig, getLevelConfig in G.
      rewrite H2 in G. apply (initial_config _ _ G). }
    rewrite E. eapply completeLevel_inv. exact IH.
  - exists 1%nat. rewrite (resetProgress_inv k m IH). exact initial_inv.
Qed.

End LevelPlay.

(** X21.  While the player plays (selects a level, wins the current level,
    resets the progress), starting from nothing saved: the unlocked levels
    are the levels 1 to k, in this order, for some k from 1 to 6; the
    current level is unlocked and has a configuration, whose id it is;
    every completed level is unlocked; every unlocked level other than
    level 1 has its predecessor completed; and a reset gives the manager
    of the start back. *)
Theorem played_levels_form_a_prefix :
  forall m : LevelManager.t,
    played m ->
    exists k : nat,
      (1 <= k <= 6)%nat
      /\ LevelManager.unlockedLevels m = levelsUpTo k
      /\ LevelManager.isLevelUnlocked (LevelManager.getCurrentLevel m) m = true
      /\ (exists cfg : LevelConfig,
            LevelManager.getCurrentLevelConfig m = Some cfg
            /\ levelId cfg = LevelManager.getCurrentLevel m)
      /\ (forall id : Z,
            LevelManager.getLevelProgress id m <> None ->
            LevelManager.isLevelUnlocked id m = true)
      /\ (forall id : Z,
            LevelManager.isLevelUnlocked id m = true ->
            id = 1%Z \/ LevelManager.getLevelProgress (id - 1)%Z m <> None)
      /\ fst (LevelManager.resetProgress m) = LevelManager.initial.
Proof.
  intros m P. destruct (played_inv m P) as [k IH].
  pose proof IH as (H1 & H2 & H3 & H4 & H5 & H6).
  exists k. unfold LevelManager.getCurrentLevel, LevelManager.isLevelUnlocked,
    LevelManager.getLevelProgress.
  rewrite H3.
  split; [exact H1|]. split; [reflexivity|].
  split; [apply existsb_levelsUpTo; exact H4|].
  split.
  { unfold LevelManager.getCurrentLevelConfig, LevelManager.getLevelConfig. rewrite H2.
    assert (C : map_has Z.eqb (LevelManager.currentLevel m)
                  (LevelManager.levelConfigs LevelManager.initial) = true)
      by (apply initial_has_config; lia).
    unfold map_has in C.
    destruct (map_get Z.eqb (LevelManager.currentLevel m)
                (LevelManager.levelConfigs LevelManager.initial)) as [cfg |] eqn:G;
      [|discriminate].
    exists cfg. split; [reflexivity|]. apply (initial_config _ _ G). }
  split.
  { intros id H. apply existsb_levelsUpTo. apply H5. unfold map_has.
    destruct (map_get Z.eqb id (LevelManager.levelProgress m)); [reflexivity | congruence]. }
  split.
  { intros id H. apply existsb_levelsUpTo in H.
    destruct (Z.eq_dec id 1) as [E | E]; [left; exact E | right].
    assert (X : map_has Z.eqb (id - 1)%Z (LevelManager.levelProgress m) = true)
      by (apply H6; lia).
    unfold map_has in X.
    destruct (map_get Z.eqb (id - 1)%Z (LevelManager.levelProgress m)); [discriminate | discriminate]. }
  exact (resetProgress_inv k m IH).
Qed.

Lemma played_levels_form_a_prefix_witness :
  exists k : nat,
    (1 <= k <= 6)%nat
    /\ LevelManager.unlockedLevels
         (fst (LevelManager.completeLevel (levelId level1) 1200
                 (mkLevelStats 4000 35 2500 0 true true) 1000 LevelManager.initial))
       = levelsUpTo k
    /\ LevelManager.isLevelUnlocked
         (LevelManager.getCurrentLevel
            (fst (LevelManager.completeLevel (levelId level1) 1200
                    (mkLevelStats 4000 35 2500 0 true true) 1000 LevelManager.initial)))
         (fst (LevelManager.completeLevel (levelId level1) 1200
                 (mkLevelStats 4000 35 2500 0 true true) 1000 LevelManager.initial))
       = true
    /\ (exists cfg : LevelConfig,
          LevelManager.getCurrentLevelConfig
            (fst (LevelManager.completeLevel (levelId level1) 1200
                    (mkLevelStats 4000 35 2500 0 true true) 1000 LevelManager.initial))
          = Some cfg
          /\ levelId cfg
             = LevelManager.getCurrentLevel
                 (fst (LevelManager.completeLevel (levelId level1) 1200
                         (mkLevelStats 4000 35 2500 0 true true) 1000
                         LevelManager.initial)))
    /\ (forall id : Z,
          LevelManager.getLevelProgress id
            (fst (LevelManager.completeLevel (levelId level1) 1200
                    (mkLevelStats 4000 35 2500 0 true true) 1000 LevelManager.initial))
          <> None ->
          LevelManager.isLevelUnlocked id
            (fst (LevelManager.completeLevel (levelId level1) 1200
                    (mkLevelStats 4000 35 2500 0 true true) 1000 LevelManager.initial))
          = true)
    /\ (forall id : Z,
          LevelManager.isLevelUnlocked id
            (fst (LevelManager.completeLevel (levelId level1) 1200
                    (mkLevelStats 4000 35 2500 0 true true) 1000 LevelManager.initial))
          = true ->
          id = 1%Z
          \/ LevelManager.getLevelProgress (id - 1)
               (fst (LevelManager.completeLevel (levelId level1) 1200
                       (mkLevelStats 4000 35 2500 0 true true) 1000 LevelManager.initial))
             <> None)
    /\ fst (LevelManager.resetProgress
              (fst (LevelManager.completeLevel (levelId level1) 1200
                      (mkLevelStats 4000 35 2500 0 true true) 1000 LevelManager.initial)))
       = LevelManager.initial.
Proof.
  apply (played_levels_form_a_prefix
           (fst (LevelManager.completeLevel (levelId level1) 1200
                   (mkLevelStats 4000 35 2500 0 true true) 1000 LevelManager.initial))).
  apply (played_win LevelManager.initial level1 1200
           (mkLevelStats 4000 35 2500 0 true true) 1000 played_initial).
  reflexivity.
Defined.

(** ** The round: frames under suppression and under immunity *)

Lemma suppressed_frame_reduces_witness :
  NoiseMeter.currentLevel
    (GameScene.noiseMeter
       (GameScene.update 16 16
          (GameScene.after [GameScene.SpaceDown] (GameScene.create level5 0 draws1))))
  = Qmax (NoiseMeter.currentLevel
            (GameScene.noiseMeter
               (GameScene.after [GameScene.SpaceDown] (GameScene.create level5 0 draws1)))
          - reductionAmount 16
              (GameScene.setPowerUpManager
                 (GameScene.after [GameScene.SpaceDown] (GameScene.create level5 0 draws1))
                 (fst (PowerUp.update 16
                         (GameScene.powerUpManager
                            (GameScene.after [GameScene.SpaceDown]
                               (GameScene.create level5 0 draws1)))))))
         0.
Proof.
  apply (suppressed_frame_reduces 16 16
           (GameScene.after [GameScene.SpaceDown] (GameScene.create level5 0 draws1)));
    reflexivity.
Defined.

Lemma immune_frame_keeps_level_witness :
  NoiseMeter.currentLevel
    (GameScene.noiseMeter
       (GameScene.update 16 16
          (GameScene.after [GameScene.PowerUpClicked SOUND_SHIELD]
             (GameScene.create level5 0 draws1))))
  = NoiseMeter.currentLevel
      (GameScene.noiseMeter
         (GameScene.after [GameScene.PowerUpClicked SOUND_SHIELD]
            (GameScene.create level5 0 draws1)))
  /\ Bear.currentNoise
       (GameScene.bear
          (GameScene.update 16 16
             (GameScene.after [GameScene.PowerUpClicked SOUND_SHIELD]
                (GameScene.create level5 0 draws1))))
     = Bear.currentNoise
         (GameScene.bear
            (GameScene.after [GameScene.PowerUpClicked SOUND_SHIELD]
               (GameScene.create level5 0 draws1))).
Proof.
  apply (immune_frame_keeps_level 16 16
           (GameScene.after [GameScene.PowerUpClicked SOUND_SHIELD]
              (GameScene.create level5 0 draws1)));
    reflexivity.
Defined.

(** ** The round: what the frames and the events leave alone *)

Section RoundSteady.

Import GameScene.

Lemma steady_refl : forall s, steady s s.
Proof. intro s. repeat split. Qed.

Lemma steady_trans : forall s1 s2 s3, steady s1 s2 -> steady s2 s3 -> steady s1 s3.
Proof.
  intros s1 s2 s3 (A1 & A2 & A3 & A4 & A5 & A6 & A7)
    (B1 & B2 & B3 & B4 & B5 & B6 & B7).
  unfold steady. rewrite B1, B2, B3, B4, B5, B6, B7. repeat split; assumption.
Qed.

Lemma emit1_steady : forall e s, steady s (emit1 e s).
Proof.
  intros e s.
  destruct e; unfold emit1, onBearStateChange, onBearWakeUp, onMeterUpdate;
    try (destruct (negb (BearState_beq newState SLEEPING)));
    try (destruct (Qle_bool 100 percentage));
    steady_fields.
Qed.

Lemma emitAll1_steady : forall evs s, steady s (emitAll1 evs s).
Proof.
  induction evs as [| e evs IH]; intro s; cbn [emitAll1 fold_left].
  - apply steady_refl.
  - apply steady_trans with (emit1 e s); [apply emit1_steady | apply IH].
Qed.

Lemma bearCall_steady :
  forall (f : Bear.IBearState -> Bear.IBearState * list Event) s,
  steady s (let (b, evs) := f (bear s) in emitAll1 evs (setBear s b)).
Proof.
  intros f s. destruct (f (bear s)) as [b evs].
  apply steady_trans with (setBear s b); [steady_fields | apply emitAll1_steady].
Qed.

Lemma meterAddNoise_steady : forall a s, steady s (meterAddNoise a s).
Proof.
  intros a s. unfold meterAddNoise, NoiseMeter.addNoise.
  match goal with |- steady s (emitAll1 ?evs ?s1) =>
    apply steady_trans with s1; [steady_fields | apply emitAll1_steady]
  end.
Qed.

Lemma meterReduceNoise_steady : forall a s, steady s (meterReduceNoise a s).
Proof.
  intros a s. unfold meterReduceNoise, NoiseMeter.reduceNoise.
  match goal with |- steady s (emitAll1 ?evs ?s1) =>
    apply steady_trans with s1; [steady_fields | apply emitAll1_steady]
  end.
Qed.

Lemma addNoise_both_steady : forall a s, steady s (meterAddNoise a (bearAddNoise a s)).
Proof.
  intros a s. apply steady_trans with (bearAddNoise a s).
  - exact (bearCall_steady (Bear.addNoise a) s).
  - apply meterAddNoise_steady.
Qed.

Lemma reduceNoise_both_steady : forall a s,
  steady s (meterReduceNoise a (bearReduceNoise a s)).
Proof.
  intros a s. apply steady_trans with (bearReduceNoise a s).
  - exact (bearCall_steady (Bear.reduceNoise a) s).
  - apply meterReduceNoise_steady.
Qed.

Lemma setMaxNoiseLevel_steady : forall s x,
  steady s (setGameStats s (setMaxNoiseLevel (gameStats s) x)).
Proof. intros s x. steady_fields. Qed.

Lemma setPowerUpsUsed_steady : forall s x,
  steady s (setGameStats s (setPowerUpsUsed (gameStats s) x)).
Proof. intros s x. steady_fields. Qed.

Lemma setStealthMode_steady : forall s x,
  steady s (setGameStats s (setStealthMode (gameStats s) x)).
Proof. intros s x. steady_fields. Qed.

Lemma onTVNoiseStart_steady : forall l s, steady s (onTVNoiseStart l s).
Proof.
  intros l s. unfold onTVNoiseStart.
  destruct (negb _); [apply addNoise_both_steady | apply steady_refl].
Qed.

Lemma onNoiseSourceStart_steady : forall i s, steady s (onNoiseSourceStart i s).
Proof.
  intros i s. unfold onNoiseSourceStart.
  destruct (_ && _); [|apply steady_refl]. cbv zeta.
  match goal with |- steady s (setGameStats ?s2 ?x) =>
    apply steady_trans with s2;
      [apply addNoise_both_steady | apply setMaxNoiseLevel_steady]
  end.
Qed.

Lemma managerOnPowerUpCollected_steady : forall ty s,
  steady s (managerOnPowerUpCollected ty s).
Proof.
  intros ty s. unfold managerOnPowerUpCollected.
  destruct (PowerUp.activatePowerUp ty (powerUpManager s)) as [[[pm b] evs] |];
    [|apply steady_refl].
  apply steady_trans with (setPowerUpManager s pm); [steady_fields | apply emitAll1_steady].
Qed.

Lemma emit_steady : forall e s, steady s (emit e s).
Proof.
  intros e s. destruct e; unfold emit; try apply emit1_steady.
  - apply steady_trans with (record (TV_NOISE_START noiseLevel) s);
      [steady_fields | apply onTVNoiseStart_steady].
  - cbv zeta.
    match goal with |- steady s (onNoiseSourceStart _ ?s2) =>
      apply steady_trans with s2; [steady_fields | apply onNoiseSourceStart_steady]
    end.
  - steady_fields.
  - unfold onPowerUpCollected.
    match goal with |- steady s (setGameStats ?s2 ?x) =>
      apply steady_trans with s2; [|apply setPowerUpsUsed_steady]
    end.
    apply steady_trans with (record (POWERUP_COLLECTED type) s);
      [steady_fields | apply managerOnPowerUpCollected_steady].
Qed.

Lemma emitAll_steady : forall evs s, steady s (emitAll evs s).
Proof.
  induction evs as [| e evs IH]; intro s; cbn [emitAll fold_left].
  - apply steady_refl.
  - apply steady_trans with (emit e s); [apply emit_steady | apply IH].
Qed.

Lemma updateNoiseSources_steady : forall time todo s,
  steady s (updateNoiseSources time todo s).
Proof.
  intros time todo. induction todo as [| [k ns] rest IH]; intro s.
  - apply steady_refl.
  - cbn [updateNoiseSources].
    destruct (NoiseSource.update time (now s) ns (rng s)) as [[ns' evs] g'].
    match goal with |- steady s (updateNoiseSources time rest (emitAll evs ?s1)) =>
      apply steady_trans with s1; [steady_fields|];
      apply steady_trans with (emitAll evs s1); [apply emitAll_steady | apply IH]
    end.
Qed.

Lemma update_steady : forall time delta s, steady s (update time delta s).
Proof.
  intros time delta s. unfold update.
  destruct (negb (GameState_beq (gameState s) PLAYING)); [apply steady_refl|].
  cbv zeta.
  assert (S1 : steady s (updateEntities s)).
  { unfold updateEntities.
    apply steady_trans with (bearUpdate s);
      [exact (bearCall_steady Bear.update s) | apply emitAll_steady]. }
  assert (S2 : forall s0, steady s0 (updateSystems time delta s0)).
  { intro s0. unfold updateSystems.
    match goal with |- steady s0 (let (pm, evs) := PowerUp.update delta (powerUpManager ?s1) in _) =>
      apply steady_trans with s1; [apply updateNoiseSources_steady|];
      destruct (PowerUp.update delta (powerUpManager s1)) as [pm evs];
      apply steady_trans with (setPowerUpManager s1 pm);
        [steady_fields | apply emitAll_steady]
    end. }
  assert (S3 : forall s0, steady s0 (updateStatistics s0)).
  { intro s0. unfold updateStatistics. steady_fields. }
  assert (S4 : forall s0, steady s0 (handleNoiseCanceling delta s0)).
  { intro s0. unfold handleNoiseCanceling.
    destruct (isNoiseCancelActive (inputState s0)); [|apply steady_refl].
    apply reduceNoise_both_steady. }
  assert (S5 : forall s0, steady s0 (handleTVNoise delta s0)).
  { intro s0. unfold handleTVNoise.
    destruct (_ && _); [|apply steady_refl]. apply addNoise_both_steady. }
  assert (S6 : forall s0, steady s0 (handleNoiseSources delta s0)).
  { intro s0. unfold handleNoiseSources. cbv zeta.
    destruct (_ && _); [|apply steady_refl]. apply addNoise_both_steady. }
  set (s1 := updateEntities s) in *.
  set (s2 := updateSystems time delta s1).
  set (s3 := updateStatistics s2).
  set (s4 := handleNoiseCanceling delta s3).
  set (s5 := handleTVNoise delta s4).
  apply steady_trans with s5; [|apply S6].
  apply steady_trans with s4; [|apply S5].
  apply steady_trans with s3; [|apply S4].
  apply steady_trans with s2; [|apply S3].
  apply steady_trans with s1; [exact S1 | apply S2].
Qed.

End RoundSteady.

Section RoundInputs.

Import GameScene.

Lemma steady_input_inv : forall s s', steady s s' -> input_inv s -> input_inv s'.
Proof.
  intros s s' (_ & A2 & A3 & _) H. unfold input_inv in *. rewrite A2, A3. exact H.
Qed.

Lemma steady_timer_inv : forall level s s',
  steady s s' -> timer_inv level s -> timer_inv level s'.
Proof.
  intros level s s' (A1 & _ & _ & A4 & _) H. unfold timer_inv in *.
  rewrite A1, A4. exact H.
Qed.

(** [updateNoiseCancelState] makes suppression follow the inputs. *)
Lemma updateNoiseCancelState_input_inv : forall s,
  touchActive (inputState s) = false ->
  NoiseMeter.isActive (noiseMeter s) = isNoiseCancelActive (inputState s) ->
  input_inv (updateNoiseCancelState s).
Proof.
  intros s Ht Hm. unfold updateNoiseCancelState. cbv zeta.
  rewrite Ht, orb_false_r.
  destruct (Bool.eqb (spaceDown (inputState s) || mouseDown (inputState s))
              (isNoiseCancelActive (inputState s))) eqn:E; cbn [negb].
  - apply Bool.eqb_prop in E. unfold input_inv. rewrite <- E, Ht, Hm. repeat split.
    symmetry. exact E.
  - destruct (spaceDown (inputState s) || mouseDown (inputState s)) eqn:Es.
    + match goal with |- input_inv (if ?c then setGameStats ?s3 ?x else ?s3) =>
        assert (K : input_inv s3);
          [|destruct c; [eapply steady_input_inv; [apply setStealthMode_steady | exact K]
                        | exact K]]
      end.
      eapply steady_input_inv; [apply emit_steady|].
      unfold input_inv. scene_fields.
      cbn [isNoiseCancelActive spaceDown mouseDown touchActive NoiseMeter.isActive].
      rewrite ?Es. repeat split; try exact Ht; try assumption.
    + eapply steady_input_inv; [apply emit_steady|].
      unfold input_inv. scene_fields.
      cbn [isNoiseCancelActive spaceDown mouseDown touchActive NoiseMeter.isActive].
      rewrite ?Es. repeat split; try exact Ht; try assumption.
Qed.

Lemma updateNoiseCancelState_timer : forall s,
  gameTimer (updateNoiseCancelState s) = gameTimer s
  /\ currentLevel (updateNoiseCancelState s) = currentLevel s.
Proof.
  intro s. unfold updateNoiseCancelState. cbv zeta.
  destruct (negb (Bool.eqb _ _)); [|split; reflexivity].
  destruct (spaceDown (inputState s) || mouseDown (inputState s)
            || touchActive (inputState s)).
  - match goal with |- context [if ?c then setGameStats ?s3 ?x else ?s3] =>
      assert (K : gameTimer s3 = gameTimer s /\ currentLevel s3 = currentLevel s);
        [|destruct c; exact K]
    end.
    match goal with |- context [emit ?e ?s2] =>
      destruct (emit_steady e s2) as (A1 & _ & _ & A4 & _); rewrite A1, A4
    end.
    split; reflexivity.
  - match goal with |- context [emit ?e ?s2] =>
      destruct (emit_steady e s2) as (A1 & _ & _ & A4 & _); rewrite A1, A4
    end.
    split; reflexivity.
Qed.

Lemma create_fields : forall level time g,
  inputState (create level time g) = mkInputState false false false false
  /\ NoiseMeter.isActive (noiseMeter (create level time g)) = false
  /\ currentLevel (create level time g) = level
  /\ gameTimer (create level time g) = levelDuration level.
Proof.
  intros level time g. unfold create.
  destruct (Television.new g) as [tv g1].
  match goal with
  | |- context [createNoiseSources ?c ?s0] =>
      destruct (createNoiseSources_steady c s0) as (A1 & A2 & A3 & A4 & _)
  end.
  unfold startPowerUpSpawning.
  destruct (availablePowerUps (currentLevel _)); scene_fields;
    rewrite A1, A2, A3, A4; repeat split.
Qed.

Lemma exec_invs : forall level a s s',
  input_inv s -> timer_inv level s ->
  exec a s = Some s' ->
  input_inv s' /\ timer_inv level s'.
Proof.
  intros level a s s' Hi Ht E.
  pose proof Hi as (I1 & I2 & I3). pose proof Ht as (T1 & T2 & T3).
  destruct a; unfold exec in E.
  - apply Some_inj in E. subst s'.
    assert (S : steady s (update time delta (setNow s time))).
    { apply steady_trans with (setNow s time); [steady_fields | apply update_steady]. }
    split; [eapply steady_input_inv | eapply steady_timer_inv]; eassumption.
  - apply Some_inj in E. subst s'. unfold updateGameTimer.
    destruct (negb (GameState_beq (gameState s) PLAYING)); [split; assumption|].
    cbv zeta. scene_fields.
    destruct (Qle_bool (gameTimer s - GAMEPLAY.TIMER_UPDATE_INTERVAL) 0) eqn:El.
    + unfold checkVictoryCondition.
      destruct (Qlt_bool _ _); unfold input_inv, timer_inv; scene_fields;
        (split; [exact Hi | split; [exact T1 | split; [lra | lra]]]).
    + apply Qle_bool_false in El. unfold GAMEPLAY.TIMER_UPDATE_INTERVAL in *.
      unfold input_inv, timer_inv; scene_fields.
      split; [exact Hi | split; [exact T1 | split; lra]].
  - destruct (Television.exec a (television s) (rng s)) as [[[tv evs] g] |];
      [|discriminate].
    apply Some_inj in E. subst s'.
    destruct (emitAll_steady evs (setRng (setTelevision s tv) g))
      as (A1 & A2 & A3 & A4 & _).
    unfold input_inv, timer_inv. rewrite A1, A2, A3, A4.
    split; [exact Hi | exact Ht].
  - apply Some_inj in E. subst s'. unfold onSpaceDown.
    destruct (negb (GameState_beq (gameState s) PLAYING)); [split; assumption|].
    cbv zeta. split.
    + apply updateNoiseCancelState_input_inv; scene_fields;
        cbn [touchActive isNoiseCancelActive]; assumption.
    + unfold timer_inv.
      match goal with |- context [updateNoiseCancelState ?s1] =>
        destruct (updateNoiseCancelState_timer s1) as [-> ->]
      end.
      exact Ht.
  - apply Some_inj in E. subst s'. unfold onSpaceUp. cbv zeta. split.
    + apply updateNoiseCancelState_input_inv; scene_fields;
        cbn [touchActive isNoiseCancelActive]; assumption.
    + unfold timer_inv.
      match goal with |- context [updateNoiseCancelState ?s1] =>
        destruct (updateNoiseCancelState_timer s1) as [-> ->]
      end.
      exact Ht.
  - apply Some_inj in E. subst s'. unfold startNoiseCancel.
    destruct (negb (GameState_beq (gameState s) PLAYING)); [split; assumption|].
    cbv zeta. split.
    + apply updateNoiseCancelState_input_inv; scene_fields;
        cbn [touchActive isNoiseCancelActive]; assumption.
    + unfold timer_inv.
      match goal with |- context [updateNoiseCancelState ?s1] =>
        destruct (updateNoiseCancelState_timer s1) as [-> ->]
      end.
      exact Ht.
  - apply Some_inj in E. subst s'. unfold stopNoiseCancel. cbv zeta.
    destruct (mouseDown (inputState s) && Qlt_bool 0 (noiseCancelStartTime s)); split;
      try (apply updateNoiseCancelState_input_inv; scene_fields;
           cbn [touchActive isNoiseCancelActive]; assumption);
      unfold timer_inv;
      match goal with |- context [updateNoiseCancelState ?s1] =>
        destruct (updateNoiseCancelState_timer s1) as [-> ->]
      end;
      exact Ht.
  - apply Some_inj in E. subst s'. unfold togglePause.
    destruct (GameState_beq (gameState s) PLAYING); [split; assumption|].
    destruct (GameState_beq (gameState s) PAUSED); split; assumption.
  - apply Some_inj in E. subst s'.
    pose proof (emit_steady (POWERUP_COLLECTED ty) s) as S.
    split; [eapply steady_input_inv | eapply steady_timer_inv]; eassumption.
  - destruct (availablePowerUps (currentLevel s)) eqn:Ea; [discriminate|].
    destruct (PowerUp.spawnRandomPowerUp (powerUpManager s) (rng s)) as [[pm evs] g].
    apply Some_inj in E. subst s'.
    assert (S : steady s (startPowerUpSpawning
                            (emitAll evs (setRng (setPowerUpManager s pm) g)))).
    { apply steady_trans with (setRng (setPowerUpManager s pm) g); [steady_fields|].
      apply steady_trans with (emitAll evs (setRng (setPowerUpManager s pm) g));
        [apply emitAll_steady|].
      unfold startPowerUpSpawning.
      destruct (availablePowerUps (currentLevel (emitAll evs _))); steady_fields. }
    split; [eapply steady_input_inv | eapply steady_timer_inv]; eassumption.
  - destruct (nth_error (pendingSources s) n); [|discriminate].
    destruct (NoiseSourceManager.createNoiseSource _ _ _ _) as [m g].
    apply Some_inj in E. subst s'. split; assumption.
Qed.

Lemma reachable_invs : forall level time g s,
  0 <= levelDuration level ->
  reachable level time g s ->
  input_inv s /\ timer_inv level s.
Proof.
  intros level time g s Hd R. induction R as [| s a s' R [Hi Ht] E].
  - destruct (create_fields level time g) as (C1 & C2 & C3 & C4).
    unfold input_inv, timer_inv. rewrite C1, C2, C3, C4. cbn.
    repeat split; try reflexivity; try assumption. apply Qle_refl.
  - eapply exec_invs; eassumption.
Qed.

End RoundInputs.

(** X24.  In every state of a round, suppression (noise canceling) is
    active exactly while the space bar or the suppression button is held,
    whatever the frames, the timers and the power-ups do in between; the
    touch flag of the input state is never set; and the glow flag of the
    meter is the suppression flag. *)
Theorem suppression_follows_inputs :
  forall (level : LevelConfig) (time : Q) (g : Rng) (s : GameScene.t),
    0 <= levelDuration level ->
    GameScene.reachable level time g s ->
    isNoiseCancelActive (GameScene.inputState s)
    = spaceDown (GameScene.inputState s) || mouseDown (GameScene.inputState s)
    /\ touchActive (GameScene.inputState s) = false
    /\ NoiseMeter.isActive (GameScene.noiseMeter s)
       = isNoiseCancelActive (GameScene.inputState s).
Proof.
  intros level time g s Hd R.
  exact (proj1 (reachable_invs level time g s Hd R)).
Qed.

Lemma suppression_follows_inputs_witness :
  isNoiseCancelActive (GameScene.inputState shieldedRound)
  = spaceDown (GameScene.inputState shieldedRound)
    || mouseDown (GameScene.inputState shieldedRound)
  /\ touchActive (GameScene.inputState shieldedRound) = false
  /\ NoiseMeter.isActive (GameScene.noiseMeter shieldedRound)
     = isNoiseCancelActive (GameScene.inputState shieldedRound).
Proof.
  apply (suppression_follows_inputs level5 0 draws1 shieldedRound).
  - vm_compute. discriminate.
  - exact shieldedRound_reachable.
Defined.



(** ** The round: after the end *)

Section RoundEnd.

Import GameScene.

Lemma frozen_refl : forall s, frozen s s.
Proof. intro s. repeat split. Qed.

Lemma frozen_trans : forall s1 s2 s3, frozen s1 s2 -> frozen s2 s3 -> frozen s1 s3.
Proof.
  intros s1 s2 s3 (A1 & A2 & A3 & A4 & A5 & A6 & A7) (B1 & B2 & B3 & B4 & B5 & B6 & B7).
  unfold frozen. rewrite B1, B2, B3, B4, B5, B6, B7. repeat split; assumption.
Qed.

Lemma frozen_ended : forall s s', frozen s s' -> ended s -> ended s'.
Proof. intros s s' (A1 & _) H. unfold ended in *. rewrite A1. exact H. Qed.

Lemma ended_not_playing : forall s,
  ended s ->
  GameState_beq (gameState s) PLAYING = false
  /\ GameState_beq (gameState s) PAUSED = false.
Proof. intros s [H | H]; rewrite H; split; reflexivity. Qed.

Lemma emit_inert : forall e s, inert e -> emit e s = record e s.
Proof. intros e s H. destruct e; cbn [inert] in H; try contradiction; reflexivity. Qed.

Lemma emitAll_inert_frozen : forall evs s, Forall inert evs -> frozen s (emitAll evs s).
Proof.
  induction evs as [| e evs IH]; intros s H; cbn [emitAll fold_left].
  - apply frozen_refl.
  - inversion H as [| ? ? He Hevs]; subst.
    apply frozen_trans with (emit e s); [|apply IH; exact Hevs].
    rewrite (emit_inert e s He). frozen_fields.
Qed.

Lemma television_exec_inert : forall a tv g tv' evs g',
  Television.exec a tv g = Some (tv', evs, g') -> Forall inert evs.
Proof.
  intros a tv g tv' evs g' E. destruct a; unfold Television.exec in E.
  - destruct (Television.turnOnTimer tv); inversion E; constructor.
  - destruct (Television.turnOffTimer tv); inversion E; constructor.
  - destruct (Television.warningTimer tv); inversion E; constructor.
  - destruct (Television.tweens tv) as [| [] rest]; [discriminate | |].
    + unfold Television.turnOnComplete in E.
      destruct (Television.scheduleDeactivation _ g) as [tv2 g2].
      inversion E. repeat constructor.
    + unfold Television.turnOffComplete in E.
      destruct (Television.scheduleNextActivation _ g) as [tv2 g2].
      inversion E. repeat constructor.
  - inversion E; constructor.
  - inversion E; constructor.
  - inversion E; constructor.
Qed.

Lemma activatePowerUp_inert : forall ty pm pm' b evs,
  PowerUp.activatePowerUp ty pm = Some (pm', b, evs) -> Forall inert evs.
Proof.
  intros ty pm pm' b evs E. unfold PowerUp.activatePowerUp in E.
  destruct (map_has PowerUpType_beq ty (PowerUp.activePowerUps pm));
    [inversion E; constructor|].
  destruct (PowerUp.getPowerUpConfig ty); inversion E. repeat constructor.
Qed.

Lemma spawnRandomPowerUp_inert : forall pm g,
  Forall inert (snd (fst (PowerUp.spawnRandomPowerUp pm g))).
Proof.
  intros pm g. unfold PowerUp.spawnRandomPowerUp.
  destruct (PowerUp.availablePowerUps pm); [constructor|].
  destruct (PowerUp.spawnable pm); [constructor|].
  cbn [Math_random].
  destruct (nth_error _ _) as [ty |]; [|constructor].
  destruct (PowerUp.getPowerUpConfig ty); repeat constructor.
Qed.

Lemma emitAll1_inert_frozen : forall evs s, Forall inert evs -> frozen s (emitAll1 evs s).
Proof.
  induction evs as [| e evs IH]; intros s H; cbn [emitAll1 fold_left].
  - apply frozen_refl.
  - inversion H as [| ? ? He Hevs]; subst.
    apply frozen_trans with (emit1 e s); [|apply IH; exact Hevs].
    destruct e; cbn [inert] in He; try contradiction; unfold emit1; frozen_fields.
Qed.

Lemma collect_frozen : forall ty s, frozen s (emit (POWERUP_COLLECTED ty) s).
Proof.
  intros ty s. unfold emit, onPowerUpCollected.
  match goal with |- frozen s (setGameStats ?s2 ?x) =>
    apply frozen_trans with s2; [|frozen_fields]
  end.
  apply frozen_trans with (record (POWERUP_COLLECTED ty) s); [frozen_fields|].
  unfold managerOnPowerUpCollected.
  destruct (PowerUp.activatePowerUp ty _) as [[[pm b] evs] |] eqn:E; [|apply frozen_refl].
  match goal with |- frozen ?s1 (emitAll1 evs ?s2) =>
    apply frozen_trans with s2; [frozen_fields|]
  end.
  apply emitAll1_inert_frozen. eapply activatePowerUp_inert. exact E.
Qed.

Lemma updateNoiseCancelState_frozen : forall s, frozen s (updateNoiseCancelState s).
Proof.
  intro s. unfold updateNoiseCancelState. cbv zeta.
  destruct (negb (Bool.eqb _ _)); [|apply frozen_refl].
  destruct (spaceDown (inputState s) || mouseDown (inputState s)
            || touchActive (inputState s)).
  - match goal with |- frozen s (if ?c then setGameStats ?s3 ?x else ?s3) =>
      apply frozen_trans with s3; [|destruct c; [frozen_fields | apply frozen_refl]]
    end.
    rewrite emit_inert by exact I. frozen_fields.
  - rewrite emit_inert by exact I. frozen_fields.
Qed.

Lemma exec_frozen : forall a s s',
  ended s -> exec a s = Some s' -> frozen s s'.
Proof.
  intros a s s' H E. destruct (ended_not_playing s H) as [Np Nq].
  destruct a; unfold exec in E.
  - apply Some_inj in E. subst s'. unfold update.
    cbn [gameState setNow]. rewrite Np. cbn [negb]. frozen_fields.
  - apply Some_inj in E. subst s'. unfold updateGameTimer. rewrite Np.
    apply frozen_refl.
  - destruct (Television.exec a (television s) (rng s)) as [[[tv evs] g] |] eqn:Et;
      [|discriminate].
    apply Some_inj in E. subst s'.
    apply frozen_trans with (setRng (setTelevision s tv) g); [frozen_fields|].
    apply emitAll_inert_frozen. eapply television_exec_inert. exact Et.
  - apply Some_inj in E. subst s'. unfold onSpaceDown. rewrite Np. apply frozen_refl.
  - apply Some_inj in E. subst s'. unfold onSpaceUp. cbv zeta.
    match goal with |- frozen s (updateNoiseCancelState ?s1) =>
      apply frozen_trans with s1; [frozen_fields | apply updateNoiseCancelState_frozen]
    end.
  - apply Some_inj in E. subst s'. unfold startNoiseCancel. rewrite Np.
    apply frozen_refl.
  - apply Some_inj in E. subst s'. unfold stopNoiseCancel. cbv zeta.
    match goal with |- frozen s (updateNoiseCancelState ?s1) =>
      apply frozen_trans with s1; [|apply updateNoiseCancelState_frozen]
    end.
    destruct (mouseDown (inputState s) && Qlt_bool 0 (noiseCancelStartTime s));
      frozen_fields.
  - apply Some_inj in E. subst s'. unfold togglePause. rewrite Np, Nq.
    apply frozen_refl.
  - apply Some_inj in E. subst s'. apply collect_frozen.
  - destruct (availablePowerUps (currentLevel s)) eqn:Ea; [discriminate|].
    pose proof (spawnRandomPowerUp_inert (powerUpManager s) (rng s)) as Hin.
    destruct (PowerUp.spawnRandomPowerUp (powerUpManager s) (rng s)) as [[pm evs] g].
    cbn [fst snd] in Hin.
    apply Some_inj in E. subst s'.
    apply frozen_trans with (setRng (setPowerUpManager s pm) g); [frozen_fields|].
    apply frozen_trans with (emitAll evs (setRng (setPowerUpManager s pm) g));
      [apply emitAll_inert_frozen; exact Hin|].
    unfold startPowerUpSpawning.
    destruct (availablePowerUps (currentLevel (emitAll evs _))); frozen_fields.
  - destruct (nth_error (pendingSources s) n); [|discriminate].
    destruct (NoiseSourceManager.createNoiseSource _ _ _ _) as [m g].
    apply Some_inj in E. subst s'. frozen_fields.
Qed.

Lemma after_frozen : forall actions s, ended s -> frozen s (after actions s).
Proof.
  induction actions as [| a rest IH]; intros s H; cbn [after].
  - apply frozen_refl.
  - destruct (exec a s) as [s1 |] eqn:E; [|apply frozen_refl].
    pose proof (exec_frozen a s s1 H E) as F.
    apply frozen_trans with s1; [exact F|].
    apply IH. eapply frozen_ended; eassumption.
Qed.

End RoundEnd.

(** X26.  Once a round has ended in Victory or Game Over, nothing that
    happens afterwards (frames, the countdown's timer, the television's
    timers and transitions, key and button events, a pause request, a
    click on a power-up, a spawn, the delayed creation of a noise source)
    changes its outcome: the state of the round, the countdown, the bear,
    the level of the meter and the time remaining, the maximal noise
    level and the perfect-sleep flag of the statistics stay as they
    were. *)
Theorem ended_round_is_frozen :
  forall (actions : list GameScene.Action) (s : GameScene.t),
    ended s ->
    frozen s (GameScene.after actions s) /\ ended (GameScene.after actions s).
Proof.
  intros actions s H.
  pose proof (after_frozen actions s H) as F.
  split; [exact F | exact (frozen_ended _ _ F H)].
Qed.

Lemma ended_round_is_frozen_witness :
  frozen (GameScene.after [GameScene.GameTimerFires] round99_last_tick)
    (GameScene.after
       [GameScene.Frame 100000 16; GameScene.GameTimerFires;
        GameScene.PowerUpClicked SOUND_SHIELD; GameScene.SpaceUp;
        GameScene.TV Television.TurnOffTimerFires; GameScene.PauseToggled]
       (GameScene.after [GameScene.GameTimerFires] round99_last_tick))
  /\ ended
       (GameScene.after
          [GameScene.Frame 100000 16; GameScene.GameTimerFires;
           GameScene.PowerUpClicked SOUND_SHIELD; GameScene.SpaceUp;
           GameScene.TV Television.TurnOffTimerFires; GameScene.PauseToggled]
          (GameScene.after [GameScene.GameTimerFires] round99_last_tick)).
Proof.
  apply ended_round_is_frozen.
  left. vm_compute. reflexivity.
Defined.

(** X27.  A collected power-up is counted whether or not it takes effect.
    The scene's handler of the collected event adds one to the
    power-ups-used statistic without looking at the answer of the power-up
    manager, so in every state of the round the event raises the statistic
    by at least one (by one for every subscription of the handler, which
    the scene adds in every [create]); this is so also when a power-up of
    the type is active already, in which case the power-up manager stays
    as it is.  The collection has no other effect on the outcome of the
    round. *)
Theorem every_collection_is_counted :
  forall (ty : PowerUpType) (s : GameScene.t),
    powerUpsUsed (GameScene.gameStats s) + 1
    <= powerUpsUsed (GameScene.gameStats (GameScene.emit (POWERUP_COLLECTED ty) s))
    /\ (PowerUp.isActivePowerUp ty (GameScene.powerUpManager s) = true ->
        GameScene.powerUpManager (GameScene.emit (POWERUP_COLLECTED ty) s)
        = GameScene.powerUpManager s)
    /\ frozen s (GameScene.emit (POWERUP_COLLECTED ty) s).
Proof.
  intros ty s.
  split; [|split; [|apply collect_frozen]].
  - unfold GameScene.emit, GameScene.onPowerUpCollected,
      GameScene.managerOnPowerUpCollected.
    scene_fields. cbn [powerUpsUsed GameScene.setPowerUpsUsed].
    destruct (PowerUp.activatePowerUp ty (GameScene.powerUpManager s))
      as [[[pm b] evs] |] eqn:E; [|apply Qle_refl].
    pose proof (activatePowerUp_inert _ _ _ _ _ E) as Hin.
    assert (G : forall s0, GameScene.gameStats (GameScene.emitAll1 evs s0)
                           = GameScene.gameStats s0).
    { clear E. induction Hin as [| e evs He Hevs IH]; intro s0;
        cbn [GameScene.emitAll1 fold_left]; [reflexivity|].
      change (fold_left (fun s1 e0 => GameScene.emit1 e0 s1) evs (GameScene.emit1 e s0))
        with (GameScene.emitAll1 evs (GameScene.emit1 e s0)).
      rewrite IH. destruct e; cbn [inert] in He; try contradiction; reflexivity. }
    rewrite G. apply Qle_refl.
  - intro H. apply collect_active_rejected. exact H.
Qed.

(** ** The round: the time counted as suppression *)

Section RoundUsage.

Import GameScene.

Lemma steady_usage : forall s s',
  steady s s' -> noiseCancelUsage (gameStats s') = noiseCancelUsage (gameStats s).
Proof. intros s s' (_ & _ & _ & _ & _ & _ & A7). exact A7. Qed.

Lemma updateNoiseCancelState_usage : forall s,
  noiseCancelUsage (gameStats (updateNoiseCancelState s))
  = noiseCancelUsage (gameStats s).
Proof.
  intro s. unfold updateNoiseCancelState. cbv zeta.
  destruct (negb (Bool.eqb _ _)); [|reflexivity].
  destruct (spaceDown (inputState s) || mouseDown (inputState s)
            || touchActive (inputState s)).
  - match goal with |- context [if ?c then setGameStats ?s3 ?x else ?s3] =>
      assert (K : noiseCancelUsage (gameStats s3) = noiseCancelUsage (gameStats s));
        [|destruct c; [|exact K]]
    end.
    + match goal with |- context [emit ?e ?s2] =>
        rewrite (steady_usage s2 (emit e s2) (emit_steady e s2))
      end.
      reflexivity.
    + match goal with |- noiseCancelUsage (gameStats (setGameStats ?s3 _)) = _ =>
        rewrite (steady_usage s3 _ (setStealthMode_steady s3 false))
      end.
      exact K.
  - match goal with |- context [emit ?e ?s2] =>
      rewrite (steady_usage s2 (emit e s2) (emit_steady e s2))
    end.
    reflexivity.
Qed.

End RoundUsage.

(** X28.  The time counted as suppression, which decides the stealth flag
    of the statistics, grows only when the suppression button is released:
    by the time since the button was pressed, when the button was down and
    was pressed at a clock time above 0.  Nothing else that happens in a
    round changes it; holding the space bar is never counted. *)
Theorem only_button_time_counts :
  forall (a : GameScene.Action) (s : GameScene.t),
    match GameScene.exec a s with
    | None => True
    | Some s' =>
        noiseCancelUsage (GameScene.gameStats s')
        = match a with
          | GameScene.ButtonUp =>
              if mouseDown (GameScene.inputState s)
                 && Qlt_bool 0 (GameScene.noiseCancelStartTime s)
              then noiseCancelUsage (GameScene.gameStats s)
                   + (GameScene.now s - GameScene.noiseCancelStartTime s)
              else noiseCancelUsage (GameScene.gameStats s)
          | _ => noiseCancelUsage (GameScene.gameStats s)
          end
    end.
Proof.
  intros a s. destruct a; unfold GameScene.exec.
  - apply steady_usage.
    apply steady_trans with (GameScene.setNow s time); [steady_fields | apply update_steady].
  - unfold GameScene.updateGameTimer.
    destruct (negb (GameState_beq (GameScene.gameState s) PLAYING)); [reflexivity|].
    cbv zeta. scene_fields.
    destruct (Qle_bool _ 0); [|reflexivity].
    unfold GameScene.checkVictoryCondition.
    destruct (Qlt_bool _ _); reflexivity.
  - destruct (Television.exec a (GameScene.television s) (GameScene.rng s))
      as [[[tv evs] g] |]; [|exact I].
    rewrite (steady_usage _ _ (emitAll_steady evs _)). reflexivity.
  - unfold GameScene.onSpaceDown.
    destruct (negb (GameState_beq (GameScene.gameState s) PLAYING)); [reflexivity|].
    cbv zeta. rewrite updateNoiseCancelState_usage. reflexivity.
  - unfold GameScene.onSpaceUp. cbv zeta.
    rewrite updateNoiseCancelState_usage. reflexivity.
  - unfold GameScene.startNoiseCancel.
    destruct (negb (GameState_beq (GameScene.gameState s) PLAYING)); [reflexivity|].
    cbv zeta. rewrite updateNoiseCancelState_usage. reflexivity.
  - unfold GameScene.stopNoiseCancel. cbv zeta.
    rewrite updateNoiseCancelState_usage.
    destruct (mouseDown (GameScene.inputState s)
              && Qlt_bool 0 (GameScene.noiseCancelStartTime s)); reflexivity.
  - unfold GameScene.togglePause.
    destruct (GameState_beq (GameScene.gameState s) PLAYING); [reflexivity|].
    destruct (GameState_beq (GameScene.gameState s) PAUSED); reflexivity.
  - apply steady_usage. apply emit_steady.
  - destruct (availablePowerUps (GameScene.currentLevel s)); [exact I|].
    destruct (PowerUp.spawnRandomPowerUp _ _) as [[pm evs] g].
    unfold GameScene.startPowerUpSpawning.
    destruct (availablePowerUps (GameScene.currentLevel (GameScene.emitAll evs _)));
      scene_fields; rewrite (steady_usage _ _ (emitAll_steady evs _)); reflexivity.
  - destruct (nth_error (GameScene.pendingSources s) n); [|exact I].
    destruct (NoiseSourceManager.createNoiseSource _ _ _ _) as [m g]. reflexivity.
Qed.

(** ** The round: the perfect-sleep flag *)

Section RoundSleep.

Import GameScene.

Lemma rests_refl : forall s, rests s s.
Proof. intro s. split; auto. Qed.

Lemma rests_trans : forall s1 s2 s3, rests s1 s2 -> rests s2 s3 -> rests s1 s3.
Proof. intros s1 s2 s3 [A1 A2] [B1 B2]. split; auto. Qed.

Lemma emit1_rests : forall e s, rests s (emit1 e s).
Proof.
  intros e s.
  destruct e; unfold emit1, onBearStateChange, onBearWakeUp, onMeterUpdate;
    try (destruct (negb (BearState_beq newState SLEEPING)));
    try (destruct (Qle_bool 100 percentage));
    rests_fields.
Qed.

Lemma emitAll1_rests : forall evs s, rests s (emitAll1 evs s).
Proof.
  induction evs as [| e evs IH]; intro s; cbn [emitAll1 fold_left].
  - apply rests_refl.
  - apply rests_trans with (emit1 e s); [apply emit1_rests | apply IH].
Qed.

(** A re-evaluation of the tier: the subscriber of the state-change event
    takes the flag down when the bear leaves SLEEPING. *)
Lemma updateState_rests : forall s b1,
  Bear.currentState b1 = Bear.currentState (bear s) ->
  rests s (let (b, evs) := Bear.updateStateBasedOnNoise b1 in emitAll1 evs (setBear s b)).
Proof.
  intros s b1 Hb. unfold Bear.updateStateBasedOnNoise.
  destruct (BearState_beq (Bear.newStateOf (Bear.getNoisePercentage b1))
              (Bear.currentState b1)) eqn:E; cbn [negb].
  - cbn [emitAll1 fold_left]. unfold rests, sleep_inv. scene_fields.
    rewrite Hb. split; auto.
  - destruct (Bear.newStateOf (Bear.getNoisePercentage b1));
      cbn [BearState_beq emitAll1 fold_left emit1 onBearStateChange onBearWakeUp negb];
      rests_fields.
Qed.

Lemma bearUpdate_rests : forall s, rests s (bearUpdate s).
Proof.
  intro s. unfold bearUpdate, Bear.update.
  destruct (negb (Bear.active (bear s))).
  - cbn [emitAll1 fold_left]. unfold rests, sleep_inv. scene_fields. split; auto.
  - apply updateState_rests. reflexivity.
Qed.

Lemma bearAddNoise_rests : forall a s, rests s (bearAddNoise a s).
Proof. intros a s. unfold bearAddNoise, Bear.addNoise. apply updateState_rests. reflexivity. Qed.

Lemma bearReduceNoise_rests : forall a s, rests s (bearReduceNoise a s).
Proof.
  intros a s. unfold bearReduceNoise, Bear.reduceNoise. apply updateState_rests.
  reflexivity.
Qed.

Lemma meterAddNoise_rests : forall a s, rests s (meterAddNoise a s).
Proof.
  intros a s. unfold meterAddNoise, NoiseMeter.addNoise.
  match goal with |- rests s (emitAll1 ?evs ?s1) =>
    apply rests_trans with s1; [rests_fields | apply emitAll1_rests]
  end.
Qed.

Lemma meterReduceNoise_rests : forall a s, rests s (meterReduceNoise a s).
Proof.
  intros a s. unfold meterReduceNoise, NoiseMeter.reduceNoise.
  match goal with |- rests s (emitAll1 ?evs ?s1) =>
    apply rests_trans with s1; [rests_fields | apply emitAll1_rests]
  end.
Qed.

Lemma addNoise_both_rests : forall a s, rests s (meterAddNoise a (bearAddNoise a s)).
Proof.
  intros a s. apply rests_trans with (bearAddNoise a s);
    [apply bearAddNoise_rests | apply meterAddNoise_rests].
Qed.

Lemma reduceNoise_both_rests : forall a s,
  rests s (meterReduceNoise a (bearReduceNoise a s)).
Proof.
  intros a s. apply rests_trans with (bearReduceNoise a s);
    [apply bearReduceNoise_rests | apply meterReduceNoise_rests].
Qed.

Lemma setMaxNoiseLevel_rests : forall s x,
  rests s (setGameStats s (setMaxNoiseLevel (gameStats s) x)).
Proof. intros s x. rests_fields. Qed.

Lemma setPowerUpsUsed_rests : forall s x,
  rests s (setGameStats s (setPowerUpsUsed (gameStats s) x)).
Proof. intros s x. rests_fields. Qed.

Lemma setStealthMode_rests : forall s x,
  rests s (setGameStats s (setStealthMode (gameStats s) x)).
Proof. intros s x. rests_fields. Qed.

Lemma setNoiseCancelUsage_rests : forall s x,
  rests s (setGameStats s (setNoiseCancelUsage (gameStats s) x)).
Proof. intros s x. rests_fields. Qed.

Lemma emit_rests : forall e s, rests s (emit e s).
Proof.
  intros e s. destruct e; unfold emit; try apply emit1_rests.
  - apply rests_trans with (record (TV_NOISE_START noiseLevel) s); [rests_fields|].
    unfold onTVNoiseStart.
    destruct (negb _); [apply addNoise_both_rests | apply rests_refl].
  - cbv zeta.
    match goal with |- rests s (onNoiseSourceStart _ ?s2) =>
      apply rests_trans with s2; [rests_fields|]
    end.
    unfold onNoiseSourceStart.
    destruct (_ && _); [|apply rests_refl]. cbv zeta.
    match goal with |- rests ?s2 (setGameStats ?s3 ?x) =>
      apply rests_trans with s3; [apply addNoise_both_rests | apply setMaxNoiseLevel_rests]
    end.
  - rests_fields.
  - unfold onPowerUpCollected.
    match goal with |- rests s (setGameStats ?s2 ?x) =>
      apply rests_trans with s2; [|apply setPowerUpsUsed_rests]
    end.
    apply rests_trans with (record (POWERUP_COLLECTED type) s); [rests_fields|].
    unfold managerOnPowerUpCollected.
    destruct (PowerUp.activatePowerUp type _) as [[[pm b] evs] |]; [|apply rests_refl].
    match goal with |- rests ?s1 (emitAll1 evs ?s2) =>
      apply rests_trans with s2; [rests_fields | apply emitAll1_rests]
    end.
Qed.

Lemma emitAll_rests : forall evs s, rests s (emitAll evs s).
Proof.
  induction evs as [| e evs IH]; intro s; cbn [emitAll fold_left].
  - apply rests_refl.
  - apply rests_trans with (emit e s); [apply emit_rests | apply IH].
Qed.

Lemma updateNoiseSources_rests : forall time todo s,
  rests s (updateNoiseSources time todo s).
Proof.
  intros time todo. induction todo as [| [k ns] rest IH]; intro s.
  - apply rests_refl.
  - cbn [updateNoiseSources].
    destruct (NoiseSource.update time (now s) ns (rng s)) as [[ns' evs] g'].
    match goal with |- rests s (updateNoiseSources time rest (emitAll evs ?s1)) =>
      apply rests_trans with s1; [rests_fields|];
      apply rests_trans with (emitAll evs s1); [apply emitAll_rests | apply IH]
    end.
Qed.

Lemma update_rests : forall time delta s, rests s (update time delta s).
Proof.
  intros time delta s. unfold update.
  destruct (negb (GameState_beq (gameState s) PLAYING)); [apply rests_refl|].
  cbv zeta.
  assert (S1 : rests s (updateEntities s)).
  { unfold updateEntities.
    apply rests_trans with (bearUpdate s); [apply bearUpdate_rests | apply emitAll_rests]. }
  assert (S2 : forall s0, rests s0 (updateSystems time delta s0)).
  { intro s0. unfold updateSystems.
    match goal with |- rests s0 (let (pm, evs) := PowerUp.update delta (powerUpManager ?s1) in _) =>
      apply rests_trans with s1; [apply updateNoiseSources_rests|];
      destruct (PowerUp.update delta (powerUpManager s1)) as [pm evs];
      apply rests_trans with (setPowerUpManager s1 pm);
        [rests_fields | apply emitAll_rests]
    end. }
  assert (S3 : forall s0, rests s0 (updateStatistics s0)).
  { intro s0. unfold updateStatistics. rests_fields. }
  assert (S4 : forall s0, rests s0 (handleNoiseCanceling delta s0)).
  { intro s0. unfold handleNoiseCanceling.
    destruct (isNoiseCancelActive (inputState s0)); [|apply rests_refl].
    apply reduceNoise_both_rests. }
  assert (S5 : forall s0, rests s0 (handleTVNoise delta s0)).
  { intro s0. unfold handleTVNoise.
    destruct (_ && _); [|apply rests_refl]. apply addNoise_both_rests. }
  assert (S6 : forall s0, rests s0 (handleNoiseSources delta s0)).
  { intro s0. unfold handleNoiseSources. cbv zeta.
    destruct (_ && _); [|apply rests_refl]. apply addNoise_both_rests. }
  set (s1 := updateEntities s) in *.
  set (s2 := updateSystems time delta s1).
  set (s3 := updateStatistics s2).
  set (s4 := handleNoiseCanceling delta s3).
  set (s5 := handleTVNoise delta s4).
  apply rests_trans with s5; [|apply S6].
  apply rests_trans with s4; [|apply S5].
  apply rests_trans with s3; [|apply S4].
  apply rests_trans with s2; [|apply S3].
  apply rests_trans with s1; [exact S1 | apply S2].
Qed.

Lemma updateNoiseCancelState_rests : forall s, rests s (updateNoiseCancelState s).
Proof.
  intro s. unfold updateNoiseCancelState. cbv zeta.
  destruct (negb (Bool.eqb _ _)); [|apply rests_refl].
  destruct (spaceDown (inputState s) || mouseDown (inputState s)
            || touchActive (inputState s)).
  - match goal with |- rests s (if ?c then setGameStats ?s3 ?x else ?s3) =>
      apply rests_trans with s3;
        [|destruct c; [apply setStealthMode_rests | apply rests_refl]]
    end.
    match goal with |- rests s (emit ?e ?s2) =>
      apply rests_trans with s2; [rests_fields | apply emit_rests]
    end.
  - match goal with |- rests s (emit ?e ?s2) =>
      apply rests_trans with s2; [rests_fields | apply emit_rests]
    end.
Qed.

Lemma exec_rests : forall a s s', exec a s = Some s' -> rests s s'.
Proof.
  intros a s s' E. destruct a; unfold exec in E.
  - apply Some_inj in E. subst s'.
    apply rests_trans with (setNow s time); [rests_fields | apply update_rests].
  - apply Some_inj in E. subst s'. unfold updateGameTimer.
    destruct (negb (GameState_beq (gameState s) PLAYING)); [apply rests_refl|].
    cbv zeta. scene_fields.
    destruct (Qle_bool _ 0); [|rests_fields].
    unfold checkVictoryCondition. destruct (Qlt_bool _ _); rests_fields.
  - destruct (Television.exec a (television s) (rng s)) as [[[tv evs] g] |];
      [|discriminate].
    apply Some_inj in E. subst s'.
    apply rests_trans with (setRng (setTelevision s tv) g);
      [rests_fields | apply emitAll_rests].
  - apply Some_inj in E. subst s'. unfold onSpaceDown.
    destruct (negb (GameState_beq (gameState s) PLAYING)); [apply rests_refl|].
    cbv zeta.
    match goal with |- rests s (updateNoiseCancelState ?s1) =>
      apply rests_trans with s1; [rests_fields | apply updateNoiseCancelState_rests]
    end.
  - apply Some_inj in E. subst s'. unfold onSpaceUp. cbv zeta.
    match goal with |- rests s (updateNoiseCancelState ?s1) =>
      apply rests_trans with s1; [rests_fields | apply updateNoiseCancelState_rests]
    end.
  - apply Some_inj in E. subst s'. unfold startNoiseCancel.
    destruct (negb (GameState_beq (gameState s) PLAYING)); [apply rests_refl|].
    cbv zeta.
    match goal with |- rests s (updateNoiseCancelState ?s1) =>
      apply rests_trans with s1; [rests_fields | apply updateNoiseCancelState_rests]
    end.
  - apply Some_inj in E. subst s'. unfold stopNoiseCancel. cbv zeta.
    match goal with |- rests s (updateNoiseCancelState ?s1) =>
      apply rests_trans with s1; [|apply updateNoiseCancelState_rests]
    end.
    destruct (mouseDown (inputState s) && Qlt_bool 0 (noiseCancelStartTime s));
      rests_fields.
  - apply Some_inj in E. subst s'. unfold togglePause.
    destruct (GameState_beq (gameState s) PLAYING); [rests_fields|].
    destruct (GameState_beq (gameState s) PAUSED); [rests_fields | apply rests_refl].
  - apply Some_inj in E. subst s'. apply emit_rests.
  - destruct (availablePowerUps (currentLevel s)) eqn:Ea; [discriminate|].
    destruct (PowerUp.spawnRandomPowerUp (powerUpManager s) (rng s)) as [[pm evs] g].
    apply Some_inj in E. subst s'.
    apply rests_trans with (setRng (setPowerUpManager s pm) g); [rests_fields|].
    apply rests_trans with (emitAll evs (setRng (setPowerUpManager s pm) g));
      [apply emitAll_rests|].
    unfold startPowerUpSpawning.
    destruct (availablePowerUps (currentLevel (emitAll evs _))); rests_fields.
  - destruct (nth_error (pendingSources s) n); [|discriminate].
    destruct (NoiseSourceManager.createNoiseSource _ _ _ _) as [m g].
    apply Some_inj in E. subst s'. rests_fields.
Qed.

Lemma create_sleep_inv : forall level time g, sleep_inv (create level time g).
Proof.
  intros level time g _. unfold create.
  destruct (Television.new g) as [tv g1].
  match goal with
  | |- context [createNoiseSources ?c ?s0] =>
      pose proof (createNoiseSources_quiet c s0) as Q;
      assert (B : bear (createNoiseSources c s0) = bear s0)
  end.
  { clear Q. match goal with |- bear (createNoiseSources ?c ?s0) = _ =>
      generalize s0; induction c as [| cfg rest IH]; intro s1; [reflexivity|] end.
    cbn [createNoiseSources]. rewrite IH.
    destruct (isTruthy (NoiseSource.startDelay cfg)); [reflexivity|].
    destruct (NoiseSourceManager.createNoiseSource _ _ _ _) as [m g2]. reflexivity. }
  unfold startPowerUpSpawning.
  destruct (availablePowerUps (currentLevel _)); scene_fields; rewrite B; reflexivity.
Qed.

Lemma reachable_sleep_inv : forall level time g s,
  reachable level time g s -> sleep_inv s.
Proof.
  intros level time g s R. induction R as [| s a s' R IH E].
  - apply create_sleep_inv.
  - exact (proj1 (exec_rests a s s' E) IH).
Qed.

End RoundSleep.

(** X29.  The perfect-sleep flag of the statistics.  In every state of a
    round, the flag is up only while the bear is SLEEPING: a bear that
    has become DROWSY or AWAKE has taken it down.  Nothing that happens
    in a round puts the flag up again, so a round ends with the flag up
    only if the bear has been SLEEPING in every state of it. *)
Theorem perfect_sleep_means_sleeping :
  forall (level : LevelConfig) (time : Q) (g : Rng) (s : GameScene.t),
    GameScene.reachable level time g s ->
    (perfectSleep (GameScene.gameStats s) = true ->
     Bear.currentState (GameScene.bear s) = SLEEPING)
    /\ forall a : GameScene.Action,
         match GameScene.exec a s with
         | None => True
         | Some s' =>
             perfectSleep (GameScene.gameStats s') = true ->
             perfectSleep (GameScene.gameStats s) = true
         end.
Proof.
  intros level time g s R. split.
  - exact (reachable_sleep_inv level time g s R).
  - intro a. destruct (GameScene.exec a s) as [s' |] eqn:E; [|exact I].
    exact (proj2 (exec_rests a s s' E)).
Qed.

Lemma perfect_sleep_means_sleeping_witness :
  (perfectSleep (GameScene.gameStats round99) = true ->
   Bear.currentState (GameScene.bear round99) = SLEEPING)
  /\ forall a : GameScene.Action,
       match GameScene.exec a round99 with
       | None => True
       | Some s' =>
           perfectSleep (GameScene.gameStats s') = true ->
           perfectSleep (GameScene.gameStats round99) = true
       end.
Proof.
  apply (perfect_sleep_means_sleeping level5 0 draws1 round99).
  unfold round99. apply after_reachable. apply GameScene.reachable_create.
Defined.
